(** * Gateway core: protocol adapter, credential selector, call orchestrator,
      binary frame parser and shared quota pool.

    The JavaScript sources are embedded as Rocq functions.  Dynamically typed
    data (chat messages, tool calls, JSON Schemas, upstream parts) is carried
    by one type of JavaScript values; a thrown exception is the [None] of the
    option monad; mutated arrays and database tables are passed explicitly. *)

From Stdlib Require Import List String Ascii Bool Arith ZArith NArith QArith Qminmax Lia Lqa DecimalString.
From Stdlib.Strings Require Import Byte.
Import ListNotations.

Close Scope Q_scope.
Local Open Scope string_scope.
Local Open Scope list_scope.

(* ====================================================================== *)
(** * JavaScript values *)
(* ====================================================================== *)

Module JS.

(** Values that travel through the adapter.  Numbers are only copied and
    compared by the code under study, never computed with, and the ones it
    meets are integers: [VNum n] is the Number nearest to the integer [n],
    and a value read from JSON text holds that Number itself.  Objects keep
    their entries in insertion order. *)
#[local] Unset Elimination Schemes.
Inductive value : Type :=
| VUndefined
| VNull
| VBool (b : bool)
| VNum (n : Z)
| VStr (s : string)
| VArr (items : list value)
| VObj (fields : list (string * value)).
#[local] Set Elimination Schemes.

(** Structural induction that also descends into arrays and objects. *)
Section ValueInd.
Variable P : value -> Prop.
Hypothesis Hundef : P VUndefined.
Hypothesis Hnull : P VNull.
Hypothesis Hbool : forall b, P (VBool b).
Hypothesis Hnum : forall n, P (VNum n).
Hypothesis Hstr : forall s, P (VStr s).
Hypothesis Harr : forall l, Forall P l -> P (VArr l).
Hypothesis Hobj : forall fs, Forall (fun kv => P (snd kv)) fs -> P (VObj fs).

End ValueInd.

(** The error monad: [None] is a thrown exception. *)
Definition bind {A B : Type} (m : option A) (k : A -> option B) : option B :=
  match m with
  | Some a => k a
  | None => None
  end.

Notation "'let*' x ':=' m 'in' k" := (bind m (fun x => k))
  (at level 10, x name, m at level 100, k at level 200).

(** [o[k]] on an object's entry list: the first entry named [k]. *)
Fixpoint lookup (k : string) (fs : list (string * value)) : value :=
  match fs with
  | [] => VUndefined
  | (k', v) :: r => if String.eqb k k' then v else lookup k r
  end.

(** [v.k]: reading a property of [undefined] or [null] throws a TypeError;
    primitives and arrays have none of the named properties used here. *)
Definition prop (k : string) (v : value) : option value :=
  match v with
  | VUndefined | VNull => None
  | VObj fs => Some (lookup k fs)
  | _ => Some VUndefined
  end.

(** [v?.k]: optional chaining never throws. *)
Definition optprop (k : string) (v : value) : value :=
  match v with
  | VObj fs => lookup k fs
  | _ => VUndefined
  end.

(** ToBoolean. *)
Definition truthy (v : value) : bool :=
  match v with
  | VUndefined | VNull => false
  | VBool b => b
  | VNum n => negb (Z.eqb n 0)
  | VStr s => negb (String.eqb s "")
  | VArr _ | VObj _ => true
  end.

Definition isArray (v : value) : bool :=
  match v with VArr _ => true | _ => false end.

Definition isString (v : value) : bool :=
  match v with VStr _ => true | _ => false end.


(** [v === 'lit'] for a string literal. *)
Definition isStr (v : value) (lit : string) : bool :=
  match v with VStr s => String.eqb s lit | _ => false end.

(** [a === b]: primitives compare by value; two objects or arrays read from
    different places are different references. *)
Definition strictEq (a b : value) : bool :=
  match a, b with
  | VUndefined, VUndefined => true
  | VNull, VNull => true
  | VBool x, VBool y => Bool.eqb x y
  | VNum x, VNum y => Z.eqb x y
  | VStr x, VStr y => String.eqb x y
  | _, _ => false
  end.

(** ** Strings *)

Definition startsWith (s p : string) : bool := String.prefix p s.

Fixpoint includes (hay needle : string) : bool :=
  if String.prefix needle hay then true
  else match hay with
       | EmptyString => false
       | String _ rest => includes rest needle
       end.

Definition string_rev (s : string) : string :=
  string_of_list_ascii (rev (list_ascii_of_string s)).

Definition endsWith (s p : string) : bool :=
  String.prefix (string_rev p) (string_rev s).

(** A string is the sequence of bytes of its UTF-8 text, as the JSON on the
    wire carries it; a character above U+007F takes two to four bytes.
    [bytePrefix bs s]: the string starts with the bytes [bs]. *)
Fixpoint bytePrefix (bs : list nat) (s : string) : bool :=
  match bs, s with
  | [], _ => true
  | b :: bs', String c r => Nat.eqb (nat_of_ascii c) b && bytePrefix bs' r
  | _ :: _, EmptyString => false
  end.

(** The white space and the line terminators that [String.prototype.trim]
    strips, each as its UTF-8 bytes: U+0009 to U+000D, U+0020, U+00A0,
    U+1680, U+2000 to U+200A, U+2028, U+2029, U+202F, U+205F, U+3000 and
    U+FEFF. *)
Definition whiteSpace : list (list nat) :=
  [ [9]; [10]; [11]; [12]; [13]; [32];
    [194; 160];
    [225; 154; 128];
    [226; 128; 128]; [226; 128; 129]; [226; 128; 130]; [226; 128; 131];
    [226; 128; 132]; [226; 128; 133]; [226; 128; 134]; [226; 128; 135];
    [226; 128; 136]; [226; 128; 137]; [226; 128; 138];
    [226; 128; 168]; [226; 128; 169];
    [226; 128; 175];
    [226; 129; 159];
    [227; 128; 128];
    [239; 187; 191] ].

(** The number of bytes of the character of [chars] that the string starts
    with, 0 when it starts with none of them. *)
Definition widthOf (chars : list (list nat)) (s : string) : nat :=
  match find (fun bs => bytePrefix bs s) chars with
  | Some bs => List.length bs
  | None => 0
  end.

(** The string without the characters of [chars] it starts with; [skip]
    counts the bytes of a character that are still to be dropped. *)
Fixpoint dropLeading (chars : list (list nat)) (skip : nat) (s : string)
  : string :=
  match s with
  | EmptyString => EmptyString
  | String c r =>
      match skip with
      | S k => dropLeading chars k r
      | O =>
          match widthOf chars s with
          | O => s
          | S k => dropLeading chars k r
          end
      end
  end.

Definition trimStart (s : string) : string := dropLeading whiteSpace 0 s.

(** [trimEnd] reads the string backwards, and each character with it. *)
Definition trimEnd (s : string) : string :=
  string_rev (dropLeading (map (@rev nat) whiteSpace) 0 (string_rev s)).

Definition trim (s : string) : string := trimEnd (trimStart s).

(** The characters of a string, as [...s] gives them: each with the bytes
    of its UTF-8 form, a byte from 128 to 191 going on with the character
    before it. *)
Fixpoint charactersFrom (current s : string) : list string :=
  match s with
  | EmptyString =>
      match current with
      | EmptyString => []
      | _ => [current]
      end
  | String c r =>
      let n := nat_of_ascii c in
      if Nat.leb 128 n && Nat.leb n 191
      then charactersFrom (current ++ String c EmptyString) r
      else match current with
           | EmptyString => charactersFrom (String c EmptyString) r
           | _ => current :: charactersFrom (String c EmptyString) r
           end
  end.

Definition characters (s : string) : list string := charactersFrom "" s.

(** [s.replace(/pat/g, rep)] for a literal, non-empty pattern.  [skip] counts
    the characters of a match that are still to be dropped. *)
Fixpoint replaceAllFrom (pat rep : string) (skip : nat) (s : string) : string :=
  match s with
  | EmptyString => EmptyString
  | String c r =>
      match skip with
      | S k => replaceAllFrom pat rep k r
      | O =>
          if String.prefix pat s
          then (rep ++ replaceAllFrom pat rep (String.length pat - 1) r)%string
          else String c (replaceAllFrom pat rep 0 r)
      end
  end.

Definition replaceAll (pat rep s : string) : string :=
  replaceAllFrom pat rep 0 s.

(** ** Numbers

    [VNum n] stands for the Number nearest to the integer [n]: a Number has
    53 significant bits, and a tie goes to the even one. *)
Definition nearestNumber (n : Z) : Z :=
  let a := Z.abs n in
  let shift := (Z.log2 a + 1 - 53)%Z in
  if (shift <=? 0)%Z then n
  else
    let q := Z.shiftr a shift in
    let r := Z.land a (Z.ones shift) in
    let half := Z.shiftl 1 (shift - 1) in
    let q' := if (half <? r)%Z || ((r =? half)%Z && Z.odd q)
              then (q + 1)%Z else q in
    (Z.sgn n * Z.shiftl q' shift)%Z.

Definition decimal (a : Z) : string := NilZero.string_of_int (Z.to_int a).

(** The integer [c] is read back as the Number [d]. *)
Definition roundsTo (d c : Z) : bool :=
  (0 <? c)%Z && (nearestNumber c =? d)%Z.

(** Number::toString takes the fewest digits that are read back as the
    Number: the multiple of the highest power of ten [10 ^ z] that is read
    back as [d], the closest one of two, the one with the even digits on a
    tie. *)
Fixpoint shortest (d : Z) (z : nat) : Z * nat :=
  let p := (10 ^ Z.of_nat z)%Z in
  let c0 := (d / p * p)%Z in
  let c1 := (c0 + p)%Z in
  let here :=
    match roundsTo d c0, roundsTo d c1 with
    | true, true =>
        if (d - c0 <? c1 - d)%Z then Some c0
        else if (c1 - d <? d - c0)%Z then Some c1
        else if Z.even (c0 / p) then Some c0 else Some c1
    | true, false => Some c0
    | false, true => Some c1
    | false, false => None
    end in
  match here, z with
  | Some c, _ => (c, z)
  | None, S z' => shortest d z'
  | None, O => (d, O)
  end.

(** The digits of a positive Number: in full up to 21 digits, the zeros at
    the end included, and with an exponent beyond. *)
Definition digitsOfNumber (d : Z) : string :=
  let (c, z) := shortest d (String.length (decimal d)) in
  let digits := decimal (c / 10 ^ Z.of_nat z) in
  let n := String.length digits + z in
  if Nat.leb n 21
  then (digits ++ string_of_list_ascii (repeat "0"%char z))%string
  else
    match digits with
    | String c0 EmptyString =>
        (digits ++ "e+" ++ decimal (Z.of_nat (n - 1)))%string
    | String c0 more =>
        (String c0 ("." ++ more) ++ "e+" ++ decimal (Z.of_nat (n - 1)))%string
    | EmptyString => EmptyString
    end.

(** [String(n)] for a Number that is an integer. *)
Definition numberToString (n : Z) : string :=
  let d := nearestNumber n in
  if (d =? 0)%Z then "0"
  else if (2 ^ 1024 <=? Z.abs d)%Z
  then (if (d <? 0)%Z then "-Infinity" else "Infinity")
  else if (d <? 0)%Z then ("-" ++ digitsOfNumber (- d))%string
  else digitsOfNumber d.

(** [String(v)], the coercion applied by [+] and by [join]. *)
Fixpoint toString (v : value) : string :=
  match v with
  | VUndefined => "undefined"
  | VNull => "null"
  | VBool true => "true"
  | VBool false => "false"
  | VNum n => numberToString n
  | VStr s => s
  | VArr l =>
      (fix join (l : list value) : string :=
         match l with
         | [] => ""
         | x :: r =>
             let e := match x with
                      | VUndefined | VNull => ""
                      | _ => toString x
                      end in
             match r with
             | [] => e
             | _ => (e ++ "," ++ join r)%string
             end
         end) l
  | VObj _ => "[object Object]"
  end.

(** [xs.join('')]: [undefined] and [null] elements give the empty string. *)
Definition joinEmpty (xs : list value) : string :=
  String.concat ""
    (map (fun x => match x with
                   | VUndefined | VNull => ""
                   | _ => toString x
                   end) xs).

(** [xs.some(f)] for a callback that may throw: it stops at the first hit. *)
Fixpoint someM {A : Type} (f : A -> option bool) (xs : list A) : option bool :=
  match xs with
  | [] => Some false
  | x :: r => let* b := f x in if b then Some true else someM f r
  end.

(** [xs.map(f)] and [xs.filter(f)] for callbacks that may throw. *)
Fixpoint mapM {A B : Type} (f : A -> option B) (xs : list A) : option (list B) :=
  match xs with
  | [] => Some []
  | x :: r => let* y := f x in let* ys := mapM f r in Some (y :: ys)
  end.

Fixpoint filterM {A : Type} (f : A -> option bool) (xs : list A) : option (list A) :=
  match xs with
  | [] => Some []
  | x :: r =>
      let* b := f x in
      let* ys := filterM f r in
      Some (if b then x :: ys else ys)
  end.

(** What the code takes from its host: the JSON codec of the runtime and the
    regular-expression clean-up of the image-model branch. *)
Class Host : Type := {
  (** [JSON.parse]; [None] is its SyntaxError. *)
  JSON_parse : string -> option value;
  (** [JSON.stringify]; a string, or [undefined] for [undefined]. *)
  JSON_stringify : value -> value;
  (** The replacements [/!\[.*?\]\(data:image\/[^)]+\)/g],
      [/\[图像生成完成[^\]]*\]/g], [/\n{3,}/g] and the final [trim()]. *)
  stripImageMarkdown : string -> string
}.

End JS.

(* ====================================================================== *)
(** * Protocol adapter, outbound: messages and tool schemas *)
(* ====================================================================== *)

Module Adapter.
Import JS.

(** One upstream turn: [{ role, parts }].  Parts are JSON objects. *)
Record turn : Type := mkTurn { role : string; parts : list value }.

Definition textPart (s : string) : value := VObj [("text", VStr s)].

(** [antigravityMessages[antigravityMessages.length - 1]] *)
Definition lastTurn (ms : list turn) : option turn :=
  match rev ms with
  | [] => None
  | t :: _ => Some t
  end.

(** [lastMessage.parts.push(...ps)] on the last turn of [ms]. *)
Definition pushToLast (ps : list value) (ms : list turn) : list turn :=
  match rev ms with
  | [] => []
  | t :: before => rev before ++ [mkTurn (role t) (parts t ++ ps)]
  end.

(** The regular expression [^data:image\/(\w+);base64,(.+)$]. *)
Definition isWordChar (c : ascii) : bool :=
  let n := nat_of_ascii c in
  (Nat.leb 48 n && Nat.leb n 57) || (Nat.leb 65 n && Nat.leb n 90)
  || (Nat.leb 97 n && Nat.leb n 122) || Nat.eqb n 95.

Fixpoint takeWord (s : string) : string * string :=
  match s with
  | EmptyString => (EmptyString, EmptyString)
  | String c r =>
      if isWordChar c
      then let (w, rest) := takeWord r in (String c w, rest)
      else (EmptyString, s)
  end.

(** [.] refuses the line terminators: U+000A, U+000D, and U+2028 and
    U+2029, which are three bytes each. *)
Definition lineTerminators : list (list nat) :=
  [ [10]; [13]; [226; 128; 168]; [226; 128; 169] ].

Fixpoint noLineBreak (s : string) : bool :=
  match s with
  | EmptyString => true
  | String c r =>
      Nat.eqb (widthOf lineTerminators s) 0 && noLineBreak r
  end.

Definition dropString (n : nat) (s : string) : string :=
  String.substring n (String.length s - n) s.

Definition matchDataUrl (url : string) : option (string * string) :=
  if String.prefix "data:image/" url then
    let (format, rest) := takeWord (dropString 11 url) in
    if negb (String.eqb format "") && String.prefix ";base64," rest then
      let data := dropString 8 rest in
      if negb (String.eqb data "") && noLineBreak data
      then Some (format, data) else None
    else None
  else None.

(** [extractImagesFromContent]: the result object [{ text, images }]. *)
Definition extractItem (acc : string * list value) (item : value)
  : option (string * list value) :=
  let (text, images) := acc in
  let* ty := prop "type" item in
  if isStr ty "text" then
    Some ((text ++ toString (optprop "text" item))%string, images)
  else if isStr ty "image_url" then
    let u := optprop "url" (optprop "image_url" item) in
    let imageUrl := if truthy u then u else VStr "" in
    match imageUrl with
    | VStr url =>
        match matchDataUrl url with
        | Some (format, base64Data) =>
            Some (text,
                  images ++
                  [VObj [("inlineData",
                          VObj [("mimeType", VStr ("image/" ++ format)%string);
                                ("data", VStr base64Data)])]])
        | None => Some (text, images)
        end
    | _ => None (* [imageUrl.match] is not a function *)
    end
  else Some (text, images).

Fixpoint extractItems (acc : string * list value) (items : list value)
  : option (string * list value) :=
  match items with
  | [] => Some acc
  | item :: r => let* acc' := extractItem acc item in extractItems acc' r
  end.

Definition extractImagesFromContent (content : value)
  : option (string * list value) :=
  match content with
  | VStr s => Some (s, [])
  | VArr items => extractItems ("", []) items
  | _ => Some ("", [])
  end.

Definition convertThinkToThoughtTags (text : string) : string :=
  if String.eqb text "" then text
  else replaceAll "</think>" "</THOUGHT>" (replaceAll "<think>" "<THOUGHT>" text).

Definition handleUserMessage (extracted : string * list value)
    (antigravityMessages : list turn) : list turn :=
  let (text, images) := extracted in
  let parts0 :=
    if negb (String.eqb text "")
    then [textPart (convertThinkToThoughtTags text)] else [] in
  let parts1 := parts0 ++ images in
  let parts2 := match parts1 with [] => [textPart ""] | _ => parts1 end in
  antigravityMessages ++ [mkTurn "user" parts2].

(** A part sits in a model turn of the contents. *)
Definition sentInModelTurn (p : value) (ms : list turn) : Prop :=
  exists t, In t ms /\ role t = "model" /\ In p (parts t).

Section WithHost.
Context {H : Host}.

(** ** [handleAssistantMessage] *)

Definition hasToolCalls (message : value) : bool :=
  let tc := optprop "tool_calls" message in
  truthy tc && isArray tc
  && match tc with VArr l => Nat.ltb 0 (List.length l) | _ => false end.

Definition hasContent (message : value) : bool :=
  let c := optprop "content" message in
  truthy c
  && match c with
     | VStr s => negb (String.eqb (trim s) "")
     | _ => true
     end.

(** The body of the [try] block: [toolCall.function.arguments], parsed when
    it is a string. *)
Definition parseArguments (toolCall : value) : option value :=
  let* f := prop "function" toolCall in
  let* a := prop "arguments" f in
  match a with
  | VStr s => JSON_parse s
  | _ => Some a
  end.

(** The callback of [toolCallsArray.map]. *)
Definition toolCallToPart (toolCall : value) : option value :=
  let argsObj := match parseArguments toolCall with
                 | Some v => v
                 | None => VObj []
                 end in
  let* id := prop "id" toolCall in
  let* f := prop "function" toolCall in
  let* name := prop "name" f in
  let functionCall :=
    ("functionCall", VObj [("id", id); ("name", name); ("args", argsObj)]) in
  let signature :=
    optprop "thought_signature"
      (optprop "google" (optprop "extra_content" toolCall)) in
  Some (if truthy signature
        then VObj [functionCall; ("thoughtSignature", signature)]
        else VObj [functionCall]).

Definition toolCallsArray (message : value) : list value :=
  match optprop "tool_calls" message with
  | VArr l => l
  | _ => []
  end.

Definition antigravityTools (message : value) : option (list value) :=
  if hasToolCalls message then mapM toolCallToPart (toolCallsArray message)
  else Some [].

Definition textItems (items : list value) : option (list value) :=
  let* kept := filterM (fun item => let* ty := prop "type" item in
                                    Some (isStr ty "text")) items in
  mapM (prop "text") kept.

Definition assistantText (message : value) : option string :=
  match optprop "content" message with
  | VStr s => Some s
  | VArr items => let* ts := textItems items in Some (joinEmpty ts)
  | _ => Some ""
  end.

Definition assistantTextParts (message : value) (isImageModel : bool)
  : option (list value) :=
  if hasContent message then
    let* textContent := assistantText message in
    if isImageModel then
      let cleaned := stripImageMarkdown textContent in
      Some (if negb (String.eqb cleaned "") then [textPart cleaned] else [])
    else
      Some (if negb (String.eqb textContent "")
            then [textPart (convertThinkToThoughtTags textContent)] else [])
  else Some [].

Definition lastIsModel (ms : list turn) : bool :=
  match lastTurn ms with
  | Some t => String.eqb (role t) "model"
  | None => false
  end.

Definition handleAssistantMessage (message : value)
    (antigravityMessages : list turn) (isImageModel : bool)
  : option (list turn) :=
  let* tools := antigravityTools message in
  if lastIsModel antigravityMessages && hasToolCalls message
     && negb (hasContent message)
  then Some (pushToLast tools antigravityMessages)
  else
    let* texts := assistantTextParts message isImageModel in
    let parts1 := texts ++ tools in
    let parts2 := match parts1 with [] => [textPart ""] | _ => parts1 end in
    Some (antigravityMessages ++ [mkTurn "model" parts2]).

(** ** [handleToolCall] *)

(** The inner loop: the name of the first part whose [functionCall.id] is
    the wanted id. *)
Definition nameInParts (tool_call_id : value) (ps : list value) : option value :=
  match find (fun part =>
                truthy (optprop "functionCall" part)
                && strictEq (optprop "id" (optprop "functionCall" part))
                            tool_call_id) ps with
  | Some part => Some (optprop "name" (optprop "functionCall" part))
  | None => None
  end.

(** The outer loop, from the last turn to the first. *)
Fixpoint findFunctionName (tool_call_id : value) (backwards : list turn)
    (functionName : value) : value :=
  match backwards with
  | [] => functionName
  | t :: earlier =>
      if String.eqb (role t) "model" then
        let functionName' :=
          match nameInParts tool_call_id (parts t) with
          | Some n => n
          | None => functionName
          end in
        if truthy functionName' then functionName'
        else findFunctionName tool_call_id earlier functionName'
      else findFunctionName tool_call_id earlier functionName
  end.

Definition lastIsUserWithResponse (ms : list turn) : bool :=
  match lastTurn ms with
  | Some t =>
      String.eqb (role t) "user"
      && existsb (fun p => truthy (optprop "functionResponse" p)) (parts t)
  | None => false
  end.

Definition handleToolCall (message : value) (antigravityMessages : list turn)
  : list turn :=
  let tool_call_id := optprop "tool_call_id" message in
  let functionName :=
    findFunctionName tool_call_id (rev antigravityMessages) (VStr "") in
  let functionResponse :=
    VObj [("functionResponse",
           VObj [("id", tool_call_id);
                 ("name", functionName);
                 ("response", VObj [("output", optprop "content" message)])])] in
  if lastIsUserWithResponse antigravityMessages
  then pushToLast [functionResponse] antigravityMessages
  else antigravityMessages ++ [mkTurn "user" [functionResponse]].

(** ** [isInvalidAssistantMessage] *)

(** The checks made on the only element of a one-element content array. *)
Definition invalidSingleItem (item : value) : option bool :=
  let* ty := prop "type" item in
  let text := optprop "text" item in
  if isStr ty "text" && isStr text "{" then Some true
  else if isStr ty "text"
          && (match text with
              | VUndefined | VNull => true
              | VStr s => String.eqb s ""
              | _ => false
              end
              || negb (isString text))
  then Some true
  else if negb (truthy ty) then Some true
  else Some false.

(** The callback of [message.content.some]. *)
Definition validItem (item : value) : option bool :=
  let* ty := prop "type" item in
  if isStr ty "text" then
    Some (match optprop "text" item with
          | VStr s => negb (String.eqb (trim s) "") && negb (String.eqb s "{")
          | _ => false
          end)
  else Some (truthy ty).

Definition isInvalidAssistantMessage (message : value) : option bool :=
  let* r := prop "role" message in
  if negb (isStr r "assistant") then Some false
  else if hasToolCalls message then Some false
  else
    match optprop "content" message with
    | VArr items =>
        match items with
        | [] => Some true
        | first :: others =>
            let* single := match others with
                           | [] => invalidSingleItem first
                           | _ => Some false
                           end in
            if single then Some true
            else let* hasValidContent := someM validItem items in
                 Some (negb hasValidContent)
        end
    | VStr s => Some (String.eqb s "{" || String.eqb (trim s) "")
    | VNull | VUndefined => Some true
    | _ => Some false
    end.

(** ** [openaiMessageToAntigravity] *)

Definition keepMessage (message : value) : option bool :=
  let* invalid := isInvalidAssistantMessage message in
  if invalid then Some false
  else let* r := prop "role" message in Some (negb (isStr r "system")).

(** The prompt of a completion model. *)
Fixpoint completionPrompt (prompt : string) (messages : list value)
  : option string :=
  match messages with
  | [] => Some prompt
  | message :: r =>
      let* ro := prop "role" message in
      let content := toString (optprop "content" message) in
      let nl := String (ascii_of_nat 10) EmptyString in
      let prompt' :=
        if isStr ro "system" then (prompt ++ content ++ nl ++ nl)%string
        else if isStr ro "user" then (prompt ++ content)%string
        else if isStr ro "assistant" then (prompt ++ nl ++ content ++ nl)%string
        else prompt in
      completionPrompt prompt' r
  end.

(** One round of the conversion loop. *)
Definition convertMessage (isImageModel : bool) (antigravityMessages : list turn)
    (message : value) : option (list turn) :=
  let ro := optprop "role" message in
  if isStr ro "user" then
    let* extracted := extractImagesFromContent (optprop "content" message) in
    Some (handleUserMessage extracted antigravityMessages)
  else if isStr ro "assistant" then
    handleAssistantMessage message antigravityMessages isImageModel
  else if isStr ro "tool" then
    Some (handleToolCall message antigravityMessages)
  else Some antigravityMessages.

Fixpoint convertMessages (isImageModel : bool) (antigravityMessages : list turn)
    (messages : list value) : option (list turn) :=
  match messages with
  | [] => Some antigravityMessages
  | message :: r =>
      let* next := convertMessage isImageModel antigravityMessages message in
      convertMessages isImageModel next r
  end.

(** The ids collected in [functionCallIds]. *)
Definition functionCallIds (ms : list turn) : list value :=
  flat_map (fun msg =>
              if String.eqb (role msg) "model" then
                flat_map (fun part =>
                            let fc := optprop "functionCall" part in
                            if truthy fc && truthy (optprop "id" fc)
                            then [optprop "id" fc] else [])
                         (parts msg)
              else [])
           ms.

Definition keepPart (ids : list value) (part : value) : bool :=
  let fr := optprop "functionResponse" part in
  if truthy fr && truthy (optprop "id" fr)
  then existsb (strictEq (optprop "id" fr)) ids
  else true.

Definition pruneOrphans (ms : list turn) : list turn :=
  let ids := functionCallIds ms in
  map (fun msg =>
         if String.eqb (role msg) "user"
         then mkTurn (role msg) (filter (keepPart ids) (parts msg))
         else msg)
      ms.

Definition dropEmptyUserTurns (ms : list turn) : list turn :=
  filter (fun msg =>
            negb (String.eqb (role msg) "user"
                  && Nat.eqb (List.length (parts msg)) 0))
         ms.

Definition openaiMessageToAntigravity (openaiMessages : list value)
    (isCompletionModel : bool) (modelName : string) : option (list turn) :=
  let* filteredMessages := filterM keepMessage openaiMessages in
  if isCompletionModel then
    let* prompt := completionPrompt "" openaiMessages in
    Some [mkTurn "user" [textPart prompt]]
  else
    let isImageModel := endsWith modelName "-image" in
    let* antigravityMessages := convertMessages isImageModel [] filteredMessages in
    Some (dropEmptyUserTurns (pruneOrphans antigravityMessages)).

(** The [contents] field that [generateRequestBody] sends upstream:
    [openaiMessageToAntigravity(openaiMessages, false, baseModelName)]. *)
Definition requestContents (openaiMessages : list value) (baseModelName : string)
  : option (list turn) :=
  openaiMessageToAntigravity openaiMessages false baseModelName.

(** ** [normalizeJsonSchema] *)

Definition UNSUPPORTED_SCHEMA_KEYS : list string :=
  [ "$schema"; "$id"; "$defs"; "definitions";
    "allOf"; "anyOf"; "oneOf"; "not"; "if"; "then"; "else";
    "pattern"; "patternProperties"; "propertyNames";
    "minLength"; "maxLength";
    "minItems"; "maxItems"; "uniqueItems"; "contains";
    "minimum"; "maximum"; "exclusiveMinimum"; "exclusiveMaximum"; "multipleOf";
    "dependentSchemas"; "dependentRequired";
    "additionalItems"; "unevaluatedItems"; "unevaluatedProperties" ].

Definition unsupported (key : string) : bool :=
  existsb (String.eqb key) UNSUPPORTED_SCHEMA_KEYS.

(** The source copies the object, deletes the unsupported keys and then
    rewrites the [properties], [items] and [additionalProperties] entries
    of the copy in place.  The three rewrites touch different keys and keep
    each entry where it is, so the copy is rebuilt here in one pass over the
    entries.  [Object.entries(null)] throws.

    The copy [{ ...schema }] keeps an entry named [__proto__] as it keeps
    any other.  In the loop over the properties the assignment
    [processed[propKey] = ...] with that key sets the prototype of
    [processed] and adds no entry: the property is sanitized (an exception
    there is thrown on) and then lost. *)
Fixpoint normalizeJsonSchema (schema : value) : option value :=
  match schema with
  | VArr items =>
      let* items' :=
        (fix each (l : list value) : option (list value) :=
           match l with
           | [] => Some []
           | x :: r =>
               let* x' := normalizeJsonSchema x in
               let* r' := each r in
               Some (x' :: r')
           end) items in
      Some (VArr items')
  | VObj fields =>
      let* fields' :=
        (fix entries (fs : list (string * value))
           : option (list (string * value)) :=
           match fs with
           | [] => Some []
           | (key, v) :: r =>
               if unsupported key then entries r
               else
                 let* v' :=
                   if String.eqb key "properties" then
                     match v with
                     | VObj props =>
                         let* processed :=
                           (fix eachProp (ps : list (string * value))
                              : option (list (string * value)) :=
                              match ps with
                              | [] => Some []
                              | (propKey, propValue) :: ps' =>
                                  let* p' := normalizeJsonSchema propValue in
                                  let* r' := eachProp ps' in
                                  Some (if String.eqb propKey "__proto__"
                                        then r' else (propKey, p') :: r')
                              end) props in
                         Some (VObj processed)
                     | VNull => None
                     | _ => Some v
                     end
                   else if String.eqb key "items" then normalizeJsonSchema v
                   else if String.eqb key "additionalProperties" then
                     match v with
                     | VNull | VArr _ | VObj _ => normalizeJsonSchema v
                     | _ => Some v
                     end
                   else Some v in
                 let* r' := entries r in
                 Some ((key, v') :: r')
           end) fields in
      Some (VObj fields')
  | _ => Some schema
  end.

Definition convertTool (tool : value) : option value :=
  let* f := prop "function" tool in
  let* parameters := prop "parameters" f in
  let* normalizedParams := normalizeJsonSchema parameters in
  Some (VObj [("functionDeclarations",
               VArr [VObj [("name", optprop "name" f);
                           ("description", optprop "description" f);
                           ("parameters", normalizedParams)]])]).

Definition convertOpenAIToolsToAntigravity (openaiTools : value)
  : option (list value) :=
  match openaiTools with
  | VArr toolsArray => mapM convertTool toolsArray
  | _ => Some []
  end.

End WithHost.
End Adapter.

(* ====================================================================== *)
(** * Credential store and credential selector *)
(* ====================================================================== *)

Module Store.

(** A row of the [accounts] table (the columns the core reads or writes). *)
Record account : Type := mkAccount {
  cookie_id : string;
  user_id : string;
  is_shared : nat;
  status : nat;
  need_refresh : nat;
  access_token : string;
  refresh_token : string;
  expires_at : Z;
  project_id_0 : string
}.

Definition enabled (a : account) : bool :=
  Nat.eqb (status a) 1 && Nat.eqb (need_refresh a) 0.

(** [accountService.getAvailableAccounts(user_id, is_shared)]: rows with
    [status = 1 AND need_refresh = 0], in creation order. *)
Definition getAvailableAccounts (db : list account) (uid : option string)
    (shared : option nat) : list account :=
  filter (fun a =>
            enabled a
            && match shared with
               | Some s => Nat.eqb (is_shared a) s
               | None => true
               end
            && match uid, shared with
               | Some _, Some 1 => true
               | Some u, _ => String.eqb (user_id a) u
               | None, _ => true
               end)
         db.

Definition hasRow (db : list account) (cookie : string) : bool :=
  existsb (fun a => String.eqb (cookie_id a) cookie) db.

Definition updateRow (f : account -> account) (db : list account)
    (cookie : string) : option (list account) :=
  if hasRow db cookie
  then Some (map (fun a => if String.eqb (cookie_id a) cookie then f a else a) db)
  else None.

(** [updateAccountStatus(cookie_id, status)]; it throws when the row is
    missing. *)
Definition updateAccountStatus (db : list account) (cookie : string) (st : nat)
  : option (list account) :=
  updateRow (fun a => mkAccount (cookie_id a) (user_id a) (is_shared a) st
                        (need_refresh a) (access_token a) (refresh_token a)
                        (expires_at a) (project_id_0 a)) db cookie.

(** [markAccountNeedRefresh(cookie_id)]: [status = 0, need_refresh = 1]. *)
Definition markAccountNeedRefresh (db : list account) (cookie : string)
  : option (list account) :=
  updateRow (fun a => mkAccount (cookie_id a) (user_id a) (is_shared a) 0
                        1 (access_token a) (refresh_token a)
                        (expires_at a) (project_id_0 a)) db cookie.

Definition withToken (a : account) (token : string) (expires : Z) : account :=
  mkAccount (cookie_id a) (user_id a) (is_shared a) (status a)
    (need_refresh a) token (refresh_token a) expires (project_id_0 a).

(** [updateAccountToken(cookie_id, access_token, expires_at)] *)
Definition updateAccountToken (db : list account) (cookie : string)
    (token : string) (expires : Z) : option (list account) :=
  updateRow (fun a => withToken a token expires) db cookie.


(** [isTokenExpired(account)] at the instant [now] (milliseconds). *)
Definition isTokenExpired (now : Z) (a : account) : bool :=
  Z.eqb (expires_at a) 0 || Z.geb now (expires_at a - 300000).

End Store.

Module Selector.
Import Store.

(** Outcome of [oauthService.refreshAccessToken]. *)
Inductive refreshed : Type :=
| TokenData (access_token : string) (expires_in : Z)
| InvalidGrant
| RefreshError.

(** What selection reads from its surroundings.  The quota service
    ([quota.service.js]) is not part of the sources at hand: its three
    queries are taken as they are called.  [random k] is the value of
    [Math.floor(Math.random() * n)] at the [k]-th draw, before reduction
    to the range of the pool. *)
Record world : Type := mkWorld {
  isModelAvailable : string -> string -> bool;
  getQuotaSharedModels : string -> list string;
  (** the [quota] column of the user's pool row, if the row exists *)
  getUserModelSharedQuotaPool : string -> string -> option Q;
  refreshAccessToken : string -> refreshed;
  now : Z;
  random : nat -> nat
}.

(** The table of accounts and the number of random draws made so far. *)
Record store : Type := mkStore { accounts : list account; draws : nat }.

Inductive failure : Type :=
| NoAccounts          (* 没有可用的账号，请添加账号 *)
| QuotaExhausted      (* 所有账号对模型 ... 的配额已耗尽或用户共享配额不足 *)
| EmptyPool           (* [selectedPool[0]] is undefined: TypeError *)
| RowMissing          (* 账号不存在 *)
| FuelExhausted.

Inductive selection : Type :=
| Picked (a : account) (st : store)
| Failed (e : failure) (st : store).

Section WithWorld.
Variable w : world.

(** The concatenation of the two candidate lists. *)
Definition candidates (db : list account) (uid : string) (preferShared : nat)
  : list account :=
  if Nat.eqb preferShared 1
  then getAvailableAccounts db None (Some 1)
       ++ getAvailableAccounts db (Some uid) (Some 0)
  else getAvailableAccounts db (Some uid) (Some 0)
       ++ getAvailableAccounts db None (Some 1).

Definition excludeTried (excludeCookieIds : list string) (accs : list account)
  : list account :=
  if Nat.ltb 0 (List.length excludeCookieIds)
  then filter (fun acc =>
                 negb (existsb (String.eqb (cookie_id acc)) excludeCookieIds))
              accs
  else accs.

(** The loop over the quota-sharing group of the model. *)
Definition hasQuota (uid model_name : string) : bool :=
  existsb (fun sharedModel =>
             match getUserModelSharedQuotaPool w uid sharedModel with
             | Some quota => negb (Qle_bool quota 0)
             | None => false
             end)
          (getQuotaSharedModels w model_name).

Definition eligible (uid model_name : string) (a : account) : bool :=
  isModelAvailable w (cookie_id a) model_name
  && (if Nat.eqb (is_shared a) 1 then hasQuota uid model_name else true).

Definition availableAccounts (uid model_name : string) (accs : list account)
  : list account :=
  filter (eligible uid model_name) accs.

Definition selectedPool (preferShared : nat) (available : list account)
  : list account :=
  if Nat.eqb preferShared 1 then
    let sharedAvailable := filter (fun acc => Nat.eqb (is_shared acc) 1) available in
    if Nat.ltb 0 (List.length sharedAvailable) then sharedAvailable
    else filter (fun acc => Nat.eqb (is_shared acc) 0) available
  else
    let dedicatedAvailable := filter (fun acc => Nat.eqb (is_shared acc) 0) available in
    if Nat.ltb 0 (List.length dedicatedAvailable) then dedicatedAvailable
    else filter (fun acc => Nat.eqb (is_shared acc) 1) available.

(** [getAvailableAccount].  Each recursive call follows a failed token
    refresh, which disables the account just picked; [fuel] bounds the
    number of such rounds. *)
Fixpoint getAvailableAccountFrom (fuel : nat) (st : store)
    (uid model_name : string) (preferShared : nat)
    (excludeCookieIds : list string) : selection :=
  match fuel with
  | O => Failed FuelExhausted st
  | S fuel' =>
      let accs := excludeTried excludeCookieIds
                    (candidates (accounts st) uid preferShared) in
      match accs with
      | [] => Failed NoAccounts st
      | _ =>
          let available := availableAccounts uid model_name accs in
          match available with
          | [] => Failed QuotaExhausted st
          | _ =>
              let pool := selectedPool preferShared available in
              let randomIndex := random w (draws st) mod List.length pool in
              let st1 := mkStore (accounts st) (S (draws st)) in
              match nth_error pool randomIndex with
              | None => Failed EmptyPool st1
              | Some account =>
                  if isTokenExpired (now w) account then
                    match refreshAccessToken w (refresh_token account) with
                    | TokenData token expires_in =>
                        let expires := (now w + expires_in * 1000)%Z in
                        match updateAccountToken (accounts st1)
                                (cookie_id account) token expires with
                        | Some db' =>
                            Picked (withToken account token expires)
                                   (mkStore db' (draws st1))
                        | None =>
                            (* thrown inside [try]: handled as a failed refresh *)
                            match markAccountNeedRefresh (accounts st1)
                                    (cookie_id account) with
                            | Some db' =>
                                getAvailableAccountFrom fuel'
                                  (mkStore db' (draws st1)) uid model_name
                                  preferShared
                                  (excludeCookieIds ++ [cookie_id account])
                            | None => Failed RowMissing st1
                            end
                        end
                    | InvalidGrant =>
                        match updateAccountStatus (accounts st1)
                                (cookie_id account) 0 with
                        | Some db' =>
                            getAvailableAccountFrom fuel'
                              (mkStore db' (draws st1)) uid model_name
                              preferShared
                              (excludeCookieIds ++ [cookie_id account])
                        | None => Failed RowMissing st1
                        end
                    | RefreshError =>
                        match markAccountNeedRefresh (accounts st1)
                                (cookie_id account) with
                        | Some db' =>
                            getAvailableAccountFrom fuel'
                              (mkStore db' (draws st1)) uid model_name
                              preferShared
                              (excludeCookieIds ++ [cookie_id account])
                        | None => Failed RowMissing st1
                        end
                    end
                  else Picked account st1
              end
          end
      end
  end.

(** One more round than there are rows is always enough: every round that
    goes on has disabled an enabled row. *)
Definition getAvailableAccount (st : store) (uid model_name : string)
    (preferShared : nat) (excludeCookieIds : list string) : selection :=
  getAvailableAccountFrom (S (List.length (accounts st))) st uid model_name
    preferShared excludeCookieIds.

(** The account chosen by one round, before any token refresh. *)
Definition roundPick (st : store) (uid model_name : string) (preferShared : nat)
    (ex : list string) (account : account) : Prop :=
  In account
     (selectedPool preferShared
        (availableAccounts uid model_name
           (excludeTried ex (candidates (accounts st) uid preferShared)))).

(** A dedicated credential of the user that selection may pick: enabled,
    not excluded, and with quota left for the model. *)
Definition dedicatedEligible (db : list account) (uid model_name : string)
    (ex : list string) (d : account) : Prop :=
  In d db /\ enabled d = true /\ is_shared d = 0 /\ user_id d = uid
  /\ ~ In (cookie_id d) ex
  /\ isModelAvailable w (cookie_id d) model_name = true.

(** The token of the credential is current, or its refresh succeeds. *)
Definition usableToken (d : account) : Prop :=
  isTokenExpired (now w) d = false
  \/ exists token expires_in,
       refreshAccessToken w (refresh_token d) = TokenData token expires_in.

End WithWorld.

(** Every row with the given cookie is out of selection. *)
Definition disabledIn (cookie : string) (db : list account) : Prop :=
  forall row, In row db -> cookie_id row = cookie -> enabled row = false.

Definition enabledCount (db : list account) : nat :=
  List.length (filter enabled db).

End Selector.

(* ====================================================================== *)
(** * Upstream call orchestrator *)
(* ====================================================================== *)

Module Client.
Import JS Store Selector.

(** Events handed to [callback]. *)
Inductive event : Type :=
| EvError (content : string)
| EvReasoning (content : value)
| EvText (content : string)
| EvImage (mimeType data : value)
| EvToolCalls (tool_calls : list value).

(** ** Inbound: the text-frame stream *)

Section Stream.
Context {H : Host}.

(** [v?.[0]] *)
Definition first (v : value) : value :=
  match v with
  | VArr (x :: _) => x
  | VObj fields => lookup "0" fields
  | _ => VUndefined
  end.

Definition candidate0 (data : value) : option value :=
  let* response := prop "response" data in
  Some (first (optprop "candidates" response)).

(** The tool call built from a [functionCall] part. *)
Definition partToToolCall (part : value) : value :=
  let fc := optprop "functionCall" part in
  let core :=
    [("id", optprop "id" fc);
     ("type", VStr "function");
     ("function", VObj [("name", optprop "name" fc);
                        ("arguments", JSON_stringify (optprop "args" fc))])] in
  let signature := optprop "thoughtSignature" part in
  if truthy signature
  then VObj (core ++ [("extra_content",
                       VObj [("google",
                              VObj [("thought_signature", signature)])])])
  else VObj core.

(** The state of the read loop that matters to the caller: the events sent
    so far and the tool calls waiting for a finish reason. *)
Record reader : Type := mkReader { sent : list event; toolCalls : list value }.

(** One round of the second [for (const part of parts)] loop; [None] is an
    exception, which ends the handling of the record. *)
Definition handlePart (rd : reader) (part : value) : option reader :=
  let* thought := prop "thought" part in
  let text := optprop "text" part in
  if strictEq thought (VBool true) then
    Some (mkReader (sent rd ++ [EvReasoning (if truthy text then text else VStr "")])
                   (toolCalls rd))
  else
    match text with
    | VUndefined =>
        let inlineData := optprop "inlineData" part in
        if truthy inlineData then
          Some (mkReader (sent rd ++ [EvImage (optprop "mimeType" inlineData)
                                              (optprop "data" inlineData)])
                         (toolCalls rd))
        else if truthy (optprop "functionCall" part) then
          Some (mkReader (sent rd) (toolCalls rd ++ [partToToolCall part]))
        else Some rd
    | VStr s =>
        if String.eqb (trim s) "" then Some rd
        else Some (mkReader (sent rd ++ [EvText s]) (toolCalls rd))
    | _ => None (* [part.text.trim] is not a function *)
    end.

(** The loop keeps what it did before an exception. *)
Fixpoint handleParts (rd : reader) (ps : list value) : reader * bool :=
  match ps with
  | [] => (rd, true)
  | part :: r =>
      match handlePart rd part with
      | Some rd' => handleParts rd' r
      | None => (rd, false)
      end
  end.

Definition flush (rd : reader) : reader :=
  match toolCalls rd with
  | [] => rd
  | tcs => mkReader (sent rd ++ [EvToolCalls tcs]) []
  end.

(** The body of the [try] block for one parsed record. *)
Definition handleData (rd : reader) (data : value) : reader :=
  match candidate0 data with
  | None => rd
  | Some cand =>
      let ps := optprop "parts" (optprop "content" cand) in
      let finishReason := optprop "finishReason" cand in
      let (rd1, completed) :=
        if truthy ps then
          match ps with
          | VArr l => handleParts rd l
          | VStr _ => (rd, true)
          | _ => (rd, false) (* not iterable *)
          end
        else (rd, true) in
      if completed && truthy finishReason then flush rd1 else rd1
  end.

Definition handleLine (rd : reader) (line : string) : reader :=
  if negb (startsWith line "data: ") then rd
  else
    let jsonStr := trim (Adapter.dropString 6 line) in
    if String.eqb jsonStr "" then rd
    else match JSON_parse jsonStr with
         | Some data => handleData rd data
         | None => rd
         end.

(** The events of a response whose body arrives as the given complete
    lines (the reassembly of lines from chunks is left out). *)
Definition streamEvents (lines : list string) : list event :=
  sent (fold_left handleLine lines (mkReader [] [])).

End Stream.

(** ** The retry state machine *)

(** What one [fetch] gives: a rejected promise, or a response with its
    status, the text of its body and, for a 2xx status, the lines of its
    stream. *)
Inductive reply : Type :=
| NetworkError
| Response (status : nat) (responseText : string) (lines : list string).

Inductive thrown : Type :=
| ApiError (message : string) (statusCode : nat)
| SelectionError (e : failure)
| FetchError
| BodyError.   (* the SyntaxError of [response.json()], the TypeError of
                  [responseData.response] on [null] *)

Inductive outcome : Type :=
| Returned
| Threw (e : thrown).

(** One physical attempt, with the parameters of the call that made it. *)
Record attempt : Type := mkAttempt {
  att_cookie : string;
  att_retryCount : nat;
  att_endpointIndex : nat;
  att_firstError403Type : option string;
  att_reply : reply
}.

Record run : Type := mkRun {
  final : store;
  events : list event;
  result : outcome;
  attempts : list attempt
}.

Definition ok (status : nat) : bool := Nat.leb 200 status && Nat.leb status 299.

Definition quotaMarked (responseText : string) : bool :=
  includes responseText "quota" || includes responseText "RESOURCE_EXHAUSTED".

(** [callback(ev); throw e] or [callback(ev); return] as the end of a run. *)
Definition finish (st : store) (evs : list event) (o : outcome) (a : attempt) : run :=
  mkRun st evs o [a].

Definition after (a : attempt) (r : run) : run :=
  mkRun (final r) (events r) (result r) (a :: attempts r).

(** [try { ... return await retry } catch { callback(ev); return }] *)
Definition catchReturn (ev : event) (r : run) : run :=
  match result r with
  | Returned => r
  | Threw _ => mkRun (final r) (events r ++ [ev]) Returned (attempts r)
  end.

(** [try { ... return await retry } catch { callback(ev); throw e }] *)
Definition catchRethrow (evs : list event) (e : thrown) (r : run) : run :=
  match result r with
  | Returned => r
  | Threw _ => mkRun (final r) (events r ++ evs) (Threw e) (attempts r)
  end.

Section Orchestrator.
Context {H : Host}.
Variable w : world.
(** [getEndpointCount()] *)
Variable totalEndpoints : nat.
Variables (uid model_name : string) (preferShared : nat).

(** [getApiEndpoint(endpointIndex)]: the index really used. *)
Definition endpointUsed (endpointIndex : nat) : nat :=
  Nat.min endpointIndex (totalEndpoints - 1).

Definition disable (st : store) (cookie : string) : option store :=
  match updateAccountStatus (accounts st) cookie 0 with
  | Some db => Some (mkStore db (draws st))
  | None => None
  end.

Definition select (st : store) (excludeCookieIds : list string) : selection :=
  getAvailableAccount w st uid model_name preferShared excludeCookieIds.

(** [generateResponse].  [script] holds the replies of the network to the
    successive fetches of this logical request; every call makes one fetch,
    and a fetch after the end of the script fails like a lost connection. *)
Fixpoint generateResponse (script : list reply) (st : store)
    (account : option account) (excludeCookieIds : list string)
    (retryCount endpointIndex : nat) (firstError403Type : option string) : run :=
  match (match account with
         | Some a => Picked a st
         | None => select st excludeCookieIds
         end) with
  | Failed e st0 => mkRun st0 [] (Threw (SelectionError e)) []
  | Picked account st0 =>
    match script with
    | [] =>
        finish st0 [] (Threw FetchError)
          (mkAttempt (cookie_id account) retryCount
             (endpointUsed endpointIndex) firstError403Type NetworkError)
    | rep :: rest =>
      let this := mkAttempt (cookie_id account) retryCount
                    (endpointUsed endpointIndex) firstError403Type rep in
      match rep with
      | NetworkError => finish st0 [] (Threw FetchError) this
      | Response status responseText lines =>
        if ok status then finish st0 (streamEvents lines) Returned this
        else if Nat.eqb status 403 then
          let isPermissionDenied :=
            includes responseText "The caller does not have permission" in
          let currentFirstError403Type :=
            match firstError403Type with
            | None => if isPermissionDenied then "PERMISSION_DENIED" else "403"
            | Some t => t
            end in
          let nextEndpointIndex := S endpointIndex in
          if Nat.ltb nextEndpointIndex totalEndpoints then
            after this
              (generateResponse rest st0 (Some account) excludeCookieIds
                 retryCount nextEndpointIndex (Some currentFirstError403Type))
          else
            let all403 := finish st0 [EvError "ALL_ENDPOINTS_403"]
                            (Threw (ApiError "ALL_ENDPOINTS_403" 403)) this in
            if negb (String.eqb currentFirstError403Type "PERMISSION_DENIED") then
              match disable st0 (cookie_id account) with
              | Some st1 => finish st1 [EvError "ALL_ENDPOINTS_403"]
                              (Threw (ApiError "ALL_ENDPOINTS_403" 403)) this
              | None => finish st0 [] (Threw (SelectionError RowMissing)) this
              end
            else all403
        else if Nat.eqb status 400 then
          if quotaMarked responseText then
            let newExcludeList := excludeCookieIds ++ [cookie_id account] in
            match select st0 newExcludeList with
            | Picked newAccount st1 =>
                after this
                  (catchReturn (EvError "RESOURCE_EXHAUSTED")
                     (generateResponse rest st1 (Some newAccount)
                        newExcludeList 0 0 None))
            | Failed _ st1 =>
                finish st1 [EvError "RESOURCE_EXHAUSTED"] Returned this
            end
          else if includes responseText "image exceeds 5 MB maximum" then
            finish st0 [EvError "IMAGE_INPUT_EXCEEDED_MAXIMUM_5_MB"]
              (Threw (ApiError "IMAGE_INPUT_EXCEEDED_MAXIMUM_5_MB" 400)) this
          else if includes responseText "RESOURCE_PROJECT_INVALID" then
            match disable st0 (cookie_id account) with
            | None => finish st0 [] (Threw (SelectionError RowMissing)) this
            | Some st1 =>
                let newExcludeList := excludeCookieIds ++ [cookie_id account] in
                match select st1 newExcludeList with
                | Picked newAccount st2 =>
                    after this
                      (catchRethrow [EvError "RESOURCE_PROJECT_INVALID"]
                         (ApiError "RESOURCE_PROJECT_INVALID" 400)
                         (generateResponse rest st2 (Some newAccount)
                            newExcludeList 0 0 None))
                | Failed _ st2 =>
                    finish st2 [EvError "RESOURCE_PROJECT_INVALID"]
                      (Threw (ApiError "RESOURCE_PROJECT_INVALID" 400)) this
                end
            end
          else if includes responseText "INVALID_ARGUMENT"
                  || includes responseText "invalid_request_error" then
            finish st0 [EvError responseText]
              (Threw (ApiError responseText status)) this
          else
            match disable st0 (cookie_id account) with
            | Some st1 => finish st1 [EvError responseText]
                            (Threw (ApiError responseText status)) this
            | None => finish st0 [] (Threw (SelectionError RowMissing)) this
            end
        else if Nat.eqb status 429 || quotaMarked responseText then
          let MAX_RETRY_COUNT := 5 in
          if Nat.leb MAX_RETRY_COUNT retryCount then
            finish st0 [EvError "RESOURCE_EXHAUSTED"] Returned this
          else
            let newExcludeList := excludeCookieIds ++ [cookie_id account] in
            match select st0 newExcludeList with
            | Picked newAccount st1 =>
                after this
                  (catchReturn (EvError "RESOURCE_EXHAUSTED")
                     (generateResponse rest st1 (Some newAccount)
                        newExcludeList (retryCount + 1) 0 None))
            | Failed _ st1 =>
                finish st1 [EvError "RESOURCE_EXHAUSTED"] Returned this
            end
        else if Nat.eqb status 500
                && includes responseText "Internal error encountered" then
          finish st0 [EvError "ILLEGAL_PROMPT"]
            (Threw (ApiError "ILLEGAL_PROMPT" 500)) this
        else
          finish st0 [EvError responseText]
            (Threw (ApiError responseText status)) this
      end
    end
  end.

(** [await response.json()] and [responseData.response || responseData]:
    the body of a 2xx reply has to be JSON text, and not [null]. *)
Definition readsBody (responseText : string) : bool :=
  match JSON_parse responseText with
  | Some responseData =>
      match prop "response" responseData with
      | Some _ => true
      | None => false
      end
  | None => false
  end.

(** [generateImage]: the same machine without a callback; every failure is
    thrown. *)
Fixpoint generateImage (script : list reply) (st : store)
    (account : option account) (excludeCookieIds : list string)
    (retryCount endpointIndex : nat) (firstError403Type : option string) : run :=
  match (match account with
         | Some a => Picked a st
         | None => select st excludeCookieIds
         end) with
  | Failed e st0 => mkRun st0 [] (Threw (SelectionError e)) []
  | Picked account st0 =>
    match script with
    | [] =>
        finish st0 [] (Threw FetchError)
          (mkAttempt (cookie_id account) retryCount
             (endpointUsed endpointIndex) firstError403Type NetworkError)
    | rep :: rest =>
      let this := mkAttempt (cookie_id account) retryCount
                    (endpointUsed endpointIndex) firstError403Type rep in
      let exhausted := Threw (ApiError "RESOURCE_EXHAUSTED" 429) in
      match rep with
      | NetworkError => finish st0 [] (Threw FetchError) this
      | Response status responseText lines =>
        if ok status then
          if readsBody responseText then finish st0 [] Returned this
          else finish st0 [] (Threw BodyError) this
        else if Nat.eqb status 403 then
          let isPermissionDenied :=
            includes responseText "The caller does not have permission" in
          let currentFirstError403Type :=
            match firstError403Type with
            | None => if isPermissionDenied then "PERMISSION_DENIED" else "OTHER_403"
            | Some t => t
            end in
          let nextEndpointIndex := S endpointIndex in
          if Nat.ltb nextEndpointIndex totalEndpoints then
            after this
              (generateImage rest st0 (Some account) excludeCookieIds
                 retryCount nextEndpointIndex (Some currentFirstError403Type))
          else if negb (String.eqb currentFirstError403Type "PERMISSION_DENIED") then
            match disable st0 (cookie_id account) with
            | Some st1 => finish st1 [] (Threw (ApiError "ALL_ENDPOINTS_403" 403)) this
            | None => finish st0 [] (Threw (SelectionError RowMissing)) this
            end
          else finish st0 [] (Threw (ApiError "ALL_ENDPOINTS_403" 403)) this
        else if Nat.eqb status 400 then
          if quotaMarked responseText then
            let newExcludeList := excludeCookieIds ++ [cookie_id account] in
            match select st0 newExcludeList with
            | Picked newAccount st1 =>
                after this
                  (catchRethrow [] (ApiError "RESOURCE_EXHAUSTED" 429)
                     (generateImage rest st1 (Some newAccount)
                        newExcludeList 0 0 None))
            | Failed _ st1 => finish st1 [] exhausted this
            end
          else if includes responseText "image exceeds 5 MB maximum" then
            finish st0 []
              (Threw (ApiError "IMAGE_INPUT_EXCEEDED_MAXIMUM_5_MB" 400)) this
          else if includes responseText "RESOURCE_PROJECT_INVALID" then
            match disable st0 (cookie_id account) with
            | None => finish st0 [] (Threw (SelectionError RowMissing)) this
            | Some st1 =>
                let newExcludeList := excludeCookieIds ++ [cookie_id account] in
                match select st1 newExcludeList with
                | Picked newAccount st2 =>
                    after this
                      (catchRethrow [] (ApiError "RESOURCE_PROJECT_INVALID" 400)
                         (generateImage rest st2 (Some newAccount)
                            newExcludeList 0 0 None))
                | Failed _ st2 =>
                    finish st2 []
                      (Threw (ApiError "RESOURCE_PROJECT_INVALID" 400)) this
                end
            end
          else if includes responseText "INVALID_ARGUMENT"
                  || includes responseText "invalid_request_error" then
            finish st0 [] (Threw (ApiError responseText status)) this
          else
            match disable st0 (cookie_id account) with
            | Some st1 => finish st1 [] (Threw (ApiError responseText status)) this
            | None => finish st0 [] (Threw (SelectionError RowMissing)) this
            end
        else if Nat.eqb status 429 || quotaMarked responseText then
          let MAX_RETRY_COUNT := 3 in
          if Nat.leb MAX_RETRY_COUNT retryCount then
            finish st0 [] exhausted this
          else
            let newExcludeList := excludeCookieIds ++ [cookie_id account] in
            match select st0 newExcludeList with
            | Picked newAccount st1 =>
                after this
                  (catchRethrow [] (ApiError "RESOURCE_EXHAUSTED" 429)
                     (generateImage rest st1 (Some newAccount)
                        newExcludeList (retryCount + 1) 0 None))
            | Failed _ st1 => finish st1 [] exhausted this
            end
        else if Nat.eqb status 500
                && includes responseText "Internal error encountered" then
          finish st0 [] (Threw (ApiError "ILLEGAL_PROMPT" 500)) this
        else finish st0 [] (Threw (ApiError responseText status)) this
      end
    end
  end.

End Orchestrator.
End Client.

(* ====================================================================== *)
(** * Statements about the retry state machine *)
(* ====================================================================== *)

Module Policy.
Import JS Store Selector Client.

Definition permissionDenied (responseText : string) : bool :=
  includes responseText "The caller does not have permission".

(** The value that [currentFirstError403Type] takes at a 403 reply. *)
Definition firstError403TypeAt (other : string)
    (firstError403Type : option string) (responseText : string) : string :=
  match firstError403Type with
  | None => if permissionDenied responseText then "PERMISSION_DENIED" else other
  | Some t => t
  end.

(** All rows of the credential have [status = 0]. *)
Definition isDisabled (st : store) (cookie : string) : bool :=
  forallb (fun row => negb (String.eqb (cookie_id row) cookie)
                      || Nat.eqb (status row) 0)
          (accounts st).

(** The text of the first 403 reply of a logical request. *)
Fixpoint first403Text (atts : list attempt) : option string :=
  match atts with
  | [] => None
  | a :: r =>
      match att_reply a with
      | Response 403 responseText _ => Some responseText
      | _ => first403Text r
      end
  end.

Definition lastCookie (atts : list attempt) : option string :=
  match rev atts with
  | [] => None
  | a :: _ => Some (att_cookie a)
  end.

(** The disabling rule read over the whole logical request: once the
    all-endpoints error is reported, the credential last used is disabled
    exactly when the first 403 text of the request is not a permission
    denial. *)
Definition disablingRuleOverRequest (r : run) : Prop :=
  In (EvError "ALL_ENDPOINTS_403") (events r) ->
  forall cookie text,
    lastCookie (attempts r) = Some cookie ->
    first403Text (attempts r) = Some text ->
    (isDisabled (final r) cookie = true <-> permissionDenied text = false).

(** The body of a reply, and the test [response.status === 403]. *)
Definition replyText (rep : reply) : string :=
  match rep with
  | Response _ responseText _ => responseText
  | NetworkError => ""
  end.

Definition is403 (rep : reply) : bool :=
  match rep with
  | Response status _ _ => Nat.eqb status 403
  | NetworkError => false
  end.

(** A 403 reply while more configured endpoints remain. *)
Definition rotatesOn (total : nat) (a : attempt) : bool :=
  is403 (att_reply a) && Nat.ltb (S (att_endpointIndex a)) total.

(** A 403 reply on the last configured endpoint. *)
Definition exhaustsOn (total : nat) (a : attempt) : bool :=
  is403 (att_reply a) && negb (Nat.ltb (S (att_endpointIndex a)) total).

(** [currentFirstError403Type] at the reply of an attempt. *)
Definition recordAfter (a : attempt) : string :=
  firstError403TypeAt "403" (att_firstError403Type a) (replyText (att_reply a)).

(** What follows an attempt of a chat request.  After a 403 reply that
    leaves endpoints to try: the same credential and retry count on the
    next endpoint, with the first 403 on record.  After any other reply: a
    start at the first endpoint with no 403 on record. *)
Definition followsOn (total : nat) (a b : attempt) : Prop :=
  if rotatesOn total a
  then att_cookie b = att_cookie a
       /\ att_endpointIndex b = S (att_endpointIndex a)
       /\ att_retryCount b = att_retryCount a
       /\ att_firstError403Type b = Some (recordAfter a)
  else att_endpointIndex b = 0 /\ att_firstError403Type b = None.

(** Along the attempts of a chat request every attempt follows the one
    before it in that way, and the last attempt was not answered by a 403
    that leaves endpoints to try: the resend is made. *)
Fixpoint endpointsRotate (total : nat) (atts : list attempt) : Prop :=
  match atts with
  | a :: rest =>
      match rest with
      | b :: _ => followsOn total a b /\ endpointsRotate total rest
      | [] => rotatesOn total a = false
      end
  | [] => True
  end.

(** A request starts at the first endpoint, with no retry counted and no
    403 on record. *)
Definition startsAfresh (atts : list attempt) : Prop :=
  match atts with
  | x :: _ =>
      att_endpointIndex x = 0 /\ att_retryCount x = 0
      /\ att_firstError403Type x = None
  | [] => True
  end.

(** What is left of the error [ALL_ENDPOINTS_403] once the catch blocks of
    the retries around the call have run: nothing catches it, or the catch
    of a quota retry reports RESOURCE_EXHAUSTED and returns, or the catch of
    a project retry throws RESOURCE_PROJECT_INVALID in its place. *)
Definition caughtOutcome (o : outcome) (caught : list event) : Prop :=
  Forall (fun ev => ev = EvError "RESOURCE_EXHAUSTED"
                    \/ ev = EvError "RESOURCE_PROJECT_INVALID") caught
  /\ (o = Threw (ApiError "ALL_ENDPOINTS_403" 403) /\ caught = []
      \/ o = Returned /\ In (EvError "RESOURCE_EXHAUSTED") caught
      \/ o = Threw (ApiError "RESOURCE_PROJECT_INVALID" 400)
         /\ In (EvError "RESOURCE_PROJECT_INVALID") caught).

(** The end of a request at a 403 reply on the last endpoint. *)
Definition endsForbidden (total : nat) (r : run) : Prop :=
  forall pre x post,
    attempts r = pre ++ x :: post ->
    exhaustsOn total x = true ->
    post = []
    /\ isDisabled (final r) (att_cookie x)
       = negb (String.eqb (recordAfter x) "PERMISSION_DENIED")
    /\ (exists caught,
          events r = EvError "ALL_ENDPOINTS_403" :: caught
          /\ caughtOutcome (result r) caught)
    /\ (Forall (fun p => rotatesOn total p = true) pre ->
        result r = Threw (ApiError "ALL_ENDPOINTS_403" 403)
        /\ events r = [EvError "ALL_ENDPOINTS_403"]).

(** The attempts made with one credential on the endpoints 0, 1, ... in
    order, each answered 403. *)
Definition rotation (total : nat) (cookie : string) (rot : list attempt) : Prop :=
  map att_cookie rot = repeat cookie (Nat.max 1 total)
  /\ map att_endpointIndex rot = seq 0 (Nat.max 1 total)
  /\ Forall (fun a => is403 (att_reply a) = true) rot.

(** The disabling rule read over the attempts made with the credential in
    use: a request whose attempt [x] is answered 403 on the last endpoint
    ends with the rotation of the credential of [x] over all endpoints, and
    the credential is disabled exactly when the first 403 text of that
    rotation is not a permission denial. *)
Definition disablingRuleOverCredential (total : nat) (r : run) : Prop :=
  forall pre x post,
    attempts r = pre ++ x :: post ->
    exhaustsOn total x = true ->
    exists before rot,
      attempts r = before ++ rot
      /\ rotation total (att_cookie x) rot
      /\ isDisabled (final r) (att_cookie x)
         = negb (permissionDenied (replyText (att_reply (hd x rot)))).

(** A reply that is HTTP 429 or carries a quota-exhaustion marker. *)
Definition quotaFailure (rep : reply) : bool :=
  match rep with
  | Response status responseText _ =>
      negb (ok status) && (Nat.eqb status 429 || quotaMarked responseText)
  | NetworkError => false
  end.

(** The replies that reach the 429 branch: those of [quotaFailure] whose
    status is neither 403 nor 400. *)
Definition reachesRetryBranch (rep : reply) : bool :=
  match rep with
  | Response status responseText _ =>
      quotaFailure rep && negb (Nat.eqb status 403) && negb (Nat.eqb status 400)
  | NetworkError => false
  end.

(** Along the attempts of a request: after a reply selected by [failed],
    the next attempt is made with another credential and with the retry
    count raised by one, and only below the ceiling. *)
Fixpoint retriesCounted (failed : reply -> bool) (ceiling : nat)
    (atts : list attempt) : Prop :=
  match atts with
  | a :: rest =>
      match rest with
      | b :: _ =>
          (failed (att_reply a) = true ->
           att_retryCount a < ceiling
           /\ att_retryCount b = att_retryCount a + 1
           /\ att_cookie b <> att_cookie a)
          /\ retriesCounted failed ceiling rest
      | [] => True
      end
  | [] => True
  end.

(** A 400 reply that names an invalid project. *)
Definition projectInvalid (rep : reply) : bool :=
  match rep with
  | Response status responseText _ =>
      Nat.eqb status 400 && includes responseText "RESOURCE_PROJECT_INVALID"
  | NetworkError => false
  end.

(** A chat request whose last attempt reaches the retry branch ends with
    the error event and a normal return. *)
Definition chatEndsExhausted (r : run) : Prop :=
  forall pre x,
    attempts r = pre ++ [x] ->
    reachesRetryBranch (att_reply x) = true ->
    result r = Returned /\ events r = [EvError "RESOURCE_EXHAUSTED"].

(** An image request whose last attempt reaches the retry branch throws
    RESOURCE_EXHAUSTED with status 429, unless the catch of a retry for an
    invalid project, made earlier in the request, throws its own error in
    its place. *)
Definition imageEndsExhausted (r : run) : Prop :=
  forall pre x,
    attempts r = pre ++ [x] ->
    reachesRetryBranch (att_reply x) = true ->
    events r = []
    /\ (result r = Threw (ApiError "RESOURCE_EXHAUSTED" 429)
        \/ result r = Threw (ApiError "RESOURCE_PROJECT_INVALID" 400)
           /\ Exists (fun p => projectInvalid (att_reply p) = true) pre).

End Policy.

(* ====================================================================== *)
(** * Inbound: the binary length-prefixed stream *)
(* ====================================================================== *)

Module Kiro.
Import JS.

(** [buf.readUInt32BE(offset)]; [None] is its RangeError. *)
Definition readUInt32BE (buf : list byte) (offset : nat) : option N :=
  match skipn offset buf with
  | b0 :: b1 :: b2 :: b3 :: _ =>
      Some (((Byte.to_N b0 * 256 + Byte.to_N b1) * 256 + Byte.to_N b2) * 256
            + Byte.to_N b3)%N
  | _ => None
  end.

(** [buf.slice(start, end)] for offsets that are not negative. *)
Definition slice (buf : list byte) (start stop : nat) : list byte :=
  firstn (stop - start) (skipn start buf).

Inductive parsed : Type :=
| Throws
| Null
| Payload (payload : value).

Section WithHost.
Context {H : Host}.

(** [parseSingleMessage(data)] *)
Definition parseSingleMessage (data : list byte) : parsed :=
  if Nat.ltb (List.length data) 16 then Null
  else
    match readUInt32BE data 0, readUInt32BE data 4 with
    | Some totalLength, Some headerLength =>
        if negb (N.eqb totalLength (N.of_nat (List.length data))) then Throws
        else
          let payloadStart := (12 + headerLength)%N in
          let payloadEnd := (totalLength - 4)%N in
          if N.ltb payloadEnd payloadStart
             || N.ltb (N.of_nat (List.length data)) payloadEnd
          then Throws
          else
            let payloadData :=
              slice data (N.to_nat payloadStart) (N.to_nat payloadEnd) in
            match payloadData with
            | [] => Null
            | _ =>
                match JSON_parse (string_of_list_byte payloadData) with
                | Some payload => Payload payload
                | None => Null
                end
            end
    | _, _ => Throws
    end.

(** One round of the [while (buffer.length >= 16)] loop. *)
Inductive round : Type :=
| Stop                                   (* the loop ends *)
| Resync (buffer' : list byte)           (* [buffer = buffer.slice(1)] *)
| Frame (messageData buffer' : list byte).

Definition nextRound (buffer : list byte) : round :=
  if Nat.ltb (List.length buffer) 16 then Stop
  else
    match readUInt32BE buffer 0 with
    | None => Stop
    | Some totalLength =>
        if N.ltb totalLength 16 || N.ltb (16 * 1024 * 1024) totalLength
        then Resync (skipn 1 buffer)
        else if N.ltb (N.of_nat (List.length buffer)) totalLength then Stop
        else Frame (firstn (N.to_nat totalLength) buffer)
                   (skipn (N.to_nat totalLength) buffer)
    end.

(** The messages handed to [processMessage] for one frame: an exception of
    [parseSingleMessage] is caught and logged, a falsy result is skipped. *)
Definition delivered (messageData : list byte) : list value :=
  match parseSingleMessage messageData with
  | Payload message => if truthy message then [message] else []
  | Null | Throws => []
  end.

(** The loop; every round that goes on shortens the buffer, so its length
    bounds the number of rounds. *)
Fixpoint drainFrom (fuel : nat) (buffer : list byte) : list value * list byte :=
  match fuel with
  | O => ([], buffer)
  | S fuel' =>
      match nextRound buffer with
      | Stop => ([], buffer)
      | Resync buffer' => drainFrom fuel' buffer'
      | Frame messageData buffer' =>
          let (ms, rest) := drainFrom fuel' buffer' in
          (delivered messageData ++ ms, rest)
      end
  end.

Definition drain (buffer : list byte) : list value * list byte :=
  drainFrom (List.length buffer) buffer.

(** The ['data'] handler: the messages delivered for one chunk and the
    buffer kept for the next. *)
Definition onData (buffer chunk : list byte) : list value * list byte :=
  drain (buffer ++ chunk).

End WithHost.

(** ** Statements about frames *)

(** The buffer with which the loop goes on after a round. *)
Definition bufferAfter (r : round) (buffer : list byte) : list byte :=
  match r with
  | Stop => buffer
  | Resync buffer' => buffer'
  | Frame _ buffer' => buffer'
  end.

(** "Parsing resumes at the next byte". *)
Definition resumesAtNextByte (buffer : list byte) : Prop :=
  bufferAfter (nextRound buffer) buffer = skipn 1 buffer.

(** A frame that is in the buffer as a whole: its first four bytes give its
    own length, within the accepted range. *)
Definition completeFrame (frame : list byte) : Prop :=
  exists totalLength,
    readUInt32BE frame 0 = Some totalLength
    /\ totalLength = N.of_nat (List.length frame)
    /\ (16 <= totalLength <= 16 * 1024 * 1024)%N.

(** A complete frame whose payload would start after its end. *)
Definition invertedOffsets (frame : list byte) : Prop :=
  completeFrame frame
  /\ exists headerLength,
       readUInt32BE frame 4 = Some headerLength
       /\ (N.of_nat (List.length frame) - 4 < 12 + headerLength)%N.

(** A frame whose first four bytes give an acceptable length that is not
    its own. *)
Definition lengthMismatch (frame : list byte) : Prop :=
  exists totalLength,
    readUInt32BE frame 0 = Some totalLength
    /\ (16 <= totalLength <= 16 * 1024 * 1024)%N
    /\ totalLength <> N.of_nat (List.length frame).

(** A buffer of at least 16 bytes that starts with an unacceptable length. *)
Definition lengthOutOfRange (buffer : list byte) : Prop :=
  16 <= List.length buffer
  /\ exists totalLength,
       readUInt32BE buffer 0 = Some totalLength
       /\ (totalLength < 16 \/ 16 * 1024 * 1024 < totalLength)%N.

(** ** Building frames *)

Definition byteOf (n : N) : byte :=
  match Byte.of_N (n mod 256) with
  | Some b => b
  | None => Byte.x00
  end.

Definition uint32BE (n : N) : list byte :=
  [ byteOf (n / 16777216); byteOf (n / 65536); byteOf (n / 256); byteOf n ].

(** A frame with the given declared header length: lengths, prelude
    checksum, headers, payload, message checksum. *)
Definition frameOf (headerLength : N) (headers payload : list byte) : list byte :=
  uint32BE (N.of_nat (16 + List.length headers + List.length payload))
  ++ uint32BE headerLength
  ++ [Byte.x00; Byte.x00; Byte.x00; Byte.x00]
  ++ headers ++ payload
  ++ [Byte.x00; Byte.x00; Byte.x00; Byte.x00].

End Kiro.

(* ====================================================================== *)
(** * Shared quota pool *)
(* ====================================================================== *)

Module Pool.
Import Store.
Local Open Scope Q_scope.

(** A row of [user_shared_quota_pool]; the table declares no CHECK
    constraint on [quota] or [max_quota]. *)
Record pool : Type := mkPool {
  pool_user : string;
  pool_model : string;
  quota : Q;
  max_quota : Q
}.



















Section Removal.
(** [quotaService.getQuotasByCookieId] and
    [quotaService.removeUserSharedQuota] belong to the missing
    [quota.service.js]; they are taken as they are called: the rows
    [(model_name, quota)] of a credential, and the pool table after the
    call.  [None] is a thrown exception. *)
Variable getQuotasByCookieId : string -> option (list (string * Q)).
Variable removeUserSharedQuota :
  list pool -> string -> string -> Q -> option (list pool).



End Removal.

End Pool.

(* ====================================================================== *)
(** * Statements about JSON Schemas *)
(* ====================================================================== *)

Module Schema.
Import JS Adapter.
















End Schema.

(* ====================================================================== *)
(** * Statements about the tool-call round trip *)
(* ====================================================================== *)

Module RoundTrip.
Import JS Adapter Client.


Section WithHost.
Context {H : Host}.






End WithHost.
End RoundTrip.

(* ====================================================================== *)
(** * Sample data *)
(* ====================================================================== *)

Module Samples.
Import JS.

(** ** A host for the examples

    The JSON codec of the runtime, and the identity for the clean-up of image
    text.  A number of the text is taken when its value is an integer, the
    only numbers of [value]; an escaped surrogate that has no partner has no
    UTF-8 form, and the text that holds one is refused. *)

Definition quoteChar : ascii := ascii_of_nat 34.
Definition backslash : ascii := ascii_of_nat 92.
Definition quoteMark : string := String quoteChar EmptyString.

Definition hexDigit (n : nat) : ascii :=
  ascii_of_nat (if Nat.ltb n 10 then 48 + n else 87 + n).

(** QuoteJSONString: the quote, the backslash and the control characters
    are escaped. *)
Definition escapeChar (c : ascii) : string :=
  let n := nat_of_ascii c in
  if Ascii.eqb c quoteChar || Ascii.eqb c backslash
  then String backslash (String c EmptyString)
  else if Nat.eqb n 8 then String backslash "b"
  else if Nat.eqb n 9 then String backslash "t"
  else if Nat.eqb n 10 then String backslash "n"
  else if Nat.eqb n 12 then String backslash "f"
  else if Nat.eqb n 13 then String backslash "r"
  else if Nat.ltb n 32
  then String backslash
         (String "u" (String "0" (String "0"
            (String (hexDigit (n / 16)) (String (hexDigit (n mod 16))
               EmptyString)))))
  else String c EmptyString.

Fixpoint escape (s : string) : string :=
  match s with
  | EmptyString => EmptyString
  | String c r => (escapeChar c ++ escape r)%string
  end.

Definition quoted (s : string) : string :=
  (quoteMark ++ escape s ++ quoteMark)%string.

Fixpoint stringifyValue (v : value) : option string :=
  match v with
  | VUndefined => None
  | VNull => Some "null"
  | VBool true => Some "true"
  | VBool false => Some "false"
  | VNum n =>
      Some (if (2 ^ 1024 <=? Z.abs (nearestNumber n))%Z then "null"
            else numberToString n)
  | VStr s => Some (quoted s)
  | VArr l =>
      Some ("[" ++ String.concat ","
                     ((fix elems (l : list value) : list string :=
                         match l with
                         | [] => []
                         | x :: r =>
                             match stringifyValue x with
                             | Some t => t
                             | None => "null"
                             end :: elems r
                         end) l) ++ "]")%string
  | VObj fs =>
      Some ("{" ++ String.concat ","
                     ((fix members (fs : list (string * value)) : list string :=
                         match fs with
                         | [] => []
                         | (k, x) :: r =>
                             match stringifyValue x with
                             | Some t => (quoted k ++ ":" ++ t)%string :: members r
                             | None => members r
                             end
                         end) fs) ++ "}")%string
  end.

Definition stringify (v : value) : value :=
  match stringifyValue v with
  | Some t => VStr t
  | None => VUndefined
  end.

(** JSON white space: space, tab, line feed and carriage return. *)
Definition isWs (c : ascii) : bool :=
  let n := nat_of_ascii c in
  Nat.eqb n 32 || Nat.eqb n 9 || Nat.eqb n 10 || Nat.eqb n 13.

Fixpoint skipWs (s : string) : string :=
  match s with
  | EmptyString => EmptyString
  | String c r => if isWs c then skipWs r else s
  end.

Definition hexValue (c : ascii) : option Z :=
  let n := Z.of_nat (nat_of_ascii c) in
  if (48 <=? n)%Z && (n <=? 57)%Z then Some (n - 48)%Z
  else if (97 <=? n)%Z && (n <=? 102)%Z then Some (n - 87)%Z
  else if (65 <=? n)%Z && (n <=? 70)%Z then Some (n - 55)%Z
  else None.

(** The four hexadecimal digits of a [\u] escape, and what follows them. *)
Definition hex4 (s : string) : option (Z * string) :=
  match s with
  | String a (String b (String c (String d rest))) =>
      match hexValue a, hexValue b, hexValue c, hexValue d with
      | Some x, Some y, Some z, Some w =>
          Some ((((x * 16 + y) * 16 + z) * 16 + w)%Z, rest)
      | _, _, _, _ => None
      end
  | _ => None
  end.

(** The UTF-8 bytes of a code point. *)
Definition utf8 (cp : Z) : string :=
  let byte (n : Z) := ascii_of_N (Z.to_N n) in
  if (cp <? 128)%Z then String (byte cp) EmptyString
  else if (cp <? 2048)%Z
  then String (byte (192 + cp / 64)%Z)
         (String (byte (128 + cp mod 64)%Z) EmptyString)
  else if (cp <? 65536)%Z
  then String (byte (224 + cp / 4096)%Z)
         (String (byte (128 + (cp / 64) mod 64)%Z)
            (String (byte (128 + cp mod 64)%Z) EmptyString))
  else String (byte (240 + cp / 262144)%Z)
         (String (byte (128 + (cp / 4096) mod 64)%Z)
            (String (byte (128 + (cp / 64) mod 64)%Z)
               (String (byte (128 + cp mod 64)%Z) EmptyString))).

Definition simpleEscape (d : ascii) : option ascii :=
  if Ascii.eqb d quoteChar || Ascii.eqb d backslash || Ascii.eqb d "/"
  then Some d
  else if Ascii.eqb d "b" then Some (ascii_of_nat 8)
  else if Ascii.eqb d "f" then Some (ascii_of_nat 12)
  else if Ascii.eqb d "n" then Some (ascii_of_nat 10)
  else if Ascii.eqb d "r" then Some (ascii_of_nat 13)
  else if Ascii.eqb d "t" then Some (ascii_of_nat 9)
  else None.

(** The code point of a [\u] escape whose [u] has just been read: one
    escape, or the two of a surrogate pair. *)
Definition escapedCodePoint (s : string) : option (Z * string) :=
  match hex4 s with
  | Some (hi, rest) =>
      if (55296 <=? hi)%Z && (hi <=? 56319)%Z then
        match rest with
        | String b (String "u" rest') =>
            if Ascii.eqb b backslash then
              match hex4 rest' with
              | Some (lo, rest'') =>
                  if (56320 <=? lo)%Z && (lo <=? 57343)%Z
                  then Some ((65536 + (hi - 55296) * 1024 + (lo - 56320))%Z,
                             rest'')
                  else None
              | None => None
              end
            else None
        | _ => None
        end
      else if (56320 <=? hi)%Z && (hi <=? 57343)%Z then None
      else Some (hi, rest)
  | None => None
  end.

(** The characters of a string literal after its opening quote. *)
Fixpoint parseStringBody (fuel : nat) (s : string) : option (string * string) :=
  match fuel with
  | O => None
  | S fuel' =>
      match s with
      | EmptyString => None
      | String c r =>
          if Ascii.eqb c quoteChar then Some (EmptyString, r)
          else if Nat.ltb (nat_of_ascii c) 32 then None
          else if Ascii.eqb c backslash then
            match r with
            | EmptyString => None
            | String d r' =>
                match simpleEscape d with
                | Some e =>
                    match parseStringBody fuel' r' with
                    | Some (t, rest) => Some (String e t, rest)
                    | None => None
                    end
                | None =>
                    if Ascii.eqb d "u" then
                      match escapedCodePoint r' with
                      | Some (cp, r'') =>
                          match parseStringBody fuel' r'' with
                          | Some (t, rest) => Some ((utf8 cp ++ t)%string, rest)
                          | None => None
                          end
                      | None => None
                      end
                    else None
                end
            end
          else
            match parseStringBody fuel' r with
            | Some (t, rest) => Some (String c t, rest)
            | None => None
            end
      end
  end.

Definition isDigit (c : ascii) : bool :=
  let n := nat_of_ascii c in Nat.leb 48 n && Nat.leb n 57.

Fixpoint takeDigits (s : string) : string * string :=
  match s with
  | EmptyString => (EmptyString, EmptyString)
  | String c r =>
      if isDigit c
      then let (d, rest) := takeDigits r in (String c d, rest)
      else (EmptyString, s)
  end.

Definition digitsValue (digits : string) : Z :=
  match NilZero.int_of_string digits with
  | Some i => Z.of_int i
  | None => 0%Z
  end.

(** A number of the JSON grammar: an optional sign, an integer part with no
    zero in front, an optional fraction and an optional exponent. *)
Definition parseNumber (s : string) : option (value * string) :=
  let (negative, body) :=
    match s with
    | String "-" r => (true, r)
    | _ => (false, s)
    end in
  let (whole, afterWhole) := takeDigits body in
  let wellFormed :=
    match whole with
    | EmptyString => false
    | String "0" (String _ _) => false
    | _ => true
    end in
  if negb wellFormed then None
  else
    let fraction :=
      match afterWhole with
      | String "." r =>
          let (digits, rest) := takeDigits r in
          match digits with
          | EmptyString => None
          | _ => Some (digits, rest)
          end
      | _ => Some (EmptyString, afterWhole)
      end in
    match fraction with
    | None => None
    | Some (digits, afterFraction) =>
        let exponent :=
          match afterFraction with
          | String e r =>
              if Ascii.eqb e "e" || Ascii.eqb e "E" then
                let (minus, r') :=
                  match r with
                  | String "-" r' => (true, r')
                  | String "+" r' => (false, r')
                  | _ => (false, r)
                  end in
                let (power, rest) := takeDigits r' in
                match power with
                | EmptyString => None
                | _ => Some (if minus then (- digitsValue power)%Z
                             else digitsValue power, rest)
                end
              else Some (0%Z, afterFraction)
          | EmptyString => Some (0%Z, afterFraction)
          end in
        match exponent with
        | None => None
        | Some (power, rest) =>
            let mantissa := digitsValue (whole ++ digits) in
            let scale := (power - Z.of_nat (String.length digits))%Z in
            let signed (n : Z) := if negative then (- n)%Z else n in
            if (mantissa =? 0)%Z then Some (VNum 0, rest)
            else if (0 <=? scale)%Z
            then Some (VNum (nearestNumber (signed (mantissa * 10 ^ scale)%Z)),
                       rest)
            else if (mantissa mod 10 ^ (- scale) =? 0)%Z
            then Some (VNum (nearestNumber
                               (signed (mantissa / 10 ^ (- scale))%Z)), rest)
            else None
        end
    end.

(** An entry of an object of the text: a name met again takes the place of
    the first one, with the later value. *)
Fixpoint define (k : string) (v : value) (fs : list (string * value))
  : list (string * value) :=
  match fs with
  | [] => [(k, v)]
  | (k', v') :: r =>
      if String.eqb k k' then (k, v) :: r else (k', v') :: define k v r
  end.

Fixpoint parseValue (fuel : nat) (s : string) : option (value * string) :=
  match fuel with
  | O => None
  | S fuel' =>
      let s := skipWs s in
      if String.prefix "null" s then Some (VNull, Adapter.dropString 4 s)
      else if String.prefix "true" s then Some (VBool true, Adapter.dropString 4 s)
      else if String.prefix "false" s then Some (VBool false, Adapter.dropString 5 s)
      else
        match s with
        | EmptyString => None
        | String c r =>
            if Ascii.eqb c quoteChar then
              match parseStringBody (String.length s) r with
              | Some (t, rest) => Some (VStr t, rest)
              | None => None
              end
            else if Ascii.eqb c "[" then
              match skipWs r with
              | String "]" rest => Some (VArr [], rest)
              | r' =>
                  match parseElements fuel' r' with
                  | Some (l, rest) => Some (VArr l, rest)
                  | None => None
                  end
              end
            else if Ascii.eqb c "{" then
              match skipWs r with
              | String "}" rest => Some (VObj [], rest)
              | r' =>
                  match parseMembers fuel' r' with
                  | Some (fs, rest) =>
                      Some (VObj (fold_left (fun o kv => define (fst kv) (snd kv) o)
                                            fs []), rest)
                  | None => None
                  end
              end
            else parseNumber s
        end
  end
with parseElements (fuel : nat) (s : string) : option (list value * string) :=
  match fuel with
  | O => None
  | S fuel' =>
      match parseValue fuel' s with
      | Some (v, rest) =>
          match skipWs rest with
          | String "," rest' =>
              match parseElements fuel' rest' with
              | Some (l, rest'') => Some (v :: l, rest'')
              | None => None
              end
          | String "]" rest' => Some ([v], rest')
          | _ => None
          end
      | None => None
      end
  end
with parseMembers (fuel : nat) (s : string)
  : option (list (string * value) * string) :=
  match fuel with
  | O => None
  | S fuel' =>
      match skipWs s with
      | String c r =>
          if Ascii.eqb c quoteChar then
            match parseStringBody (String.length s) r with
            | Some (k, afterKey) =>
                match skipWs afterKey with
                | String ":" afterColon =>
                    match parseValue fuel' afterColon with
                    | Some (v, rest) =>
                        match skipWs rest with
                        | String "," rest' =>
                            match parseMembers fuel' rest' with
                            | Some (fs, rest'') => Some ((k, v) :: fs, rest'')
                            | None => None
                            end
                        | String "}" rest' => Some ([(k, v)], rest')
                        | _ => None
                        end
                    | None => None
                    end
                | _ => None
                end
            | None => None
            end
          else None
      | EmptyString => None
      end
  end.

Definition parse (s : string) : option value :=
  match parseValue (2 * String.length s + 2) s with
  | Some (v, rest) => if String.eqb (skipWs rest) "" then Some v else None
  | None => None
  end.

Definition host : Host :=
  {| JSON_parse := parse;
     JSON_stringify := stringify;
     stripImageMarkdown := fun s => s |}.

Definition textOf (v : value) : string :=
  match v with
  | VStr s => s
  | _ => ""
  end.

(** ** A conversation with a tool call *)

Definition weatherArguments : value :=
  VObj [("city", VStr "Paris"); ("days", VNum 3)].

Definition weatherCall : value :=
  VObj [("id", VStr "call_1");
        ("type", VStr "function");
        ("function",
         VObj [("name", VStr "get_weather");
               ("arguments", VStr (textOf (stringify weatherArguments)))])].

(** The assistant turn carries no text at all. *)
Definition assistantCalling : value :=
  VObj [("role", VStr "assistant");
        ("content", VNull);
        ("tool_calls", VArr [weatherCall])].

Definition conversation : list value :=
  [ VObj [("role", VStr "system"); ("content", VStr "Be brief.")];
    VObj [("role", VStr "user"); ("content", VStr "Weather in Paris?")];
    assistantCalling;
    VObj [("role", VStr "tool"); ("tool_call_id", VStr "call_1");
          ("content", VStr "sunny")] ].

Definition conversationContents : list Adapter.turn :=
  Eval vm_compute in
    match @Adapter.requestContents host conversation "gemini-2.5-pro" with
    | Some c => c
    | None => []
    end.

(** ** A store with dedicated and shared credentials *)

Definition credential (cookie user : string) (shared : nat) (expires : Z)
  : Store.account :=
  Store.mkAccount cookie user shared 1 0 "access" ("refresh-" ++ cookie)
    expires "project".

(** Alice owns two dedicated credentials, the first with a token that is
    out of date; Bob and Carol share one each. *)
Definition accountsTable : list Store.account :=
  [ credential "alice-1" "alice" 0 0;
    credential "alice-2" "alice" 0 9000000;
    credential "bob-1" "bob" 1 9000000;
    credential "carol-1" "carol" 1 9000000 ].

Definition initialStore : Selector.store := Selector.mkStore accountsTable 0.

(** Every credential has quota left, each model shares its quota with
    itself only, every pool holds one unit, and no token can be refreshed. *)
Definition sampleWorld : Selector.world :=
  Selector.mkWorld
    (fun _ _ => true)
    (fun model => [model])
    (fun _ _ => Some (1 # 1)%Q)
    (fun _ => Selector.RefreshError)
    1000000%Z
    (fun _ => 0).

(** Alice's one dedicated credential holds a token that is out of date. *)
Definition staleStore : Selector.store :=
  Selector.mkStore
    [ credential "alice-1" "alice" 0 0;
      credential "bob-1" "bob" 1 9000000 ] 0.

Definition pickedOf (r : Selector.selection) : Store.account :=
  match r with
  | Selector.Picked a _ => a
  | Selector.Failed _ _ => credential "" "" 0 0
  end.

Definition storeOf (r : Selector.selection) : Selector.store :=
  match r with
  | Selector.Picked _ st => st
  | Selector.Failed _ st => st
  end.

Definition dedicatedFirstSelection : Selector.selection :=
  Eval vm_compute in
    Selector.getAvailableAccount sampleWorld initialStore "alice"
      "gemini-2.5-pro" 0 [].

Definition sharedFirstSelection : Selector.selection :=
  Eval vm_compute in
    Selector.getAvailableAccount sampleWorld initialStore "alice"
      "gemini-2.5-pro" 1 [].

(** ** Shared pools *)










(** ** Binary frames *)

Definition greeting : value := VObj [("content", VStr "Hello")].

Definition greetingFrame : list byte :=
  Kiro.frameOf 0 [] (list_byte_of_string (textOf (stringify greeting))).

(** A frame that declares 200 bytes of headers and has none. *)
Definition brokenFrame : list byte :=
  Kiro.frameOf 200 [] (list_byte_of_string "oops").

(** A frame of 20 bytes that declares 30. *)
Definition truncatedFrame : list byte :=
  Kiro.uint32BE 30 ++ skipn 4 (Kiro.frameOf 0 [] (list_byte_of_string "oops")).

(** ** Two logical requests *)

Definition twoCredentials : Selector.store :=
  Selector.mkStore
    [ credential "alice-2" "alice" 0 9000000;
      credential "bob-1" "bob" 1 9000000 ] 0.

Definition denied : string :=
  "PERMISSION_DENIED: The caller does not have permission".

(** The first credential is refused for lack of permission, then rate
    limited; its replacement is refused on each of the three endpoints. *)
Definition refusedTwice : list Client.reply :=
  [ Client.Response 403 denied [];
    Client.Response 429 "Too Many Requests" [];
    Client.Response 403 "Forbidden" [];
    Client.Response 403 "Forbidden" [];
    Client.Response 403 "Forbidden" [] ].

Definition refusedTwiceRun : Client.run :=
  Eval vm_compute in
    @Client.generateResponse host sampleWorld 3 "alice" "gemini-2.5-pro" 0
      refusedTwice twoCredentials None [] 0 0 None.

(** A 400 reply with a quota marker, then a success. *)
Definition quotaThenSuccess : list Client.reply :=
  [ Client.Response 400 "quota exceeded for this project" [];
    Client.Response 200 "" [] ].

Definition quotaThenSuccessRun : Client.run :=
  Eval vm_compute in
    @Client.generateResponse host sampleWorld 3 "alice" "gemini-2.5-pro" 0
      quotaThenSuccess twoCredentials None [] 0 0 None.

End Samples.

(* ====================================================================== *)
(** * Inbound: reassembly of the text-frame stream from chunks *)
(* ====================================================================== *)

Module Chunks.
Import JS Client.

(** [s.split('\n')]: the piece before the first line feed and the pieces
    after it. *)
Fixpoint splitFrom (s : string) : string * list string :=
  match s with
  | EmptyString => (EmptyString, [])
  | String c r =>
      let (piece, pieces) := splitFrom r in
      if Nat.eqb (nat_of_ascii c) 10
      then (EmptyString, piece :: pieces)
      else (String c piece, pieces)
  end.

Definition split (s : string) : list string :=
  let (piece, pieces) := splitFrom s in piece :: pieces.

Fixpoint hasLineFeed (s : string) : bool :=
  match s with
  | EmptyString => false
  | String c r => Nat.eqb (nat_of_ascii c) 10 || hasLineFeed r
  end.

(** The first piece gets the character in front. *)
Definition consHead (c : ascii) (pieces : list string) : list string :=
  match pieces with
  | piece :: r => String c piece :: r
  | [] => []
  end.

Section Stream.
Context {H : Host}.

(** The state of the read loop between two chunks: what the reader has sent
    and collected, and the unfinished last line. *)
Record loop : Type := mkLoop { rd : reader; buffer : string }.

(** One round of [while (true)]: [buffer += chunk], the split, the
    [lines.pop() || ''] and the loop over the lines. *)
Definition readChunk (st : loop) (chunk : string) : loop :=
  let lines := split (buffer st ++ chunk) in
  mkLoop (fold_left handleLine (removelast lines) (rd st)) (last lines "").

(** The events of a response whose body arrives in the given chunks; what
    is left in the buffer when the body ends is not looked at. *)
Definition responseEvents (chunks : list string) : list event :=
  sent (rd (fold_left readChunk chunks (mkLoop (mkReader [] []) ""))).

End Stream.

(** An event that carries something: text with a character that is not
    white space, a tool-call batch with a call in it. *)
Definition carriesContent (ev : event) : Prop :=
  match ev with
  | EvText content => trim content <> ""
  | EvToolCalls tool_calls => tool_calls <> []
  | _ => True
  end.

End Chunks.

(* ====================================================================== *)
(** * Inbound: the messages of the binary stream *)
(* ====================================================================== *)

Module KiroStream.
Import JS Kiro.

(** What [processMessage] hands to [callback], and its call of
    [logConsumptionAndUpdateBalance]. *)
Inductive kiroEvent : Type :=
| KText (content : value)
| KToolCallStart (index : nat) (id name : value)
| KToolCallDelta (tool_call_index : nat) (tool_call_id delta : value)
| KToolCalls (id name arguments : value)
| KUsage (creditUsed : Z).

(** [toolCallIndexMap], in insertion order, [indexCounter.value], and the
    number of identifiers drawn from [crypto.randomUUID]. *)
Record indexState : Type := mkIndexState {
  toolCallIndexMap : list (value * nat);
  indexCounter : nat;
  drawn : nat
}.

(** [toolCallIndexMap.get(id)] for an id read from another message. *)
Definition getIndex (m : list (value * nat)) (id : value) : option nat :=
  match find (fun kv => strictEq (fst kv) id) m with
  | Some kv => Some (snd kv)
  | None => None
  end.

Section WithHost.
Context {H : Host}.
(** [crypto.randomUUID()] at the [k]-th draw. *)
Variable randomUUID : nat -> string.
Variable contextInfo : value.

(** [processMessage(message, callback, requestId, contextInfo,
    toolCallIndexMap, indexCounter)]; [None] is the TypeError of reading a
    property of [undefined] or [null]. *)
Definition processMessage (st : indexState) (message : value)
  : option (indexState * list kiroEvent) :=
  let* content := prop "content" message in
  let text := if truthy content then [KText content] else [] in
  let name := optprop "name" message in
  let toolUseId := optprop "toolUseId" message in
  (* the index found or assigned by the first branch, if it ran *)
  let '(st1, assigned, started) :=
    if truthy name && truthy toolUseId then
      match getIndex (toolCallIndexMap st) toolUseId with
      | Some toolCallIndex =>
          (st, Some toolCallIndex,
           [KToolCallStart toolCallIndex toolUseId name])
      | None =>
          let toolCallIndex := indexCounter st in
          (mkIndexState (toolCallIndexMap st ++ [(toolUseId, toolCallIndex)])
                        (S (indexCounter st)) (drawn st),
           Some toolCallIndex,
           [KToolCallStart toolCallIndex toolUseId name])
      end
    else (st, None, []) in
  let input := optprop "input" message in
  let known :=
    match assigned with
    | Some toolCallIndex => Some toolCallIndex
    | None => getIndex (toolCallIndexMap st1) toolUseId
    end in
  if truthy input && truthy toolUseId
     && match known with None => true | Some _ => false end
  then Some (st1, text ++ started)        (* [return] *)
  else
    let delta :=
      if truthy input && truthy toolUseId then
        match known with
        | Some toolCallIndex =>
            [KToolCallDelta toolCallIndex toolUseId
               (match input with
                | VStr _ => input
                | _ => JSON_stringify input
                end)]
        | None => []
        end
      else [] in
    let codeQuery := optprop "codeQuery" message in
    let '(st2, query) :=
      if truthy codeQuery then
        let codeQueryId := optprop "codeQueryId" codeQuery in
        let languageName :=
          optprop "languageName" (optprop "programmingLanguage" codeQuery) in
        let name := if truthy languageName then languageName
                    else VStr "unknown" in
        if truthy codeQueryId
        then (st1, [KToolCalls codeQueryId name (JSON_stringify codeQuery)])
        else (mkIndexState (toolCallIndexMap st1) (indexCounter st1)
                           (S (drawn st1)),
              [KToolCalls (VStr (randomUUID (drawn st1))) name
                          (JSON_stringify codeQuery)])
      else (st1, []) in
    let usage :=
      match optprop "usage" message with
      | VNum n => if negb (Z.eqb n 0) && truthy contextInfo
                  then [KUsage n] else []
      | _ => []
      end in
    Some (st2, text ++ started ++ delta ++ query ++ usage).

(** The messages of one chunk, in order; an exception of [processMessage]
    is caught with the one of [parseSingleMessage]. *)
Fixpoint processMessages (st : indexState) (messages : list value)
  : indexState * list kiroEvent :=
  match messages with
  | [] => (st, [])
  | message :: r =>
      match processMessage st message with
      | Some (st1, evs) =>
          let (st2, more) := processMessages st1 r in (st2, evs ++ more)
      | None => processMessages st r
      end
  end.

(** [handleStreamResponse]: the state kept between two ['data'] events and
    everything sent so far. *)
Record stream : Type := mkStream {
  pending : list byte;
  indices : indexState;
  emitted : list kiroEvent
}.

Definition onChunk (s : stream) (chunk : list byte) : stream :=
  let (messages, rest) := onData (pending s) chunk in
  let (st, evs) := processMessages (indices s) messages in
  mkStream rest st (emitted s ++ evs).

Definition handleStreamResponse (chunks : list (list byte)) : stream :=
  fold_left onChunk chunks (mkStream [] (mkIndexState [] 0 0) []).

(** Everything sent for the messages of one response, in order. *)
Definition eventsOf (messages : list value) : list kiroEvent :=
  snd (processMessages (mkIndexState [] 0 0) messages).

End WithHost.

(** The index and the tool-call id that an event carries. *)
Definition indexed (ev : kiroEvent) : option (nat * value) :=
  match ev with
  | KToolCallStart index id _ => Some (index, id)
  | KToolCallDelta tool_call_index tool_call_id _ =>
      Some (tool_call_index, tool_call_id)
  | _ => None
  end.

(** The numbering kept by [toolCallIndexMap] and [indexCounter] along a
    response: the indices of the map are 0, 1, 2, ... in insertion order,
    two keys that are the same value have the same index, and the indices
    sent are those of the map. *)
Definition numbered (st : indexState) (evs : list kiroEvent) : Prop :=
  map snd (toolCallIndexMap st) = seq 0 (indexCounter st)
  /\ (forall k1 i1 k2 i2,
        In (k1, i1) (toolCallIndexMap st) ->
        In (k2, i2) (toolCallIndexMap st) ->
        strictEq k1 k2 = true -> i1 = i2)
  /\ (forall ev i a,
        In ev evs -> indexed ev = Some (i, a) ->
        In (a, i) (toolCallIndexMap st))
  /\ (forall a i,
        In (a, i) (toolCallIndexMap st) ->
        exists ev, In ev evs /\ indexed ev = Some (i, a)).

(** The indices come in order: before an event that carries an index,
    every smaller index has been sent. *)
Definition inOrder (evs : list kiroEvent) : Prop :=
  forall pre ev post j b,
    evs = pre ++ ev :: post ->
    indexed ev = Some (j, b) ->
    forall k, k < j ->
      exists ev' c, In ev' pre /\ indexed ev' = Some (k, c).

(** ** Frames on the wire *)

(** A frame as the parser reads it: total length, header length, four bytes
    of prelude checksum, headers, payload, four bytes of message checksum. *)
Record frame : Type := mkFrame {
  preludeCrc : list byte;
  headers : list byte;
  payload : list byte;
  messageCrc : list byte
}.

Definition encode (f : frame) : list byte :=
  uint32BE (N.of_nat (16 + List.length (headers f) + List.length (payload f)))
  ++ uint32BE (N.of_nat (List.length (headers f)))
  ++ preludeCrc f ++ headers f ++ payload f ++ messageCrc f.

(** The lengths fit and the payload is the JSON text of a truthy value. *)
Definition carries {H : Host} (f : frame) (message : value) : Prop :=
  List.length (preludeCrc f) = 4
  /\ List.length (messageCrc f) = 4
  /\ 16 + List.length (headers f) + List.length (payload f) <= 16 * 1024 * 1024
  /\ JSON_parse (string_of_list_byte (payload f)) = Some message
  /\ payload f <> []
  /\ truthy message = true.

End KiroStream.

(* ====================================================================== *)
(** * Statements about the contents sent upstream *)
(* ====================================================================== *)

Module Contents.
Import JS Adapter.

(** A part that calls a tool under the given id: the test of the inner
    loop of [handleToolCall]. *)
Definition answers (tool_call_id : value) (part : value) : bool :=
  truthy (optprop "functionCall" part)
  && strictEq (optprop "id" (optprop "functionCall" part)) tool_call_id.

(** The part that [handleToolCall] builds once the name is known. *)
Definition functionResponseOf (message name : value) : value :=
  VObj [("functionResponse",
         VObj [("id", optprop "tool_call_id" message);
               ("name", name);
               ("response", VObj [("output", optprop "content" message)])])].

(** A part that returns a tool result with an id. *)
Definition returnsResult (part : value) : bool :=
  truthy (optprop "functionResponse" part)
  && truthy (optprop "id" (optprop "functionResponse" part)).

(** A turn as the upstream takes it: from the user or the model, with at
    least one part. *)
Definition wellFormedTurn (t : turn) : Prop :=
  (role t = "user" \/ role t = "model") /\ parts t <> [].

(** [\w+] from the first to the last character. *)
Fixpoint wordChars (s : string) : bool :=
  match s with
  | EmptyString => true
  | String c r => isWordChar c && wordChars r
  end.

(** The character occurs in the text. *)
Fixpoint hasChar (c0 : ascii) (w : string) : bool :=
  match w with
  | EmptyString => false
  | String c r => Ascii.eqb c c0 || hasChar c0 r
  end.

Definition dataUrl (format data : string) : string :=
  ("data:image/" ++ format ++ ";base64," ++ data)%string.

Definition inlineData (format data : string) : value :=
  VObj [("inlineData",
         VObj [("mimeType", VStr ("image/" ++ format)%string);
               ("data", VStr data)])].

End Contents.

(* ====================================================================== *)
(** * Protocol adapter, outbound: the request bodies *)
(* ====================================================================== *)

Module Request.
Import JS Adapter.

(** What a builder of a request body throws: an [Error] with
    [statusCode = 400], an [Error] without a status, or the TypeError of the
    runtime. *)
Inductive thrown : Type :=
| BadRequest (message : string)
| Unsupported (message : string)
| TypeError.

Inductive result (A : Type) : Type :=
| Done (a : A)
| Fails (e : thrown).
Arguments Done {A} a.
Arguments Fails {A} e.

Definition andThen {A B : Type} (m : result A) (k : A -> result B) : result B :=
  match m with
  | Done a => k a
  | Fails e => Fails e
  end.

Notation "'let+' x ':=' m 'in' k" := (andThen m (fun x => k))
  (at level 10, x name, m at level 100, k at level 200).

(** An exception of the converter is a TypeError. *)
Definition orTypeError {A : Type} (m : option A) : result A :=
  match m with
  | Some a => Done a
  | None => Fails TypeError
  end.

(** [a ?? b], the right-hand side being evaluated only when needed. *)
Definition nullish (a : value) (b : result value) : result value :=
  match a with
  | VUndefined | VNull => b
  | _ => Done a
  end.

(** The numeric reading of a string by the runtime; [None] is NaN. *)
Class Numeric : Type := { StringToNumber : string -> option Z }.

Section WithNumbers.
Context {N : Numeric}.

(** ToNumber; arrays and objects go through their string. *)
Definition toNumber (v : value) : option Z :=
  match v with
  | VUndefined => None
  | VNull => Some 0%Z
  | VBool b => Some (if b then 1 else 0)%Z
  | VNum n => Some n
  | VStr s => StringToNumber s
  | VArr _ | VObj _ => StringToNumber (toString v)
  end.

(** [v < n] and [v > n] for a number [n]; a comparison with NaN is false. *)
Definition lessThan (v : value) (n : Z) : bool :=
  match toNumber v with
  | Some x => Z.ltb x n
  | None => false
  end.

Definition greaterThan (v : value) (n : Z) : bool :=
  match toNumber v with
  | Some x => Z.ltb n x
  | None => false
  end.

(** ** [generateGenerationConfig] *)

Definition stopSequences : value :=
  VArr [VStr "<|user|>"; VStr "<|bot|>"; VStr "<|context_request|>";
        VStr "<|endoftext|>"; VStr "<|end_of_turn|>"].

(** [config.defaults.key] *)
Definition configDefault (config : value) (key : string) : result value :=
  orTypeError (let* defaults := prop "defaults" config in prop key defaults).

(** [parameters.max_tokens ?? config.defaults.max_tokens] *)
Definition requestedMaxTokens (config parameters : value) : result value :=
  let+ max_tokens := orTypeError (prop "max_tokens" parameters) in
  nullish max_tokens (configDefault config "max_tokens").

(** The object is built once here, in the order in which the source adds
    its properties; [topP], which the source adds and then deletes for a
    thinking [claude] model, is left out for that model. *)
Definition generateGenerationConfig (config parameters : value)
    (enableThinking : bool) (actualModelName : string) (isNonChatModel : bool)
  : result value :=
  let+ maxOutputTokens0 := requestedMaxTokens config parameters in
  let maxOutputTokens :=
    if enableThinking && lessThan maxOutputTokens0 2048
    then VNum 2048 else maxOutputTokens0 in
  let+ temperature :=
    nullish (optprop "temperature" parameters)
            (configDefault config "temperature") in
  let basic := [("temperature", temperature);
                ("candidateCount", VNum 1);
                ("maxOutputTokens", maxOutputTokens)] in
  if isNonChatModel then Done (VObj basic)
  else
    let+ topP := nullish (optprop "top_p" parameters)
                         (configDefault config "top_p") in
    let+ topK := nullish (optprop "top_k" parameters)
                         (configDefault config "top_k") in
    let thinkingConfig :=
      if negb (String.eqb actualModelName "gemini-2.5-flash-image")
      then [("thinkingConfig",
             VObj [("includeThoughts", VBool enableThinking);
                   ("thinkingBudget",
                    VNum (if enableThinking then 1024 else 0))])]
      else [] in
    let standard :=
      basic
      ++ (if enableThinking && includes actualModelName "claude"
          then [] else [("topP", topP)])
      ++ [("topK", topK); ("stopSequences", stopSequences)]
      ++ thinkingConfig in
    let image_config := optprop "image_config" parameters in
    if endsWith actualModelName "-image" && truthy image_config then
      let aspect_ratio := optprop "aspect_ratio" image_config in
      let image_size := optprop "image_size" image_config in
      let aspectRatio :=
        if truthy aspect_ratio then [("aspectRatio", aspect_ratio)] else [] in
      if truthy image_size then
        if String.eqb actualModelName "gemini-2.5-pro-image"
        then Fails (BadRequest "gemini-2.5-pro-image 不支持 imageSize 参数")
        else Done (VObj (standard
                         ++ [("imageConfig",
                              VObj (aspectRatio ++ [("imageSize", image_size)]))]))
      else Done (VObj (standard ++ [("imageConfig", VObj aspectRatio)]))
    else Done (VObj standard).

(** ** [generateRequestBody] *)

(** The values of [generateProjectId()], [generateRequestId()] and
    [generateSessionId()] for one request. *)
Record generated : Type := mkGenerated {
  projectId : string;
  requestId : string;
  sessionId : string
}.

Definition enablesThinking (modelName : string) : bool :=
  endsWith modelName "-thinking"
  || String.eqb modelName "gemini-2.5-pro"
  || startsWith modelName "gemini-3-pro-"
  || String.eqb modelName "rev19-uic3-1p"
  || String.eqb modelName "gpt-oss-120b-medium".

(** [lastMessage && lastMessage.role === 'tool'] *)
Definition isLastMessageTool (openaiMessages : list value) : bool :=
  let lastMessage := last openaiMessages VUndefined in
  truthy lastMessage && isStr (optprop "role" lastMessage) "tool".

(** [s.slice(0, -9)] *)
Definition dropLast9 (s : string) : string :=
  String.substring 0 (String.length s - 9) s.

Definition baseModelNameOf (actualModelName : string) : string :=
  if endsWith actualModelName "-thinking"
  then dropLast9 actualModelName else actualModelName.

(** [delete generationConfig.thinkingConfig.thinkingBudget], when
    [generationConfig.thinkingConfig] is there. *)
Definition deleteThinkingBudget (generationConfig : value) : value :=
  match generationConfig with
  | VObj fields =>
      VObj (map (fun kv =>
                   if String.eqb (fst kv) "thinkingConfig" then
                     match snd kv with
                     | VObj inner =>
                         (fst kv,
                          VObj (filter
                                  (fun e => negb (String.eqb (fst e)
                                                    "thinkingBudget"))
                                  inner))
                     | _ => kv
                     end
                   else kv) fields)
  | _ => generationConfig
  end.

Definition turnValue (t : turn) : value :=
  VObj [("role", VStr (role t)); ("parts", VArr (parts t))].

(** The text of one system message. *)
Definition systemText (msg : value) : option string :=
  match optprop "content" msg with
  | VStr s => Some s
  | VArr items => let* ts := textItems items in Some (joinEmpty ts)
  | _ => Some ""
  end.

Definition lineFeed : string := String (ascii_of_nat 10) EmptyString.

Definition systemInstructionText (config : value) (openaiMessages : list value)
  : option value :=
  let* systemMessages :=
    filterM (fun msg => let* r := prop "role" msg in Some (isStr r "system"))
            openaiMessages in
  match systemMessages with
  | [] =>
      let* systemInstruction := prop "systemInstruction" config in
      Some (if truthy systemInstruction then systemInstruction else VStr "")
  | _ =>
      let* texts := mapM systemText systemMessages in
      Some (VStr (String.concat (lineFeed ++ lineFeed) texts))
  end.

(** [openaiTools && openaiTools.length > 0] *)
Definition hasTools (openaiTools : value) : bool :=
  match openaiTools with
  | VArr l => Nat.ltb 0 (List.length l)
  | VStr s => negb (String.eqb s "")
  | VObj fields => greaterThan (lookup "length" fields) 0
  | _ => false
  end.

Context {H : Host}.

Definition generateRequestBody (config : value) (ids : generated)
    (openaiMessages : list value) (modelName : string)
    (parameters openaiTools account : value) : result value :=
  let actualModelName :=
    if String.eqb modelName "gemini-2.5-flash-thinking"
    then "gemini-2.5-flash" else modelName in
  let lastIsTool := isLastMessageTool openaiMessages in
  let enableThinking := if lastIsTool then false else enablesThinking modelName in
  let baseModelName := baseModelNameOf actualModelName in
  if startsWith baseModelName "chat_" then
    Fails (Unsupported ("Unsupported completion model: " ++ baseModelName))
  else
    let+ generationConfig0 :=
      generateGenerationConfig config parameters enableThinking
        baseModelName false in
    let generationConfig :=
      if lastIsTool && truthy (optprop "thinkingConfig" generationConfig0)
      then deleteThinkingBudget generationConfig0 else generationConfig0 in
    let+ contents :=
      orTypeError (openaiMessageToAntigravity openaiMessages false
                     baseModelName) in
    let project :=
      if truthy account then
        match optprop "project_id_0" account with
        | VUndefined | VNull => VStr (projectId ids)
        | project_id_0 => project_id_0
        end
      else VStr (projectId ids) in
    let+ text := orTypeError (systemInstructionText config openaiMessages) in
    let request :=
      [("contents", VArr (map turnValue contents));
       ("generationConfig", generationConfig);
       ("sessionId", VStr (sessionId ids));
       ("systemInstruction",
        VObj [("role", VStr "user");
              ("parts", VArr [VObj [("text", text)]])])] in
    let+ tools :=
      if hasTools openaiTools then
        let+ converted :=
          orTypeError (convertOpenAIToolsToAntigravity openaiTools) in
        Done [("tools", VArr converted);
              ("toolConfig",
               VObj [("functionCallingConfig",
                      VObj [("mode", VStr "VALIDATED")])])]
      else Done [] in
    Done (VObj [("project", project);
                ("requestId", VStr (requestId ids));
                ("request", VObj (request ++ tools));
                ("model", VStr actualModelName);
                ("userAgent", VStr "antigravity");
                ("requestType", VStr "agent")]).

(** ** [generateImageRequestBody] *)

Definition validAspectRatios : list string :=
  ["1:1"; "2:3"; "3:2"; "3:4"; "4:3"; "9:16"; "16:9"; "21:9"].

Definition validImageSizes : list string := ["1K"; "2K"; "4K"].

(** [list.includes(v)] for a list of strings. *)
Definition listed (v : value) (l : list string) : bool :=
  match v with
  | VStr s => existsb (String.eqb s) l
  | _ => false
  end.

(** The parts pushed by [parts.push(...images)], when the test
    [images && images.length > 0] lets it run: the elements of an array, the
    characters of a string; anything else with a positive [length] cannot
    be spread. *)
Definition imageParts (images : value) : result (list value) :=
  match images with
  | VArr l => Done l
  | VStr s => Done (map VStr (characters s))
  | VObj fields =>
      if greaterThan (lookup "length" fields) 0 then Fails TypeError
      else Done []
  | _ => Done []
  end.

(** [imageConfig && Object.keys(imageConfig).length > 0] *)
Definition hasKeys (imageConfig : value) : bool :=
  match imageConfig with
  | VObj fields => Nat.ltb 0 (List.length fields)
  | VArr l => Nat.ltb 0 (List.length l)
  | VStr s => negb (String.eqb s "")
  | _ => false
  end.

Definition generateImageRequestBody (ids : generated) (prompt : value)
    (modelName : string) (imageConfig account images : value) : result value :=
  let imageConfig := match imageConfig with
                     | VUndefined => VObj []
                     | _ => imageConfig
                     end in
  let project :=
    if truthy account then
      match optprop "project_id_0" account with
      | VUndefined | VNull => VStr (projectId ids)
      | project_id_0 => project_id_0
      end
    else VStr (projectId ids) in
  let text := if truthy prompt then [VObj [("text", prompt)]] else [] in
  let+ pictures := imageParts images in
  let parts1 := text ++ pictures in
  let parts2 := match parts1 with
                | [] => [VObj [("text", VStr "")]]
                | _ => parts1
                end in
  let+ generationConfig :=
    if hasKeys imageConfig then
      let aspect_ratio := optprop "aspect_ratio" imageConfig in
      let image_size := optprop "image_size" imageConfig in
      let+ aspectRatio :=
        if truthy aspect_ratio then
          if negb (listed aspect_ratio validAspectRatios)
          then Fails (BadRequest
                        ("Invalid aspectRatio: " ++ toString aspect_ratio
                         ++ ". Supported values: "
                         ++ String.concat ", " validAspectRatios))
          else Done [("aspectRatio", aspect_ratio)]
        else Done [] in
      let+ imageSize :=
        if truthy image_size then
          if negb (listed image_size validImageSizes)
          then Fails (BadRequest
                        ("Invalid imageSize: " ++ toString image_size
                         ++ ". Supported values: "
                         ++ String.concat ", " validImageSizes))
          else if String.eqb modelName "gemini-2.5-flash-image"
          then Fails (BadRequest
                        "Unsupported parameter: imageSize for gemini-2.5-flash-image")
          else Done [("imageSize", image_size)]
        else Done [] in
      Done [("candidateCount", VNum 1);
            ("imageConfig", VObj (aspectRatio ++ imageSize))]
    else Done [("candidateCount", VNum 1)] in
  Done (VObj [("project", project);
              ("requestId", VStr (requestId ids));
              ("request",
               VObj [("contents",
                      VArr [VObj [("role", VStr "user");
                                  ("parts", VArr parts2)]]);
                     ("generationConfig", VObj generationConfig)]);
              ("model", VStr modelName);
              ("userAgent", VStr "antigravity");
              ("requestType", VStr "image_gen")]).

End WithNumbers.

(** ** Reading a request body *)

(** The request that makes [generateGenerationConfig] throw its error. *)
Definition asksImageSizeOfProImage (parameters : value)
    (actualModelName : string) (isNonChatModel : bool) : bool :=
  negb isNonChatModel
  && String.eqb actualModelName "gemini-2.5-pro-image"
  && truthy (optprop "image_config" parameters)
  && truthy (optprop "image_size" (optprop "image_config" parameters)).

(** The string contents of the system messages, in order. *)
Definition systemContents (openaiMessages : list value) : list string :=
  flat_map (fun msg =>
              if isStr (optprop "role" msg) "system" then
                match optprop "content" msg with
                | VStr s => [s]
                | _ => []
                end
              else [])
           openaiMessages.

(** Every system message has a string as its content. *)
Definition plainSystemMessages (openaiMessages : list value) : Prop :=
  forall msg, In msg openaiMessages ->
              isStr (optprop "role" msg) "system" = true ->
              isString (optprop "content" msg) = true.

(** A value that is absent or one of the listed strings. *)
Definition absentOrListed (v : value) (l : list string) : Prop :=
  v = VUndefined \/ exists s, v = VStr s /\ In s l.

Definition generationConfigOf (body : value) : value :=
  optprop "generationConfig" (optprop "request" body).

(** [body.request.contents[0].parts] *)
Definition firstParts (body : value) : value :=
  optprop "parts" (Client.first (optprop "contents" (optprop "request" body))).

(** [body.request.systemInstruction.parts[0].text] *)
Definition systemInstructionOf (body : value) : value :=
  optprop "text"
    (Client.first
       (optprop "parts" (optprop "systemInstruction" (optprop "request" body)))).

End Request.

(* ====================================================================== *)
(** * Statements about selection and about the attempts of a request *)
(* ====================================================================== *)

Module Usage.
Import JS Store Selector Client.

(** A credential that the user may be served with: a shared one, or a
    dedicated one of the user's own. *)
Definition mayUse (uid : string) (a : account) : Prop :=
  is_shared a = 1 \/ (is_shared a = 0 /\ user_id a = uid).

Section WithWorld.
Variable w : world.

(** A shared credential that selection may pick for the user: enabled, not
    excluded, available for the model, the user's pool holding quota. *)
Definition sharedEligible (db : list account) (uid model_name : string)
    (ex : list string) (d : account) : Prop :=
  In d db /\ enabled d = true /\ is_shared d = 1
  /\ ~ In (cookie_id d) ex
  /\ isModelAvailable w (cookie_id d) model_name = true
  /\ hasQuota w uid model_name = true.

End WithWorld.

(** The rows of credentials that are not on the exclusion list. *)
Definition untried (ex : list string) (db : list account) : nat :=
  List.length
    (filter (fun row => negb (existsb (String.eqb (cookie_id row)) ex)) db).

(** Once the attempts of a request have moved to another credential, they
    do not come back to the one they left. *)
Fixpoint leftForGood (atts : list attempt) : Prop :=
  match atts with
  | [] => True
  | a :: rest =>
      match rest with
      | [] => True
      | b :: _ =>
          (att_cookie b <> att_cookie a ->
           forall c, In c rest -> att_cookie c <> att_cookie a)
          /\ leftForGood rest
      end
  end.

End Usage.

(* ====================================================================== *)
(** * More examples *)
(* ====================================================================== *)

Module Examples.
Import JS Samples.

(** ** A response in text frames *)

(** A record with one text part. *)
Definition helloRecord : string :=
  "data: "
  ++ textOf (stringify
               (VObj [("response",
                       VObj [("candidates",
                              VArr [VObj [("content",
                                           VObj [("parts",
                                                  VArr [VObj [("text", VStr "Hello")]])])]])])])).

Definition helloLine : string := helloRecord ++ Request.lineFeed.

(** ** A response in binary frames *)

(** The greeting with headers and checksums that are not zero. *)
Definition greetingOnWire : KiroStream.frame :=
  KiroStream.mkFrame
    [Byte.xde; Byte.xad; Byte.xbe; Byte.xef]
    (list_byte_of_string ":event-type")
    (list_byte_of_string (textOf (stringify greeting)))
    [Byte.x01; Byte.x02; Byte.x03; Byte.x04].

Definition searchAnnounced : value :=
  VObj [("name", VStr "search"); ("toolUseId", VStr "tool-a")].

Definition searchOnWire : KiroStream.frame :=
  KiroStream.mkFrame
    [Byte.x00; Byte.x00; Byte.x00; Byte.x00]
    []
    (list_byte_of_string (textOf (stringify searchAnnounced)))
    [Byte.xff; Byte.xff; Byte.xff; Byte.xff].

Definition twoFrames : list (KiroStream.frame * value) :=
  [(greetingOnWire, greeting); (searchOnWire, searchAnnounced)].

Definition twoFramesBytes : list byte :=
  Eval vm_compute in
    KiroStream.encode greetingOnWire ++ KiroStream.encode searchOnWire.

Definition uuid (k : nat) : string := "00000000-0000-4000-8000-000000000000".

(** Two tool calls whose arguments arrive in turn. *)
Definition toolMessages : list value :=
  [ searchAnnounced;
    VObj [("toolUseId", VStr "tool-a"); ("input", VStr "{")];
    VObj [("name", VStr "read"); ("toolUseId", VStr "tool-b")];
    VObj [("toolUseId", VStr "tool-a"); ("input", VStr "}")];
    VObj [("toolUseId", VStr "tool-b"); ("input", VObj [])] ].

(** ** Conversations *)

Definition question : value :=
  VObj [("role", VStr "user"); ("content", VStr "Weather in Paris?")].

Definition loneBrace : value :=
  VObj [("role", VStr "assistant"); ("content", VStr "{")].

(** The contents before the tool message of [conversation] is handled. *)
Definition beforeToolMessage : list Adapter.turn :=
  Eval vm_compute in removelast conversationContents.

Definition toolMessage : value :=
  VObj [("role", VStr "tool"); ("tool_call_id", VStr "call_1");
        ("content", VStr "sunny")].

Definition toolTurn : Adapter.turn :=
  Eval vm_compute in last conversationContents (Adapter.mkTurn "" []).

Definition toolPart : value :=
  Eval vm_compute in hd VNull (Adapter.parts toolTurn).

Definition pictureItem : value :=
  VObj [("type", VStr "image_url");
        ("image_url", VObj [("url", VStr "data:image/png;base64,iVBORw0KGgo=")])].

(** ** Requests *)

Definition numbers : Request.Numeric :=
  {| Request.StringToNumber :=
       fun s => match parse (trim s) with
                | Some (VNum n) => Some n
                | _ => None
                end |}.

Definition configuration : value :=
  VObj [("defaults",
         VObj [("temperature", VNum 1); ("top_p", VNum 1);
               ("top_k", VNum 50); ("max_tokens", VNum 8096)]);
        ("systemInstruction", VStr "")].

Definition ids : Request.generated :=
  Request.mkGenerated "useful-wave-a1b2c" "agent-1" "-42".

Definition fewTokens : value := VObj [("max_tokens", VNum 100)].

Definition largePicture : list (string * value) :=
  [("image_config", VObj [("image_size", VStr "4K")])].

Definition afterToolBody : value :=
  Eval vm_compute in
    match @Request.generateRequestBody numbers host configuration ids
            conversation "gemini-2.5-pro" fewTokens VUndefined VNull with
    | Request.Done body => body
    | Request.Fails _ => VNull
    end.

Definition twoInstructions : list value :=
  [ VObj [("role", VStr "system"); ("content", VStr "Be brief.")];
    question;
    VObj [("role", VStr "system"); ("content", VStr "Be kind.")] ].

Definition twoInstructionsBody : value :=
  Eval vm_compute in
    match @Request.generateRequestBody numbers host configuration ids
            twoInstructions "gemini-2.5-pro" fewTokens VUndefined VNull with
    | Request.Done body => body
    | Request.Fails _ => VNull
    end.

Definition wideImageConfig : value :=
  VObj [("aspect_ratio", VStr "16:9"); ("image_size", VStr "2K")].

Definition wideImageBody : value :=
  Eval vm_compute in
    match @Request.generateImageRequestBody numbers ids (VStr "a lighthouse")
            "gemini-3-pro-image" wideImageConfig VNull VUndefined with
    | Request.Done body => body
    | Request.Fails _ => VNull
    end.

(** ** Selection *)

(** As [sampleWorld], with a token service that answers. *)
Definition refreshingWorld : Selector.world :=
  Selector.mkWorld
    (fun _ _ => true)
    (fun model => [model])
    (fun _ _ => Some (1 # 1)%Q)
    (fun _ => Selector.TokenData "fresh" 3600)
    1000000%Z
    (fun _ => 0).

Definition refreshedSelection : Selector.selection :=
  Eval vm_compute in
    Selector.getAvailableAccount refreshingWorld initialStore "alice"
      "gemini-2.5-pro" 0 [].

(** Every credential of the table has been tried. *)
Definition allTried : list string := ["alice-1"; "alice-2"; "bob-1"; "carol-1"].

Definition nothingLeft : Selector.selection :=
  Eval vm_compute in
    Selector.getAvailableAccount sampleWorld initialStore "alice"
      "gemini-2.5-pro" 0 allTried.

(** The attempts of [refusedTwiceRun]: one credential twice, then its
    replacement on each endpoint. *)
Definition refusedTwiceAttempts : list Client.attempt :=
  Eval vm_compute in Client.attempts refusedTwiceRun.

End Examples.

(* ====================================================================== *)
(** * Facts: the outbound adapter *)
(* ====================================================================== *)

Module AdapterFacts.
Import JS Adapter.

Lemma bind_Some {A B : Type} (m : option A) (k : A -> option B) (b : B) :
  bind m k = Some b -> exists a, m = Some a /\ k a = Some b.
Proof.
  destruct m as [a|]; simpl; intros E; [exists a; auto | discriminate].
Qed.

Ltac unbind H :=
  let x := fresh "x" in
  let E := fresh "E" in
  apply bind_Some in H; destruct H as (x & E & H).

Lemma filterM_In {A : Type} (f : A -> option bool) (xs ys : list A) (x : A) :
  filterM f xs = Some ys -> In x xs -> f x = Some true -> In x ys.
Proof.
  revert ys; induction xs as [|y r IH]; simpl; intros ys E Hin Hf.
  - contradiction.
  - unbind E. unbind E. injection E as <-.
    destruct Hin as [-> | Hin].
    + rewrite Hf in E0. injection E0 as <-. left; reflexivity.
    + destruct x0; [right|]; eauto.
Qed.

Lemma mapM_length {A B : Type} (f : A -> option B) (xs : list A) (ys : list B) :
  mapM f xs = Some ys -> List.length ys = List.length xs.
Proof.
  revert ys; induction xs as [|x r IH]; simpl; intros ys E.
  - injection E as <-; reflexivity.
  - unbind E. unbind E. injection E as <-. simpl. f_equal. eauto.
Qed.

Lemma prop_optprop (k : string) (v r : value) :
  prop k v = Some r -> optprop k v = r.
Proof.
  destruct v; simpl; intros E; try discriminate; congruence.
Qed.

Lemma rev_cons_inv {A : Type} (ms : list A) (t : A) (b : list A) :
  rev ms = t :: b -> ms = rev b ++ [t].
Proof.
  intros E. rewrite <- (rev_involutive ms), E. reflexivity.
Qed.

Lemma sent_app (p : value) (ms more : list turn) :
  sentInModelTurn p ms -> sentInModelTurn p (ms ++ more).
Proof.
  intros (t & Hin & Hr & Hp). exists t. rewrite in_app_iff. auto.
Qed.

Lemma sent_pushToLast (p : value) (ps : list value) (ms : list turn) :
  sentInModelTurn p ms -> sentInModelTurn p (pushToLast ps ms).
Proof.
  intros (t & Hin & Hr & Hp). unfold pushToLast.
  destruct (rev ms) as [|l b] eqn:E.
  - apply (f_equal (@rev turn)) in E. rewrite rev_involutive in E.
    simpl in E. subst ms. contradiction.
  - apply rev_cons_inv in E. subst ms.
    apply in_app_iff in Hin. destruct Hin as [Hin | [<- | []]].
    + exists t. rewrite in_app_iff. auto.
    + exists (mkTurn (role l) (parts l ++ ps)). simpl.
      rewrite !in_app_iff. simpl. auto.
Qed.

Lemma pushed_is_sent (p : value) (ps : list value) (ms : list turn) :
  lastIsModel ms = true -> In p ps -> sentInModelTurn p (pushToLast ps ms).
Proof.
  unfold lastIsModel, lastTurn, pushToLast.
  destruct (rev ms) as [|l b]; [discriminate|].
  intros Hr Hp. apply String.eqb_eq in Hr.
  exists (mkTurn (role l) (parts l ++ ps)). simpl.
  rewrite !in_app_iff. simpl. auto.
Qed.

Section WithHost.
Context {H : Host}.

Lemma handleAssistantMessage_keeps p message ms img ms' :
  handleAssistantMessage message ms img = Some ms' ->
  sentInModelTurn p ms -> sentInModelTurn p ms'.
Proof.
  unfold handleAssistantMessage. intros E Hs. unbind E.
  destruct (lastIsModel ms && hasToolCalls message && negb (hasContent message)).
  - injection E as <-. now apply sent_pushToLast.
  - unbind E. injection E as <-. now apply sent_app.
Qed.

Lemma handleAssistantMessage_sends message ms img ms' :
  handleAssistantMessage message ms img = Some ms' ->
  exists tools, antigravityTools message = Some tools
                /\ forall p, In p tools -> sentInModelTurn p ms'.
Proof.
  unfold handleAssistantMessage. intros E. unbind E. exists x. split; [assumption|].
  intros p Hp.
  destruct (lastIsModel ms && hasToolCalls message && negb (hasContent message)) eqn:C.
  - injection E as <-.
    apply andb_prop in C. destruct C as [C _].
    apply andb_prop in C. destruct C as [C _].
    now apply pushed_is_sent.
  - unbind E. injection E as <-.
    exists (mkTurn "model"
              match x0 ++ x with [] => [textPart ""] | _ => x0 ++ x end).
    rewrite in_app_iff. simpl. repeat split; auto.
    destruct (x0 ++ x) eqn:Eapp.
    + apply app_eq_nil in Eapp. destruct Eapp as [_ ->]. contradiction.
    + rewrite <- Eapp. apply in_app_iff. auto.
Qed.

Lemma convertMessage_keeps p img ms message ms' :
  convertMessage img ms message = Some ms' ->
  sentInModelTurn p ms -> sentInModelTurn p ms'.
Proof.
  unfold convertMessage. intros E Hs.
  destruct (isStr (optprop "role" message) "user").
  { unbind E. injection E as <-. unfold handleUserMessage.
    destruct x as [text images]. now apply sent_app. }
  destruct (isStr (optprop "role" message) "assistant").
  { eapply handleAssistantMessage_keeps; eauto. }
  destruct (isStr (optprop "role" message) "tool").
  { injection E as <-. unfold handleToolCall.
    destruct (lastIsUserWithResponse ms);
      [now apply sent_pushToLast | now apply sent_app]. }
  injection E as <-. assumption.
Qed.

Lemma convertMessages_keeps p img messages ms ms' :
  convertMessages img ms messages = Some ms' ->
  sentInModelTurn p ms -> sentInModelTurn p ms'.
Proof.
  revert ms; induction messages as [|m r IH]; simpl; intros ms E Hs.
  - injection E as <-. assumption.
  - unbind E. eapply IH; eauto. eapply convertMessage_keeps; eauto.
Qed.

Lemma convertMessages_sends img messages message ms ms' :
  In message messages ->
  isStr (optprop "role" message) "assistant" = true ->
  convertMessages img ms messages = Some ms' ->
  exists tools, antigravityTools message = Some tools
                /\ forall p, In p tools -> sentInModelTurn p ms'.
Proof.
  revert ms; induction messages as [|m r IH]; simpl; intros ms Hin Hrole E.
  - contradiction.
  - unbind E. destruct Hin as [-> | Hin].
    + unfold convertMessage in E0.
      destruct (optprop "role" message) eqn:R; try discriminate.
      simpl in Hrole. apply String.eqb_eq in Hrole. subst s.
      simpl in E0.
      apply handleAssistantMessage_sends in E0.
      destruct E0 as (tools & Ht & Hall). exists tools. split; [assumption|].
      intros p Hp. eapply convertMessages_keeps; eauto.
    + eapply IH; eauto.
Qed.

Lemma pruneOrphans_keeps p ms :
  sentInModelTurn p ms -> sentInModelTurn p (pruneOrphans ms).
Proof.
  intros (t & Hin & Hr & Hp). exists t. repeat split; auto.
  unfold pruneOrphans. apply in_map_iff. exists t. split; [|assumption].
  rewrite Hr. reflexivity.
Qed.

Lemma dropEmptyUserTurns_keeps p ms :
  sentInModelTurn p ms -> sentInModelTurn p (dropEmptyUserTurns ms).
Proof.
  intros (t & Hin & Hr & Hp). exists t. repeat split; auto.
  unfold dropEmptyUserTurns. apply filter_In. split; [assumption|].
  rewrite Hr. reflexivity.
Qed.

(** A message with a non-empty [tool_calls] array passes the filter of
    invalid assistant messages, whatever its content. *)
Lemma isInvalidAssistantMessage_tool_calls message calls :
  optprop "tool_calls" message = VArr calls -> calls <> [] ->
  isInvalidAssistantMessage message = Some false.
Proof.
  intros Htc Hne.
  assert (Hhas : hasToolCalls message = true).
  { unfold hasToolCalls. rewrite Htc. simpl.
    destruct calls; [contradiction | reflexivity]. }
  unfold isInvalidAssistantMessage.
  destruct message; try discriminate. simpl.
  destruct (isStr (lookup "role" fields) "assistant"); simpl; [|reflexivity].
  rewrite Hhas. reflexivity.
Qed.

(** C10.  An assistant message whose [tool_calls] is a non-empty array is
    never classified as invalid, whatever its content ([null], missing,
    empty or the single character "{"); and when the conversion of a
    conversation containing it returns, the function-call part made from
    each of its tool calls sits in a model turn of the contents sent
    upstream, so the message is not dropped. *)
Theorem tool_call_message_is_never_dropped
    (openaiMessages : list value) (baseModelName : string)
    (message : value) (calls : list value) (contents : list turn) :
  In message openaiMessages ->
  optprop "role" message = VStr "assistant" ->
  optprop "tool_calls" message = VArr calls ->
  calls <> [] ->
  requestContents openaiMessages baseModelName = Some contents ->
  isInvalidAssistantMessage message = Some false
  /\ exists sentParts,
       mapM toolCallToPart calls = Some sentParts
       /\ List.length sentParts = List.length calls
       /\ forall p, In p sentParts -> sentInModelTurn p contents.
Proof.
  intros Hin Hrole Htc Hne E.
  pose proof (isInvalidAssistantMessage_tool_calls message calls Htc Hne) as Hvalid.
  split; [assumption|].
  unfold requestContents, openaiMessageToAntigravity in E.
  unbind E. simpl in E. unbind E. injection E as <-.
  assert (Hkeep : keepMessage message = Some true).
  { unfold keepMessage. rewrite Hvalid. simpl.
    destruct message; try discriminate. simpl in *. rewrite Hrole. reflexivity. }
  pose proof (filterM_In _ _ _ _ E0 Hin Hkeep) as Hin'.
  assert (Hr : isStr (optprop "role" message) "assistant" = true)
    by (rewrite Hrole; reflexivity).
  destruct (convertMessages_sends _ _ _ _ _ Hin' Hr E1) as (tools & Ht & Hall).
  unfold antigravityTools in Ht.
  assert (Hhas : hasToolCalls message = true).
  { unfold hasToolCalls. rewrite Htc. simpl.
    destruct calls; [contradiction | reflexivity]. }
  rewrite Hhas in Ht. unfold toolCallsArray in Ht. rewrite Htc in Ht.
  exists tools. split; [assumption|]. split; [eapply mapM_length; eauto|].
  intros p Hp. apply dropEmptyUserTurns_keeps, pruneOrphans_keeps. auto.
Qed.

End WithHost.

Lemma tool_call_message_is_never_dropped_witness :
  isInvalidAssistantMessage Samples.assistantCalling = Some false
  /\ exists sentParts,
       mapM (@toolCallToPart Samples.host) [Samples.weatherCall] = Some sentParts
       /\ List.length sentParts = 1
       /\ forall p, In p sentParts ->
                    sentInModelTurn p Samples.conversationContents.
Proof.
  apply (@tool_call_message_is_never_dropped Samples.host
           Samples.conversation "gemini-2.5-pro" Samples.assistantCalling
           [Samples.weatherCall] Samples.conversationContents).
  - simpl; tauto.
  - reflexivity.
  - reflexivity.
  - discriminate.
  - vm_compute; reflexivity.
Defined.

End AdapterFacts.

(* ====================================================================== *)
(** * Facts: sanitization of tool schemas *)
(* ====================================================================== *)

Module SchemaFacts.
Import JS Adapter Schema AdapterFacts.





























End SchemaFacts.

(* ====================================================================== *)
(** * Facts: the tool-call round trip *)
(* ====================================================================== *)

Module RoundTripFacts.
Import JS Adapter Client RoundTrip AdapterFacts.

Section WithHost.
Context {H : Host}.









End WithHost.


End RoundTripFacts.

(* ====================================================================== *)
(** * Facts: the credential selector *)
(* ====================================================================== *)

Module SelectorFacts.
Import Store Selector.

Lemma updateRow_In f db cookie db' row' :
  updateRow f db cookie = Some db' ->
  In row' db' ->
  exists row, In row db
              /\ (row' = row /\ cookie_id row <> cookie
                  \/ row' = f row /\ cookie_id row = cookie).
Proof.
  unfold updateRow. destruct (hasRow db cookie); [|discriminate].
  intros E Hin. injection E as <-. apply in_map_iff in Hin.
  destruct Hin as (row & Hrow & Hin). exists row. split; [assumption|].
  destruct (String.eqb (cookie_id row) cookie) eqn:Ec.
  - apply String.eqb_eq in Ec. auto.
  - apply String.eqb_neq in Ec. auto.
Qed.

Lemma updateRow_disables f db cookie db' c :
  updateRow f db cookie = Some db' ->
  (forall a, cookie_id (f a) = cookie_id a) ->
  (forall a, enabled (f a) = true -> enabled a = true) ->
  disabledIn c db -> disabledIn c db'.
Proof.
  intros E Hc Hen Hd row' Hin Hck.
  destruct (updateRow_In _ _ _ _ _ E Hin) as (row & Hrow & [[-> Hne] | [-> Heq]]).
  - auto.
  - rewrite Hc in Hck. specialize (Hd row Hrow Hck).
    destruct (enabled (f row)) eqn:Ef; [|reflexivity].
    apply Hen in Ef. congruence.
Qed.

Lemma updateRow_disabled f db cookie db' :
  updateRow f db cookie = Some db' ->
  (forall a, cookie_id (f a) = cookie_id a) ->
  (forall a, enabled (f a) = false) ->
  disabledIn cookie db'.
Proof.
  intros E Hc Hoff row' Hin Hck.
  destruct (updateRow_In _ _ _ _ _ E Hin) as (row & Hrow & [[-> Hne] | [-> Heq]]).
  - contradiction.
  - apply Hoff.
Qed.

Lemma updateRow_count f db cookie db' :
  updateRow f db cookie = Some db' ->
  (forall a, enabled (f a) = false) ->
  (exists a, In a db /\ cookie_id a = cookie /\ enabled a = true) ->
  enabledCount db' < enabledCount db.
Proof.
  unfold updateRow. destruct (hasRow db cookie); [|discriminate].
  intros E Hoff Hex. injection E as <-. unfold enabledCount.
  induction db as [|x r IH]; simpl.
  - destruct Hex as (a & [] & _).
  - assert (Hle : forall l,
               List.length (filter enabled
                  (map (fun a => if String.eqb (cookie_id a) cookie then f a else a) l))
               <= List.length (filter enabled l)).
    { induction l as [|y l IHl]; simpl; [lia|].
      destruct (String.eqb (cookie_id y) cookie).
      - rewrite Hoff. destruct (enabled y); simpl; lia.
      - destruct (enabled y); simpl; lia. }
    destruct Hex as (a & [-> | Hin] & Hck & Hen).
    + rewrite Hck, String.eqb_refl, Hoff, Hen. simpl.
      specialize (Hle r). lia.
    + assert (IH' := IH (ex_intro _ a (conj Hin (conj Hck Hen)))).
      destruct (String.eqb (cookie_id x) cookie).
      * rewrite Hoff. destruct (enabled x); simpl; lia.
      * destruct (enabled x); simpl; lia.
Qed.

Section WithWorld.
Variable w : world.

Lemma selectedPool_incl preferShared available a :
  In a (selectedPool preferShared available) -> In a available.
Proof.
  unfold selectedPool. intros Hin.
  destruct (Nat.eqb preferShared 1);
    match type of Hin with
    | In _ (if ?c then _ else _) => destruct c
    end; apply filter_In in Hin; tauto.
Qed.

Lemma excludeTried_spec ex accs a :
  In a (excludeTried ex accs) -> In a accs /\ ~ In (cookie_id a) ex.
Proof.
  unfold excludeTried. destruct ex as [|c ex']; simpl; [tauto|].
  intros Hin. apply filter_In in Hin. destruct Hin as [Hin Hno].
  split; [assumption|]. intros Hc.
  apply negb_true_iff in Hno.
  assert (Ht : existsb (String.eqb (cookie_id a)) (c :: ex') = true).
  { apply existsb_exists. exists (cookie_id a). split; [exact Hc|].
    apply String.eqb_refl. }
  simpl in Ht. congruence.
Qed.

Lemma excludeTried_keeps ex accs a :
  In a accs -> ~ In (cookie_id a) ex -> In a (excludeTried ex accs).
Proof.
  unfold excludeTried. intros Hin Hno.
  destruct (Nat.ltb 0 (List.length ex)); [|assumption].
  apply filter_In. split; [assumption|]. apply negb_true_iff.
  destruct (existsb (String.eqb (cookie_id a)) ex) eqn:E; [|reflexivity].
  apply existsb_exists in E. destruct E as (c & Hc & Ec).
  apply String.eqb_eq in Ec. subst c. contradiction.
Qed.

Lemma candidates_enabled db uid preferShared a :
  In a (candidates db uid preferShared) -> In a db /\ enabled a = true.
Proof.
  unfold candidates, getAvailableAccounts. intros Hin.
  destruct (Nat.eqb preferShared 1); apply in_app_iff in Hin;
    destruct Hin as [Hin | Hin]; apply filter_In in Hin;
    destruct Hin as [Hin Hc]; apply andb_prop in Hc; destruct Hc as [Hc _];
    apply andb_prop in Hc; tauto.
Qed.

Lemma candidates_dedicated db uid preferShared a :
  In a db -> enabled a = true -> is_shared a = 0 -> user_id a = uid ->
  In a (candidates db uid preferShared).
Proof.
  intros Hin Hen Hsh Hu.
  assert (Hd : In a (getAvailableAccounts db (Some uid) (Some 0))).
  { unfold getAvailableAccounts. apply filter_In. split; [assumption|].
    rewrite Hen, Hsh, Hu, String.eqb_refl. reflexivity. }
  unfold candidates. destruct (Nat.eqb preferShared 1); apply in_app_iff; auto.
Qed.

Lemma roundPick_facts st uid model_name preferShared ex account :
  roundPick w st uid model_name preferShared ex account ->
  In account (accounts st) /\ enabled account = true
  /\ ~ In (cookie_id account) ex
  /\ eligible w uid model_name account = true.
Proof.
  unfold roundPick. intros Hin. apply selectedPool_incl in Hin.
  unfold availableAccounts in Hin. apply filter_In in Hin.
  destruct Hin as [Hin Hel]. apply excludeTried_spec in Hin.
  destruct Hin as [Hin Hno]. apply candidates_enabled in Hin. tauto.
Qed.

(** How [getAvailableAccountFrom] can end or go on. *)
Lemma getAvailableAccountFrom_cases fuel st uid model_name preferShared ex a st' :
  getAvailableAccountFrom w (S fuel) st uid model_name preferShared ex
  = Picked a st' ->
  exists account,
    roundPick w st uid model_name preferShared ex account
    /\ (a = account /\ accounts st' = accounts st
        \/ (exists token expires,
               a = withToken account token expires
               /\ updateAccountToken (accounts st) (cookie_id account)
                    token expires = Some (accounts st'))
        \/ (exists db',
               (updateAccountStatus (accounts st) (cookie_id account) 0 = Some db'
                \/ markAccountNeedRefresh (accounts st) (cookie_id account) = Some db')
               /\ getAvailableAccountFrom w fuel (mkStore db' (S (draws st)))
                    uid model_name preferShared (ex ++ [cookie_id account])
                  = Picked a st')).
Proof.
  cbn [getAvailableAccountFrom]. unfold roundPick.
  destruct (excludeTried ex (candidates (accounts st) uid preferShared)) as [|c0 cs] eqn:Ec;
    [discriminate|].
  destruct (availableAccounts w uid model_name (c0 :: cs)) as [|a0 av] eqn:Ea;
    [discriminate|].
  set (pool := selectedPool preferShared (a0 :: av)).
  destruct (nth_error pool (random w (draws st) mod List.length pool))
    as [account|] eqn:En; [|discriminate].
  apply nth_error_In in En. intros E. exists account. split; [exact En|].
  destruct (isTokenExpired (now w) account).
  - destruct (refreshAccessToken w (refresh_token account)) as [token expires_in| |].
    + cbn [accounts draws] in E.
      destruct (updateAccountToken (accounts st) (cookie_id account) token
                  (now w + expires_in * 1000)) as [db'|] eqn:Eu.
      * injection E as <- <-. right; left. eauto.
      * destruct (markAccountNeedRefresh (accounts st) (cookie_id account))
          as [db'|] eqn:Em; [|discriminate].
        right; right. eauto.
    + cbn [accounts draws] in E.
      destruct (updateAccountStatus (accounts st) (cookie_id account) 0)
        as [db'|] eqn:Em; [|discriminate].
      right; right. eauto.
    + cbn [accounts draws] in E.
      destruct (markAccountNeedRefresh (accounts st) (cookie_id account))
        as [db'|] eqn:Em; [|discriminate].
      right; right. eauto.
  - injection E as <- <-. left. auto.
Qed.

Lemma withToken_flags a token expires :
  cookie_id (withToken a token expires) = cookie_id a
  /\ user_id (withToken a token expires) = user_id a
  /\ is_shared (withToken a token expires) = is_shared a
  /\ enabled (withToken a token expires) = enabled a.
Proof. destruct a; repeat split. Qed.

Lemma store_updates_keep_disabled db cookie db' c :
  (updateAccountStatus db cookie 0 = Some db'
   \/ markAccountNeedRefresh db cookie = Some db'
   \/ exists token expires, updateAccountToken db cookie token expires = Some db') ->
  disabledIn c db -> disabledIn c db'.
Proof.
  intros [E | [E | (token & expires & E)]];
    (eapply updateRow_disables; [exact E | | ]); intros a; destruct a;
    unfold enabled; simpl; try reflexivity; try discriminate; auto.
Qed.

Lemma disabling_disables db cookie db' :
  (updateAccountStatus db cookie 0 = Some db'
   \/ markAccountNeedRefresh db cookie = Some db') ->
  disabledIn cookie db'.
Proof.
  intros [E | E]; (eapply updateRow_disabled; [exact E | | ]);
    intros a; destruct a; reflexivity.
Qed.

(** Selection never enables an account again. *)
Lemma getAvailableAccountFrom_keeps_disabled c fuel :
  forall st uid model_name preferShared ex a st',
    getAvailableAccountFrom w fuel st uid model_name preferShared ex = Picked a st' ->
    disabledIn c (accounts st) -> disabledIn c (accounts st').
Proof.
  induction fuel as [|fuel IH]; intros st uid model_name preferShared ex a st' E Hd;
    [discriminate|].
  destruct (getAvailableAccountFrom_cases _ _ _ _ _ _ _ _ E)
    as (account & Hpick & [[_ Hdb] | [(token & expires & _ & Hu) | (db' & Hup & Hrec)]]).
  - rewrite Hdb. assumption.
  - eapply store_updates_keep_disabled; [|exact Hd]. right; right. eauto.
  - apply (IH _ _ _ _ _ _ _ Hrec). cbn [accounts].
    eapply store_updates_keep_disabled; [|exact Hd].
    destruct Hup as [Hup | Hup]; [left | right; left]; exact Hup.
Qed.

Lemma picked_is_eligible fuel :
  forall st uid model_name preferShared ex a st',
    getAvailableAccountFrom w fuel st uid model_name preferShared ex = Picked a st' ->
    exists account,
      eligible w uid model_name account = true
      /\ cookie_id a = cookie_id account
      /\ is_shared a = is_shared account
      /\ ~ In (cookie_id a) ex.
Proof.
  induction fuel as [|fuel IH]; intros st uid model_name preferShared ex a st' E;
    [discriminate|].
  destruct (getAvailableAccountFrom_cases _ _ _ _ _ _ _ _ E)
    as (account & Hpick & [[-> _] | [(token & expires & -> & _) | (db' & _ & Hrec)]]).
  - apply roundPick_facts in Hpick. exists account. tauto.
  - apply roundPick_facts in Hpick. exists account.
    destruct (withToken_flags account token expires) as (-> & _ & -> & _). tauto.
  - destruct (IH _ _ _ _ _ _ _ Hrec) as (acc & He & Hc & Hs & Hno).
    exists acc. repeat split; auto. intros Hin. apply Hno, in_app_iff. auto.
Qed.

(** C4.  Selection returns a shared credential only if some model of the
    quota-sharing group of the requested model has a pool row of the user
    with a quota above zero; so when the pools of the whole group are
    empty, no shared credential is returned, whatever quota the credential
    itself has left. *)
Theorem shared_credential_needs_pool_quota
    (st : store) (uid model_name : string) (preferShared : nat)
    (excludeCookieIds : list string) (a : account) (st' : store) :
  getAvailableAccount w st uid model_name preferShared excludeCookieIds
  = Picked a st' ->
  is_shared a = 1 ->
  exists sharedModel quota,
    In sharedModel (getQuotaSharedModels w model_name)
    /\ getUserModelSharedQuotaPool w uid sharedModel = Some quota
    /\ (0 < quota)%Q.
Proof.
  unfold getAvailableAccount. intros E Hshared.
  destruct (picked_is_eligible _ _ _ _ _ _ _ _ E) as (account & He & _ & Hs & _).
  unfold eligible in He. rewrite <- Hs, Hshared in He. simpl in He.
  apply andb_prop in He. destruct He as [_ Hq]. unfold hasQuota in Hq.
  apply existsb_exists in Hq. destruct Hq as (sharedModel & Hin & Hpos).
  exists sharedModel.
  destruct (getUserModelSharedQuotaPool w uid sharedModel) as [quota|];
    [|discriminate].
  exists quota. repeat split; auto.
  apply negb_true_iff in Hpos.
  destruct (Qlt_le_dec 0 quota) as [Hlt | Hle]; [assumption|].
  apply Qle_bool_iff in Hle. congruence.
Qed.

(** A round that goes on to another one met a token out of date that it
    could not replace. *)
Lemma getAvailableAccountFrom_goes_on fuel st uid model_name preferShared ex a st' :
  getAvailableAccountFrom w (S fuel) st uid model_name preferShared ex
  = Picked a st' ->
  exists account,
    roundPick w st uid model_name preferShared ex account
    /\ (a = account /\ accounts st' = accounts st
        \/ (exists token expires,
               a = withToken account token expires
               /\ updateAccountToken (accounts st) (cookie_id account)
                    token expires = Some (accounts st'))
        \/ (exists db',
               (updateAccountStatus (accounts st) (cookie_id account) 0 = Some db'
                \/ markAccountNeedRefresh (accounts st) (cookie_id account) = Some db')
               /\ isTokenExpired (now w) account = true
               /\ (forall token expires_in,
                     refreshAccessToken w (refresh_token account)
                     = TokenData token expires_in ->
                     hasRow (accounts st) (cookie_id account) = false)
               /\ getAvailableAccountFrom w fuel (mkStore db' (S (draws st)))
                    uid model_name preferShared (ex ++ [cookie_id account])
                  = Picked a st')).
Proof.
  cbn [getAvailableAccountFrom]. unfold roundPick.
  destruct (excludeTried ex (candidates (accounts st) uid preferShared)) as [|c0 cs] eqn:Ec;
    [discriminate|].
  destruct (availableAccounts w uid model_name (c0 :: cs)) as [|a0 av] eqn:Ea;
    [discriminate|].
  set (pool := selectedPool preferShared (a0 :: av)).
  destruct (nth_error pool (random w (draws st) mod List.length pool))
    as [account|] eqn:En; [|discriminate].
  apply nth_error_In in En. intros E. exists account. split; [exact En|].
  destruct (isTokenExpired (now w) account).
  - destruct (refreshAccessToken w (refresh_token account)) as [token expires_in| |].
    + cbn [accounts draws] in E.
      destruct (updateAccountToken (accounts st) (cookie_id account) token
                  (now w + expires_in * 1000)) as [db'|] eqn:Eu.
      * injection E as <- <-. right; left. eauto.
      * destruct (markAccountNeedRefresh (accounts st) (cookie_id account))
          as [db'|] eqn:Em; [|discriminate].
        right; right. exists db'. repeat split; auto.
        intros _ _ _. unfold updateAccountToken, updateRow in Eu.
        destruct (hasRow (accounts st) (cookie_id account));
          [discriminate | reflexivity].
    + cbn [accounts draws] in E.
      destruct (updateAccountStatus (accounts st) (cookie_id account) 0)
        as [db'|] eqn:Em; [|discriminate].
      right; right. exists db'. repeat split; auto. discriminate.
    + cbn [accounts draws] in E.
      destruct (markAccountNeedRefresh (accounts st) (cookie_id account))
        as [db'|] eqn:Em; [|discriminate].
      right; right. exists db'. repeat split; auto. discriminate.
  - injection E as <- <-. left. auto.
Qed.

Lemma updateRow_keeps f db cookie db' d :
  updateRow f db cookie = Some db' ->
  In d db ->
  In (if String.eqb (cookie_id d) cookie then f d else d) db'.
Proof.
  unfold updateRow. destruct (hasRow db cookie); [|discriminate].
  intros E Hin. injection E as <-.
  apply (in_map (fun a => if String.eqb (cookie_id a) cookie then f a else a)).
  exact Hin.
Qed.

Lemma updateRow_same_cookies f db cookie db' :
  (forall a, cookie_id (f a) = cookie_id a) ->
  updateRow f db cookie = Some db' ->
  map cookie_id db' = map cookie_id db.
Proof.
  intros Hf. unfold updateRow. destruct (hasRow db cookie); [|discriminate].
  intros E. injection E as <-. rewrite map_map. apply map_ext.
  intros a. destruct (String.eqb (cookie_id a) cookie); [apply Hf | reflexivity].
Qed.

Lemma hasRow_of_row db d : In d db -> hasRow db (cookie_id d) = true.
Proof.
  intros Hin. unfold hasRow. apply existsb_exists. exists d.
  split; [exact Hin | apply String.eqb_refl].
Qed.

Lemma cookie_names_row db a b :
  NoDup (map cookie_id db) -> In a db -> In b db ->
  cookie_id a = cookie_id b -> a = b.
Proof.
  induction db as [|x db IH]; intros Hnd Ha Hb Heq; [contradiction|].
  cbn [map] in Hnd. inversion Hnd as [|? ? Hx Hnd']; subst.
  destruct Ha as [-> | Ha], Hb as [-> | Hb].
  - reflexivity.
  - exfalso. apply Hx. rewrite Heq. now apply in_map.
  - exfalso. apply Hx. rewrite <- Heq. now apply in_map.
  - now apply IH.
Qed.

(** With the preference dedicated-first, a dedicated credential that the
    store holds when selection returns makes the result dedicated. *)
Lemma picked_with_dedicated_left
    (uid model_name : string) (preferShared : nat) (fuel : nat) :
  preferShared <> 1 ->
  forall st ex a st',
    getAvailableAccountFrom w fuel st uid model_name preferShared ex
    = Picked a st' ->
    (exists d, dedicatedEligible w (accounts st') uid model_name ex d) ->
    is_shared a = 0.
Proof.
  intros Hpref.
  induction fuel as [|fuel IH]; intros st ex a st' E (d & Hd); [discriminate|].
  destruct Hd as (Hin & Hen & Hsh & Hu & Hno & Hav).
  assert (Hround : forall d0 account,
             In d0 (accounts st) -> enabled d0 = true -> is_shared d0 = 0 ->
             user_id d0 = uid -> cookie_id d0 = cookie_id d ->
             roundPick w st uid model_name preferShared ex account ->
             is_shared account = 0).
  { intros d0 account Hin0 Hen0 Hsh0 Hu0 Hck0 Hpick. unfold roundPick in Hpick.
    set (available := availableAccounts w uid model_name
                        (excludeTried ex (candidates (accounts st) uid preferShared))) in *.
    assert (Hd0 : In d0 (filter (fun acc => Nat.eqb (is_shared acc) 0) available)).
    { apply filter_In. split; [|rewrite Hsh0; reflexivity].
      unfold available, availableAccounts. apply filter_In. split.
      - apply excludeTried_keeps; [|rewrite Hck0; assumption].
        now apply candidates_dedicated.
      - unfold eligible. rewrite Hck0, Hav, Hsh0. reflexivity. }
    unfold selectedPool in Hpick.
    destruct (Nat.eqb preferShared 1) eqn:Ep;
      [apply Nat.eqb_eq in Ep; contradiction|].
    assert (Hlen : Nat.ltb 0 (List.length
                      (filter (fun acc => Nat.eqb (is_shared acc) 0) available)) = true).
    { destruct (filter (fun acc => Nat.eqb (is_shared acc) 0) available);
        [contradiction | reflexivity]. }
    rewrite Hlen in Hpick. apply filter_In in Hpick.
    destruct Hpick as [_ Hz]. now apply Nat.eqb_eq in Hz. }
  destruct (getAvailableAccountFrom_cases _ _ _ _ _ _ _ _ E)
    as (account & Hpick & [[-> Hdb] | [(token & expires & -> & Hu') | (db' & Hup & Hrec)]]).
  - rewrite Hdb in Hin. eapply Hround; eauto.
  - destruct (withToken_flags account token expires) as (_ & _ & -> & _).
    destruct (updateRow_In _ _ _ _ _ Hu' Hin) as (d0 & Hin0 & [[-> _] | [-> _]]).
    + eapply Hround; eauto.
    + destruct (withToken_flags d0 token expires) as (Hc & Hus & Hs & He).
      rewrite Hc in *. rewrite Hus in Hu. rewrite Hs in Hsh. rewrite He in Hen.
      eapply (Hround d0); eauto.
  - apply (IH _ _ _ _ Hrec). exists d. repeat split; auto.
    intros Hc. apply in_app_iff in Hc. destruct Hc as [Hc | [Hc | []]];
      [contradiction|].
    assert (Hoff : disabledIn (cookie_id account) (accounts st')).
    { apply (getAvailableAccountFrom_keeps_disabled _ _ _ _ _ _ _ _ _ Hrec).
      cbn [accounts]. eapply disabling_disables. exact Hup. }
    specialize (Hoff d Hin (eq_sym Hc)). congruence.
Qed.

(** A dedicated credential that can be selected at the call and whose
    token is current or can be refreshed is still there, and can still be
    selected, when selection returns. *)
Lemma dedicated_with_token_stays (uid model_name : string) (preferShared : nat)
    (fuel : nat) :
  forall st ex a st' d,
    NoDup (map cookie_id (accounts st)) ->
    getAvailableAccountFrom w fuel st uid model_name preferShared ex
    = Picked a st' ->
    dedicatedEligible w (accounts st) uid model_name ex d ->
    usableToken w d ->
    exists d', dedicatedEligible w (accounts st') uid model_name ex d'.
Proof.
  induction fuel as [|fuel IH]; intros st ex a st' d Hnd E Hd Htok;
    [discriminate|].
  destruct Hd as (Hin & Hen & Hsh & Hu & Hno & Hav).
  destruct (getAvailableAccountFrom_goes_on _ _ _ _ _ _ _ _ E)
    as (account & Hpick
        & [[_ Hdb] | [(token & expires & _ & Hu')
                     | (db' & Hup & Hexp & Hrow & Hrec)]]).
  - exists d. rewrite Hdb. repeat split; assumption.
  - pose proof (updateRow_keeps _ _ _ _ d Hu' Hin) as Hin'.
    destruct (String.eqb (cookie_id d) (cookie_id account)).
    + exists (withToken d token expires).
      destruct (withToken_flags d token expires) as (Hc & Hus & Hs & He).
      unfold dedicatedEligible. rewrite Hc, Hus, Hs, He.
      repeat split; assumption.
    + exists d. repeat split; assumption.
  - apply roundPick_facts in Hpick. destruct Hpick as (Hacc & _).
    assert (Hne : cookie_id d <> cookie_id account).
    { intros Hc. assert (d = account) by (eapply cookie_names_row; eauto).
      subst account. destruct Htok as [Hcur | (token & expires_in & Href)].
      - congruence.
      - specialize (Hrow _ _ Href). rewrite (hasRow_of_row _ _ Hin) in Hrow.
        discriminate. }
    assert (Hkeep : In d db' /\ map cookie_id db' = map cookie_id (accounts st)).
    { destruct Hup as [Hup | Hup].
      - split.
        + pose proof (updateRow_keeps _ _ _ _ d Hup Hin) as Hin'.
          apply String.eqb_neq in Hne. rewrite Hne in Hin'. exact Hin'.
        + eapply updateRow_same_cookies; [|exact Hup]. reflexivity.
      - split.
        + pose proof (updateRow_keeps _ _ _ _ d Hup Hin) as Hin'.
          apply String.eqb_neq in Hne. rewrite Hne in Hin'. exact Hin'.
        + eapply updateRow_same_cookies; [|exact Hup]. reflexivity. }
    destruct Hkeep as [Hin' Hcookies].
    assert (Hnd' : NoDup (map cookie_id
                            (accounts (mkStore db' (S (draws st))))))
      by (cbn [accounts]; rewrite Hcookies; exact Hnd).
    destruct (IH _ _ _ _ d Hnd' Hrec)
      as (d' & Hin2 & Hen2 & Hsh2 & Hu2 & Hno2 & Hav2).
    + repeat split; try assumption.
      intros Hc. apply in_app_iff in Hc.
      destruct Hc as [Hc | [Hc | []]]; [contradiction | congruence].
    + exact Htok.
    + exists d'. repeat split; try assumption.
      intros Hc. apply Hno2, in_app_iff. left. exact Hc.
Qed.

(** The credential returned is a row of the store, and enabled. *)
Lemma picked_is_stored fuel :
  forall st uid model_name preferShared ex a st',
    getAvailableAccountFrom w fuel st uid model_name preferShared ex = Picked a st' ->
    In a (accounts st') /\ enabled a = true.
Proof.
  induction fuel as [|fuel IH]; intros st uid model_name preferShared ex a st' E;
    [discriminate|].
  destruct (getAvailableAccountFrom_cases _ _ _ _ _ _ _ _ E)
    as (account & Hpick & [[-> Hdb] | [(token & expires & -> & Hu) | (db' & _ & Hrec)]]).
  - apply roundPick_facts in Hpick as (Hin & Hen & _). rewrite Hdb. auto.
  - apply roundPick_facts in Hpick as (Hin & Hen & _).
    destruct (withToken_flags account token expires) as (_ & _ & _ & ->).
    split; [|exact Hen].
    pose proof (updateRow_keeps _ _ _ _ account Hu Hin) as Hin'.
    rewrite String.eqb_refl in Hin'. exact Hin'.
  - exact (IH _ _ _ _ _ _ _ Hrec).
Qed.

(** C3 (as amended).  With the preference dedicated-first (anything but
    [prefer_shared = 1]), whenever selection returns a credential while
    the store it leaves holds a dedicated credential of the user that is
    enabled, not excluded and available for the model, the credential
    returned is dedicated; a shared one is returned only when there is no
    such dedicated credential.  Selection disables a credential whose token
    is out of date and cannot be refreshed; with one row per cookie id, a
    dedicated credential that can be selected at the call and whose token
    is current or can be refreshed is enough for the result to be
    dedicated. *)
Theorem dedicated_first_never_returns_shared
    (st : store) (uid model_name : string) (preferShared : nat)
    (excludeCookieIds : list string) (a : account) (st' : store) :
  preferShared <> 1 ->
  getAvailableAccount w st uid model_name preferShared excludeCookieIds
  = Picked a st' ->
  ((exists d, dedicatedEligible w (accounts st') uid model_name
                excludeCookieIds d) ->
   is_shared a = 0)
  /\ (NoDup (map cookie_id (accounts st)) ->
      (exists d, dedicatedEligible w (accounts st) uid model_name
                   excludeCookieIds d
                 /\ usableToken w d) ->
      is_shared a = 0)
  /\ (is_shared a <> 0 ->
      forall d, ~ dedicatedEligible w (accounts st') uid model_name
                    excludeCookieIds d).
Proof.
  unfold getAvailableAccount. intros Hpref E.
  pose proof (picked_with_dedicated_left uid model_name preferShared _ Hpref
                _ _ _ _ E) as Hleft.
  split; [exact Hleft|]. split.
  - intros Hnd (d & Hd & Htok). apply Hleft.
    eapply dedicated_with_token_stays; eauto.
  - intros Hshared d Hd. apply Hshared, Hleft. exists d. exact Hd.
Qed.

(** The rounds of [getAvailableAccount] never outnumber the rows that are
    enabled, so the bound on the rounds is not reached. *)
Lemma getAvailableAccountFrom_fuel fuel :
  forall st uid model_name preferShared ex st',
    enabledCount (accounts st) < fuel ->
    getAvailableAccountFrom w fuel st uid model_name preferShared ex
    <> Failed FuelExhausted st'.
Proof.
  induction fuel as [|fuel IH]; intros st uid model_name preferShared ex st' Hlt;
    [lia|].
  cbn [getAvailableAccountFrom].
  destruct (excludeTried ex (candidates (accounts st) uid preferShared)) as [|c0 cs] eqn:Ec;
    [discriminate|].
  destruct (availableAccounts w uid model_name (c0 :: cs)) as [|a0 av] eqn:Ea;
    [discriminate|].
  set (pool := selectedPool preferShared (a0 :: av)).
  destruct (nth_error pool (random w (draws st) mod List.length pool))
    as [account|] eqn:En; [|discriminate].
  assert (Hpick : roundPick w st uid model_name preferShared ex account).
  { unfold roundPick. rewrite Ec, Ea. eapply nth_error_In; eauto. }
  apply roundPick_facts in Hpick. destruct Hpick as (Hin & Hen & _ & _).
  assert (Hless : forall db',
             (updateAccountStatus (accounts st) (cookie_id account) 0 = Some db'
              \/ markAccountNeedRefresh (accounts st) (cookie_id account) = Some db') ->
             enabledCount db' < fuel).
  { intros db' [Eu | Eu];
      (eapply Nat.lt_le_trans; [|apply Nat.lt_succ_r; exact Hlt]);
      (eapply updateRow_count; [exact Eu | intros x; destruct x; reflexivity | eauto]). }
  destruct (isTokenExpired (now w) account); [|discriminate].
  cbn [accounts draws].
  destruct (refreshAccessToken w (refresh_token account)) as [token expires_in| |].
  - destruct (updateAccountToken (accounts st) (cookie_id account) token _);
      [discriminate|].
    destruct (markAccountNeedRefresh (accounts st) (cookie_id account)) eqn:Em;
      [|discriminate].
    apply IH. cbn [accounts]. auto.
  - destruct (updateAccountStatus (accounts st) (cookie_id account) 0) eqn:Em;
      [|discriminate].
    apply IH. cbn [accounts]. auto.
  - destruct (markAccountNeedRefresh (accounts st) (cookie_id account)) eqn:Em;
      [|discriminate].
    apply IH. cbn [accounts]. auto.
Qed.

Lemma getAvailableAccount_fuel st uid model_name preferShared ex st' :
  getAvailableAccount w st uid model_name preferShared ex
  <> Failed FuelExhausted st'.
Proof.
  unfold getAvailableAccount. apply getAvailableAccountFrom_fuel.
  unfold enabledCount. apply Nat.lt_succ_r, filter_length_le.
Qed.

End WithWorld.

(** In the sample store the first dedicated credential fails to refresh
    and is put aside; the second one, whose token is current, is returned,
    not a shared one. *)
Lemma dedicated_first_never_returns_shared_witness :
  is_shared (Samples.pickedOf Samples.dedicatedFirstSelection) = 0.
Proof.
  destruct (dedicated_first_never_returns_shared Samples.sampleWorld
              Samples.initialStore "alice" "gemini-2.5-pro" 0 []
              (Samples.pickedOf Samples.dedicatedFirstSelection)
              (Samples.storeOf Samples.dedicatedFirstSelection))
    as (_ & Hcall & _).
  - discriminate.
  - vm_compute; reflexivity.
  - apply Hcall.
    + vm_compute. repeat constructor; simpl; intuition discriminate.
    + exists (Samples.credential "alice-2" "alice" 0 9000000). split.
      * unfold dedicatedEligible. repeat split; try reflexivity.
        -- vm_compute. tauto.
        -- intros [].
      * left. reflexivity.
Defined.

(** C3, as stated, fails on [Samples.staleStore]: when selection is called
    Alice's dedicated credential is enabled, not excluded and available for
    the model, but its token is out of date and the refresh fails; selection
    disables it and returns Bob's shared credential. *)
Lemma dedicated_at_the_call_fails :
  (exists d, dedicatedEligible Samples.sampleWorld
               (accounts Samples.staleStore) "alice" "gemini-2.5-pro" [] d)
  /\ exists a st',
       getAvailableAccount Samples.sampleWorld Samples.staleStore "alice"
         "gemini-2.5-pro" 0 [] = Picked a st'
       /\ cookie_id a = "bob-1"
       /\ is_shared a = 1.
Proof.
  split.
  - exists (Samples.credential "alice-1" "alice" 0 0).
    unfold dedicatedEligible. repeat split; try reflexivity.
    + vm_compute. tauto.
    + intros [].
  - eexists. eexists. split; [vm_compute; reflexivity|]. split; reflexivity.
Qed.

Lemma shared_credential_needs_pool_quota_witness :
  cookie_id (Samples.pickedOf Samples.sharedFirstSelection) = "bob-1"
  /\ exists sharedModel quota,
       In sharedModel (getQuotaSharedModels Samples.sampleWorld "gemini-2.5-pro")
       /\ getUserModelSharedQuotaPool Samples.sampleWorld "alice" sharedModel
          = Some quota
       /\ (0 < quota)%Q.
Proof.
  split; [reflexivity|].
  apply (shared_credential_needs_pool_quota Samples.sampleWorld
           Samples.initialStore "alice" "gemini-2.5-pro" 1 []
           (Samples.pickedOf Samples.sharedFirstSelection)
           (Samples.storeOf Samples.sharedFirstSelection)).
  - vm_compute; reflexivity.
  - reflexivity.
Defined.

End SelectorFacts.

(* ====================================================================== *)
(** * Facts: the retry state machine *)
(* ====================================================================== *)

Module ClientFacts.
Import JS Store Selector Client Policy SelectorFacts.

Section Orchestrator.
Context {H : Host}.
Variable w : world.
Variable totalEndpoints : nat.
Variables (uid model_name : string) (preferShared : nat).

Local Abbreviation chat :=
  (generateResponse w totalEndpoints uid model_name preferShared).
Local Abbreviation image :=
  (generateImage w totalEndpoints uid model_name preferShared).
Local Abbreviation reselect := (select w uid model_name preferShared).

Lemma attempts_catchReturn ev r : attempts (catchReturn ev r) = attempts r.
Proof. unfold catchReturn. destruct (result r); reflexivity. Qed.

Lemma attempts_catchRethrow evs e r :
  attempts (catchRethrow evs e r) = attempts r.
Proof. unfold catchRethrow. destruct (result r); reflexivity. Qed.

(** Case analysis along the branches of the two state machines. *)
Ltac branches :=
  repeat match goal with
         | |- context [match ?x with _ => _ end] =>
             lazymatch x with
             | context [match _ with _ => _ end] => fail
             | _ => destruct x eqn:?
             end
         end.

(** A call with a credential makes at least one attempt, with the
    parameters it was given. *)
Lemma generateResponse_first_attempt script st account ex rc i first :
  exists more,
    attempts (chat script st (Some account) ex rc i first)
    = mkAttempt (cookie_id account) rc (endpointUsed totalEndpoints i) first
        (hd NetworkError script) :: more.
Proof.
  destruct script as [|rep rest]; [eexists; reflexivity|].
  cbn [generateResponse hd]. branches; eexists; reflexivity.
Qed.

Lemma generateImage_first_attempt script st account ex rc i first :
  exists more,
    attempts (image script st (Some account) ex rc i first)
    = mkAttempt (cookie_id account) rc (endpointUsed totalEndpoints i) first
        (hd NetworkError script) :: more.
Proof.
  destruct script as [|rep rest]; [eexists; reflexivity|].
  cbn [generateImage hd]. branches; eexists; reflexivity.
Qed.

Lemma generateResponse_selects script st ex rc i first :
  chat script st None ex rc i first
  = match reselect st ex with
    | Picked a st0 => chat script st0 (Some a) ex rc i first
    | Failed e st0 => mkRun st0 [] (Threw (SelectionError e)) []
    end.
Proof.
  destruct script; cbn [generateResponse]; destruct (reselect st ex); reflexivity.
Qed.

Lemma generateImage_selects script st ex rc i first :
  image script st None ex rc i first
  = match reselect st ex with
    | Picked a st0 => image script st0 (Some a) ex rc i first
    | Failed e st0 => mkRun st0 [] (Threw (SelectionError e)) []
    end.
Proof.
  destruct script; cbn [generateImage]; destruct (reselect st ex); reflexivity.
Qed.

Lemma reselect_other account st ex b st1 :
  reselect st (ex ++ [cookie_id account]) = Picked b st1 ->
  cookie_id b <> cookie_id account.
Proof.
  unfold select, getAvailableAccount. intros E.
  destruct (picked_is_eligible _ _ _ _ _ _ _ _ _ E) as (_ & _ & _ & _ & Hno).
  intros Heq. apply Hno, in_app_iff. right. left. symmetry. exact Heq.
Qed.

Lemma retriesCounted_after failed ceiling this b more :
  (failed (att_reply this) = true ->
   att_retryCount this < ceiling
   /\ att_retryCount b = att_retryCount this + 1
   /\ att_cookie b <> att_cookie this) ->
  retriesCounted failed ceiling (b :: more) ->
  retriesCounted failed ceiling (this :: b :: more).
Proof. intros Hstep Hrest. split; assumption. Qed.

(** The end of each branch: a finished run, or one more attempt followed
    by the attempts of the retry. *)
Ltac leaf first_attempt IH :=
  first
    [ exact I
    | unfold after; cbn [attempts];
      rewrite ?attempts_catchReturn, ?attempts_catchRethrow;
      match goal with
      | |- context [attempts (?f ?sc ?st (Some ?a) ?ex ?rc ?i ?fst)] =>
          let more := fresh "more" in
          let Hm := fresh "Hm" in
          destruct (first_attempt sc st a ex rc i fst) as (more & Hm);
          pose proof (IH st a ex rc i fst) as Hrec;
          rewrite Hm in Hrec |- *;
          apply retriesCounted_after; [|exact Hrec];
          cbn [att_reply att_retryCount att_cookie];
          unfold reachesRetryBranch, quotaFailure;
          repeat match goal with
                 | Hc : _ = true |- _ => rewrite Hc
                 | Hc : _ = false |- _ => rewrite Hc
                 end;
          cbn [negb andb orb];
          rewrite ?andb_false_r;
          cbn [negb andb orb];
          intros Hf;
          first
            [ discriminate
            | repeat split;
              [ apply Nat.leb_gt; assumption
              | eapply reselect_other; eassumption ] ]
      end ].

Lemma chat_retries_counted_from script : forall st a ex rc i first,
  retriesCounted reachesRetryBranch 5
    (attempts (chat script st (Some a) ex rc i first)).
Proof.
  induction script as [|rep rest IH]; intros st a ex rc i first; [exact I|].
  cbn [generateResponse]. branches.
  all: leaf generateResponse_first_attempt IH.
Qed.

Lemma image_retries_counted_from script : forall st a ex rc i first,
  retriesCounted reachesRetryBranch 3
    (attempts (image script st (Some a) ex rc i first)).
Proof.
  induction script as [|rep rest IH]; intros st a ex rc i first; [exact I|].
  cbn [generateImage]. branches.
  all: leaf generateImage_first_attempt IH.
Qed.

(** The 429 branch, once the ceiling is reached and when no credential is
    left. *)
Lemma chat_retry_branch_ends rep rest st a ex rc i first :
  reachesRetryBranch rep = true ->
  let this := mkAttempt (cookie_id a) rc (endpointUsed totalEndpoints i) first rep in
  (5 <= rc ->
   chat (rep :: rest) st (Some a) ex rc i first
   = finish st [EvError "RESOURCE_EXHAUSTED"] Returned this)
  /\ (rc < 5 ->
      forall e st1,
        reselect st (ex ++ [cookie_id a]) = Failed e st1 ->
        chat (rep :: rest) st (Some a) ex rc i first
        = finish st1 [EvError "RESOURCE_EXHAUSTED"] Returned this)
  /\ (rc < 5 ->
      forall b st1,
        reselect st (ex ++ [cookie_id a]) = Picked b st1 ->
        chat (rep :: rest) st (Some a) ex rc i first
        = after this
            (catchReturn (EvError "RESOURCE_EXHAUSTED")
               (chat rest st1 (Some b) (ex ++ [cookie_id a]) (rc + 1) 0 None))).
Proof.
  intros Hf this. destruct rep as [|status text lines]; [discriminate|].
  unfold reachesRetryBranch, quotaFailure in Hf.
  apply andb_prop in Hf. destruct Hf as [Hf H400].
  apply andb_prop in Hf. destruct Hf as [Hf H403].
  apply andb_prop in Hf. destruct Hf as [Hok Hq].
  apply negb_true_iff in Hok, H400, H403.
  cbn [generateResponse]. rewrite Hok, H403, H400, Hq.
  repeat split.
  - intros Hrc. apply Nat.leb_le in Hrc. rewrite Hrc. reflexivity.
  - intros Hrc e st1 Es. apply Nat.leb_gt in Hrc. rewrite Hrc.
    fold (reselect st (ex ++ [cookie_id a])). rewrite Es. reflexivity.
  - intros Hrc b st1 Es. apply Nat.leb_gt in Hrc. rewrite Hrc.
    fold (reselect st (ex ++ [cookie_id a])). rewrite Es. reflexivity.
Qed.

Lemma image_retry_branch_ends rep rest st a ex rc i first :
  reachesRetryBranch rep = true ->
  let this := mkAttempt (cookie_id a) rc (endpointUsed totalEndpoints i) first rep in
  (3 <= rc ->
   image (rep :: rest) st (Some a) ex rc i first
   = finish st [] (Threw (ApiError "RESOURCE_EXHAUSTED" 429)) this)
  /\ (rc < 3 ->
      forall e st1,
        reselect st (ex ++ [cookie_id a]) = Failed e st1 ->
        image (rep :: rest) st (Some a) ex rc i first
        = finish st1 [] (Threw (ApiError "RESOURCE_EXHAUSTED" 429)) this)
  /\ (rc < 3 ->
      forall b st1,
        reselect st (ex ++ [cookie_id a]) = Picked b st1 ->
        image (rep :: rest) st (Some a) ex rc i first
        = after this
            (catchRethrow [] (ApiError "RESOURCE_EXHAUSTED" 429)
               (image rest st1 (Some b) (ex ++ [cookie_id a]) (rc + 1) 0 None))).
Proof.
  intros Hf this. destruct rep as [|status text lines]; [discriminate|].
  unfold reachesRetryBranch, quotaFailure in Hf.
  apply andb_prop in Hf. destruct Hf as [Hf H400].
  apply andb_prop in Hf. destruct Hf as [Hf H403].
  apply andb_prop in Hf. destruct Hf as [Hok Hq].
  apply negb_true_iff in Hok, H400, H403.
  cbn [generateImage]. rewrite Hok, H403, H400, Hq.
  repeat split.
  - intros Hrc. apply Nat.leb_le in Hrc. rewrite Hrc. reflexivity.
  - intros Hrc e st1 Es. apply Nat.leb_gt in Hrc. rewrite Hrc.
    fold (reselect st (ex ++ [cookie_id a])). rewrite Es. reflexivity.
  - intros Hrc b st1 Es. apply Nat.leb_gt in Hrc. rewrite Hrc.
    fold (reselect st (ex ++ [cookie_id a])). rewrite Es. reflexivity.
Qed.


Lemma ok_not_403 status : ok status = true -> Nat.eqb status 403 = false.
Proof.
  unfold ok. intros Hok. apply andb_prop in Hok as [_ Hhi].
  apply Nat.leb_le in Hhi. apply Nat.eqb_neq. lia.
Qed.

Lemma endpointUsed_next i :
  Nat.ltb (S (endpointUsed totalEndpoints i)) totalEndpoints
  = Nat.ltb (S i) totalEndpoints.
Proof.
  unfold endpointUsed.
  destruct (Nat.ltb_spec (S i) totalEndpoints);
    [apply Nat.ltb_lt | apply Nat.ltb_ge]; lia.
Qed.

Lemma endpointUsed_S i :
  Nat.ltb (S i) totalEndpoints = true ->
  endpointUsed totalEndpoints (S i) = S (endpointUsed totalEndpoints i).
Proof. unfold endpointUsed. intros Hlt. apply Nat.ltb_lt in Hlt. lia. Qed.

Lemma chat_rotates_from script : forall st a ex rc i first,
  endpointsRotate totalEndpoints
    (attempts (chat script st (Some a) ex rc i first)).
Proof.
  induction script as [|rep rest IH]; intros st a ex rc i first.
  - reflexivity.
  - cbn [generateResponse]. branches.
    all: try (unfold finish; cbn [attempts endpointsRotate];
              unfold rotatesOn, is403; cbn [att_reply att_endpointIndex];
              rewrite ?endpointUsed_next;
              try match goal with Hok : ok _ = true |- _ => apply ok_not_403 in Hok end;
              repeat match goal with
                     | Hc : _ = true |- _ => rewrite Hc
                     | Hc : _ = false |- _ => rewrite Hc
                     end; reflexivity).
    all: unfold after; cbn [attempts];
      rewrite ?attempts_catchReturn, ?attempts_catchRethrow;
      match goal with
      | |- context [attempts (generateResponse _ _ _ _ _ ?sc ?st (Some ?a) ?ex ?rc ?i ?fst)] =>
          let more := fresh "more" in
          let Hm := fresh "Hm" in
          destruct (generateResponse_first_attempt sc st a ex rc i fst) as (more & Hm);
          pose proof (IH st a ex rc i fst) as Hrec;
          rewrite Hm in Hrec |- *
      end;
      (split; [|exact Hrec]);
      unfold followsOn, rotatesOn, is403, recordAfter, firstError403TypeAt,
        permissionDenied;
      cbn [att_reply att_endpointIndex att_cookie att_retryCount
           att_firstError403Type replyText];
      rewrite ?endpointUsed_next;
      repeat match goal with
             | Hc : _ = true |- _ => rewrite Hc
             | Hc : _ = false |- _ => rewrite Hc
             end;
      cbn [andb];
      repeat split; try reflexivity; try (apply endpointUsed_S; assumption).
Qed.

Lemma single_split {A : Type} (a x : A) pre post :
  [a] = pre ++ x :: post -> pre = [] /\ x = a /\ post = [].
Proof.
  destruct pre as [|p pre]; cbn [app].
  - intros [= -> <-]. auto.
  - intros [= _ E]. destruct pre; discriminate.
Qed.

Lemma cons_split {A : Type} (a x : A) l pre post :
  a :: l = pre ++ x :: post ->
  (pre = [] /\ x = a /\ post = l)
  \/ exists pre', pre = a :: pre' /\ l = pre' ++ x :: post.
Proof.
  destruct pre as [|p pre]; cbn [app].
  - intros [= -> <-]. left. auto.
  - intros [= -> ->]. right. eauto.
Qed.

Lemma isDisabled_stored st a :
  In a (accounts st) -> enabled a = true -> isDisabled st (cookie_id a) = false.
Proof.
  intros Hin Hen. unfold isDisabled.
  destruct (forallb _ (accounts st)) eqn:E; [|reflexivity].
  rewrite forallb_forall in E. specialize (E a Hin).
  rewrite String.eqb_refl in E. cbn [negb orb] in E.
  unfold enabled in Hen. apply andb_prop in Hen as [Hs _].
  apply Nat.eqb_eq in Hs. rewrite Hs in E. discriminate.
Qed.

Lemma reselect_in_use st ex b st1 :
  reselect st ex = Picked b st1 -> isDisabled st1 (cookie_id b) = false.
Proof.
  unfold select, getAvailableAccount. intros E.
  apply picked_is_stored in E as [Hin Hen]. now apply isDisabled_stored.
Qed.

Lemma disable_disables st cookie st1 :
  disable st cookie = Some st1 -> isDisabled st1 cookie = true.
Proof.
  unfold disable, updateAccountStatus, updateRow.
  destruct (hasRow (accounts st) cookie); [|discriminate].
  intros [= <-]. unfold isDisabled. cbn [accounts]. apply forallb_forall.
  intros row Hin. apply in_map_iff in Hin. destruct Hin as (row0 & <- & _).
  destruct (String.eqb (cookie_id row0) cookie) eqn:Ec.
  - cbn. apply orb_true_r.
  - rewrite Ec. reflexivity.
Qed.

Lemma disable_usable st cookie :
  isDisabled st cookie = false -> disable st cookie <> None.
Proof.
  intros Hd. unfold disable, updateAccountStatus, updateRow.
  destruct (hasRow (accounts st) cookie) eqn:Hrow; [discriminate|].
  exfalso. unfold isDisabled in Hd. unfold hasRow in Hrow.
  assert (Hall : forallb (fun row => negb (String.eqb (cookie_id row) cookie)
                                     || Nat.eqb (status row) 0) (accounts st) = true).
  { apply forallb_forall. intros row Hin.
    destruct (String.eqb (cookie_id row) cookie) eqn:Ec; [|reflexivity].
    assert (Hex : existsb (fun a => String.eqb (cookie_id a) cookie) (accounts st) = true)
      by (apply existsb_exists; eauto).
    congruence. }
  congruence.
Qed.

(** The catch blocks of the retries leave the store alone and add their
    own event. *)
Lemma caught_catchReturn r :
  (exists caught, events r = EvError "ALL_ENDPOINTS_403" :: caught
                  /\ caughtOutcome (result r) caught) ->
  exists caught,
    events (catchReturn (EvError "RESOURCE_EXHAUSTED") r)
    = EvError "ALL_ENDPOINTS_403" :: caught
    /\ caughtOutcome (result (catchReturn (EvError "RESOURCE_EXHAUSTED") r))
                     caught.
Proof.
  intros (caught & Hev & Hall & Hco). unfold catchReturn.
  destruct (result r) as [|e] eqn:Er.
  - exists caught. rewrite Er. repeat split; assumption.
  - exists (caught ++ [EvError "RESOURCE_EXHAUSTED"]). cbn [events result].
    rewrite Hev. split; [reflexivity|]. split.
    + apply Forall_app. split; [exact Hall|].
      apply Forall_cons; [left; reflexivity | apply Forall_nil].
    + right; left. split; [reflexivity|]. apply in_or_app. right. now left.
Qed.

Lemma caught_catchRethrow r :
  (exists caught, events r = EvError "ALL_ENDPOINTS_403" :: caught
                  /\ caughtOutcome (result r) caught) ->
  exists caught,
    events (catchRethrow [EvError "RESOURCE_PROJECT_INVALID"]
              (ApiError "RESOURCE_PROJECT_INVALID" 400) r)
    = EvError "ALL_ENDPOINTS_403" :: caught
    /\ caughtOutcome
         (result (catchRethrow [EvError "RESOURCE_PROJECT_INVALID"]
                    (ApiError "RESOURCE_PROJECT_INVALID" 400) r))
         caught.
Proof.
  intros (caught & Hev & Hall & Hco). unfold catchRethrow.
  destruct (result r) as [|e] eqn:Er.
  - exists caught. rewrite Er. repeat split; assumption.
  - exists (caught ++ [EvError "RESOURCE_PROJECT_INVALID"]). cbn [events result].
    rewrite Hev. split; [reflexivity|]. split.
    + apply Forall_app. split; [exact Hall|].
      apply Forall_cons; [right; reflexivity | apply Forall_nil].
    + right; right. split; [reflexivity|]. apply in_or_app. right. now left.
Qed.

Lemma final_catchReturn ev r : final (catchReturn ev r) = final r.
Proof. unfold catchReturn. destruct (result r); reflexivity. Qed.

Lemma final_catchRethrow evs e r : final (catchRethrow evs e r) = final r.
Proof. unfold catchRethrow. destruct (result r); reflexivity. Qed.

Ltac rewrite_tests :=
  repeat match goal with
         | Hc : _ = true |- _ => rewrite Hc
         | Hc : _ = false |- _ => rewrite Hc
         end.

Ltac rewrite_tests_in Hex :=
  repeat match goal with
         | Hc : _ = true |- _ =>
             tryif constr_eq Hc Hex then fail else rewrite Hc in Hex
         | Hc : _ = false |- _ =>
             tryif constr_eq Hc Hex then fail else rewrite Hc in Hex
         end.

Lemma chat_ends_forbidden_from script : forall st a ex rc i first,
  isDisabled st (cookie_id a) = false ->
  endsForbidden totalEndpoints (chat script st (Some a) ex rc i first).
Proof.
  induction script as [|rep rest IH]; intros st a ex rc i first Husable;
    unfold endsForbidden.
  - cbn [generateResponse finish attempts]. intros pre x post Hsplit Hex.
    apply single_split in Hsplit as (-> & -> & ->). discriminate Hex.
  - cbn [generateResponse]. branches.
    all: try match goal with Hok : ok _ = true |- _ => apply ok_not_403 in Hok end.
    all: try match goal with
             | Hc : negb (String.eqb ?s ?t) = _ |- _ =>
                 solve [vm_compute in Hc; discriminate Hc]
             end.
    all: try match goal with
             | Hd : disable _ _ = None, Hs : (_ =? 403)%nat = true |- _ =>
                 solve [exfalso; exact (disable_usable _ _ Husable Hd)]
             end.
    all: try solve
      [ unfold finish; cbn [attempts final events result];
        intros pre x post Hsplit Hex;
        apply single_split in Hsplit as (-> & -> & ->);
        unfold exhaustsOn, is403 in Hex; cbn [att_reply att_endpointIndex] in Hex;
        first
          [ rewrite_tests_in Hex; cbn in Hex; discriminate Hex
          | split; [reflexivity|];
            split;
            [ unfold recordAfter, firstError403TypeAt, permissionDenied;
              cbn [att_cookie att_firstError403Type att_reply replyText];
              try match goal with
                  | Hd : disable _ _ = Some _ |- _ =>
                      rewrite (disable_disables _ _ _ Hd)
                  end;
              rewrite_tests; reflexivity
            | split;
              [ exists []; split; [reflexivity|];
                split; [apply Forall_nil | left; auto]
              | intros _; auto ] ] ] ].
    all: unfold after; cbn [attempts final events result];
      rewrite ?attempts_catchReturn, ?attempts_catchRethrow,
              ?final_catchReturn, ?final_catchRethrow;
      match goal with
      | |- context [attempts (generateResponse _ _ _ _ _ ?sc ?st1 (Some ?b)
                                ?ex1 ?rc1 ?i1 ?fst1)] =>
          pose proof (IH st1 b ex1 rc1 i1 fst1) as Hrec;
          assert (Hu : isDisabled st1 (cookie_id b) = false)
            by (first [exact Husable | eapply reselect_in_use; eassumption])
      end;
      intros pre x post Hsplit Hex;
      apply cons_split in Hsplit as [(-> & -> & ->) | (pre' & -> & Hsplit)];
      [ exfalso; unfold exhaustsOn, is403 in Hex;
        cbn [att_reply att_endpointIndex] in Hex;
        rewrite ?endpointUsed_next in Hex;
        rewrite_tests_in Hex; cbn in Hex; discriminate Hex
      | destruct (Hrec Hu pre' x post Hsplit Hex)
          as (Hpost & Hdis & Hcaught & Hall);
        split; [exact Hpost|]; split; [exact Hdis|]; split;
        [ first [ exact Hcaught
                | apply caught_catchReturn; exact Hcaught
                | apply caught_catchRethrow; exact Hcaught ]
        | intros Hrot; inversion Hrot as [|? ? Hthis Hrest]; subst;
          first
            [ exact (Hall Hrest)
            | exfalso; unfold rotatesOn, is403 in Hthis;
              cbn [att_reply att_endpointIndex] in Hthis;
              rewrite_tests_in Hthis; cbn in Hthis; discriminate Hthis ] ] ].
Qed.

Lemma endpointsRotate_pair pre : forall a b post,
  endpointsRotate totalEndpoints (pre ++ a :: b :: post) ->
  followsOn totalEndpoints a b.
Proof.
  induction pre as [|p pre IH]; intros a b post Hr.
  - exact (proj1 Hr).
  - cbn [app] in Hr. destruct (pre ++ a :: b :: post) as [|q l] eqn:E.
    + destruct pre; discriminate.
    + apply (IH a b post). rewrite E. exact (proj2 Hr).
Qed.

Lemma hd_app_cons {A : Type} (d d' x : A) l more :
  hd d ((x :: l) ++ more) = hd d' (x :: l).
Proof. reflexivity. Qed.

(** An attempt answered 403 closes the rotation of its credential, which
    started at the first endpoint with no 403 on record. *)
Lemma rotation_behind atts :
  endpointsRotate totalEndpoints atts ->
  startsAfresh atts ->
  forall j pre x post,
    atts = pre ++ x :: post ->
    att_endpointIndex x = j ->
    is403 (att_reply x) = true ->
    exists before rot,
      pre ++ [x] = before ++ rot
      /\ map att_cookie rot = repeat (att_cookie x) (S j)
      /\ map att_endpointIndex rot = seq 0 (S j)
      /\ Forall (fun a => is403 (att_reply a) = true) rot
      /\ j < Nat.max 1 totalEndpoints
      /\ recordAfter x
         = if permissionDenied (replyText (att_reply (hd x rot)))
           then "PERMISSION_DENIED" else "403".
Proof.
  intros Hrot Hstart.
  induction j as [|k IH]; intros pre x post Hsplit Hj H403.
  - exists pre, [x]. cbn [map repeat seq hd]. rewrite Hj.
    repeat split; auto; [lia|].
    assert (Hnone : att_firstError403Type x = None).
    { destruct pre as [|p pre'] using rev_ind.
      - subst atts. exact (proj2 (proj2 Hstart)).
      - subst atts. rewrite <- app_assoc in Hrot. cbn [app] in Hrot.
        apply endpointsRotate_pair in Hrot. unfold followsOn in Hrot.
        destruct (rotatesOn totalEndpoints p); [|exact (proj2 Hrot)].
        destruct Hrot as (_ & Hi & _). congruence. }
    unfold recordAfter. rewrite Hnone. reflexivity.
  - destruct pre as [|a pre' _] using rev_ind.
    { subst atts. destruct Hstart as (Hi & _). cbn [app] in Hi. congruence. }
    pose proof Hrot as Hpair. rewrite Hsplit, <- app_assoc in Hpair.
    cbn [app] in Hpair. apply endpointsRotate_pair in Hpair.
    unfold followsOn in Hpair.
    destruct (rotatesOn totalEndpoints a) eqn:Ha;
      [|destruct Hpair as (Hi & _); congruence].
    destruct Hpair as (Hc & Hi & _ & Hrec).
    unfold rotatesOn in Ha. apply andb_prop in Ha as [Ha403 Hlt].
    apply Nat.ltb_lt in Hlt.
    assert (Hk : att_endpointIndex a = k) by congruence.
    destruct (IH pre' a (x :: post)) as (before & rot & Hb & Hcs & His & Hall & _ & Hra);
      [rewrite Hsplit, <- app_assoc; reflexivity | exact Hk | exact Ha403 |].
    exists before, (rot ++ [x]). split; [rewrite Hb, app_assoc; reflexivity|].
    split; [rewrite map_app, Hcs; cbn [map]; rewrite Hc, <- repeat_cons; reflexivity|].
    split; [rewrite map_app, His, (seq_S (S k) 0); cbn [map]; rewrite Hj; reflexivity|].
    split; [apply Forall_app; split; [exact Hall | repeat constructor; exact H403]|].
    split; [lia|].
    destruct rot as [|r0 rot']; [discriminate Hcs|].
    rewrite (hd_app_cons x a). rewrite <- Hra.
    unfold recordAfter at 1. rewrite Hrec. reflexivity.
Qed.

Lemma chat_disabling_rule (r : run) :
  endpointsRotate totalEndpoints (attempts r) ->
  startsAfresh (attempts r) ->
  endsForbidden totalEndpoints r ->
  disablingRuleOverCredential totalEndpoints r.
Proof.
  intros Hrot Hstart Hend pre x post Hsplit Hex.
  destruct (Hend pre x post Hsplit Hex) as (-> & Hdis & _).
  pose proof Hex as Hex'. unfold exhaustsOn in Hex'.
  apply andb_prop in Hex' as [H403 Hlast]. apply negb_true_iff, Nat.ltb_ge in Hlast.
  destruct (rotation_behind _ Hrot Hstart _ pre x [] Hsplit eq_refl H403)
    as (before & rot & Hb & Hcs & His & Hall & Hlt & Hra).
  assert (Hlen : S (att_endpointIndex x) = Nat.max 1 totalEndpoints) by lia.
  exists before, rot. split; [rewrite Hsplit; exact Hb|].
  split; [unfold rotation; rewrite <- Hlen; auto|].
  rewrite Hdis, Hra.
  destruct (permissionDenied (replyText (att_reply (hd x rot)))); reflexivity.
Qed.

Lemma chat_starts_afresh script st ex :
  startsAfresh (attempts (chat script st None ex 0 0 None)).
Proof.
  rewrite generateResponse_selects. destruct (reselect st ex) as [a st0|e st0];
    [|exact I].
  destruct (generateResponse_first_attempt script st0 a ex 0 0 None) as (more & ->).
  repeat split.
Qed.

(** C1 (as amended).  Along every chat request: the request starts at the
    first endpoint with no 403 on record; a 403 reply while more configured
    endpoints remain is followed by one more attempt, with the same
    credential and retry count on the next endpoint; after any other reply
    the next attempt starts at the first endpoint with no 403 on record.  A
    403 reply on the last endpoint is the last attempt of the request: the
    credential has been tried on every endpoint in order and refused each
    time, it is disabled if and only if the first 403 text of that rotation
    (the first 403 seen since the credential was taken into use) is not a
    permission denial, and the error event [ALL_ENDPOINTS_403] is sent in
    either case.  The call throws the ApiError of that name; it is the
    outcome of the request when only 403 replies came before, otherwise the
    catch of a quota retry around the call reports RESOURCE_EXHAUSTED and
    returns, or the catch of a project retry throws
    RESOURCE_PROJECT_INVALID. *)
Theorem all_endpoints_forbidden
    (script : list reply) (st : store) (excludeCookieIds : list string) :
  let r := chat script st None excludeCookieIds 0 0 None in
  startsAfresh (attempts r)
  /\ endpointsRotate totalEndpoints (attempts r)
  /\ endsForbidden totalEndpoints r
  /\ disablingRuleOverCredential totalEndpoints r.
Proof.
  intros r.
  assert (Hrot : endpointsRotate totalEndpoints (attempts r)).
  { unfold r. rewrite generateResponse_selects.
    destruct (reselect st excludeCookieIds) as [a st0|e st0];
      [apply chat_rotates_from | exact I]. }
  assert (Hend : endsForbidden totalEndpoints r).
  { unfold r. rewrite generateResponse_selects.
    destruct (reselect st excludeCookieIds) as [a st0|e st0] eqn:Es.
    - apply chat_ends_forbidden_from. exact (reselect_in_use _ _ _ _ Es).
    - intros [|p pre] x post Hsplit; discriminate Hsplit. }
  pose proof (chat_starts_afresh script st excludeCookieIds) as Hstart.
  split; [exact Hstart|]. split; [exact Hrot|]. split; [exact Hend|].
  now apply chat_disabling_rule.
Qed.


Lemma catchReturn_returned ev r : result r = Returned -> catchReturn ev r = r.
Proof. unfold catchReturn. now intros ->. Qed.

Lemma catchRethrow_returned evs e r :
  result r = Returned -> catchRethrow evs e r = r.
Proof. unfold catchRethrow. now intros ->. Qed.

Lemma catchRethrow_threw evs e r e0 :
  result r = Threw e0 ->
  result (catchRethrow evs e r) = Threw e
  /\ events (catchRethrow evs e r) = events r ++ evs.
Proof. unfold catchRethrow. intros ->. split; reflexivity. Qed.

Ltac not_the_retry_branch Hreach :=
  unfold reachesRetryBranch, quotaFailure in Hreach;
  try match goal with Hok : ok _ = true |- _ => rewrite Hok in Hreach end;
  rewrite_tests_in Hreach;
  cbn [negb andb orb] in Hreach;
  rewrite ?andb_false_r in Hreach;
  cbn [negb andb orb] in Hreach;
  discriminate Hreach.

Lemma chat_ends_exhausted_from script : forall st a ex rc i first,
  chatEndsExhausted (chat script st (Some a) ex rc i first).
Proof.
  induction script as [|rep rest IH]; intros st a ex rc i first;
    unfold chatEndsExhausted.
  - cbn [generateResponse finish attempts]. intros pre x Hsplit Hreach.
    apply single_split in Hsplit as (-> & -> & _). discriminate Hreach.
  - cbn [generateResponse]. branches.
    all: try solve
      [ unfold finish; cbn [attempts final events result];
        intros pre x Hsplit Hreach;
        apply single_split in Hsplit as (-> & -> & _);
        cbn [att_reply] in Hreach;
        first [ not_the_retry_branch Hreach | split; reflexivity ] ].
    all: unfold after; cbn [attempts final events result];
      rewrite ?attempts_catchReturn, ?attempts_catchRethrow;
      match goal with
      | |- context [attempts (generateResponse _ _ _ _ _ ?sc ?st1 (Some ?b)
                                ?ex1 ?rc1 ?i1 ?fst1)] =>
          pose proof (IH st1 b ex1 rc1 i1 fst1) as Hrec;
          destruct (generateResponse_first_attempt sc st1 b ex1 rc1 i1 fst1)
            as (more & Hm)
      end;
      intros pre x Hsplit Hreach;
      apply cons_split in Hsplit as [(_ & _ & Hnone) | (pre' & -> & Hsplit)];
      [ rewrite Hm in Hnone; discriminate Hnone
      | destruct (Hrec pre' x Hsplit Hreach) as (Hres & Hev);
        rewrite ?(catchReturn_returned _ _ Hres),
                ?(catchRethrow_returned _ _ _ Hres);
        split; assumption ].
Qed.

Lemma image_ends_exhausted_from script : forall st a ex rc i first,
  imageEndsExhausted (image script st (Some a) ex rc i first).
Proof.
  induction script as [|rep rest IH]; intros st a ex rc i first;
    unfold imageEndsExhausted.
  - cbn [generateImage finish attempts]. intros pre x Hsplit Hreach.
    apply single_split in Hsplit as (-> & -> & _). discriminate Hreach.
  - cbn [generateImage]. branches.
    all: try solve
      [ unfold finish; cbn [attempts final events result];
        intros pre x Hsplit Hreach;
        apply single_split in Hsplit as (-> & -> & _);
        cbn [att_reply] in Hreach;
        first [ not_the_retry_branch Hreach
              | split; [reflexivity | left; reflexivity] ] ].
    all: unfold after; cbn [attempts final events result];
      rewrite ?attempts_catchReturn, ?attempts_catchRethrow;
      match goal with
      | |- context [attempts (generateImage _ _ _ _ _ ?sc ?st1 (Some ?b)
                                ?ex1 ?rc1 ?i1 ?fst1)] =>
          pose proof (IH st1 b ex1 rc1 i1 fst1) as Hrec;
          destruct (generateImage_first_attempt sc st1 b ex1 rc1 i1 fst1)
            as (more & Hm)
      end;
      intros pre x Hsplit Hreach;
      apply cons_split in Hsplit as [(_ & _ & Hnone) | (pre' & -> & Hsplit)];
      [ rewrite Hm in Hnone; discriminate Hnone
      | destruct (Hrec pre' x Hsplit Hreach) as (Hev & Hres) ].
    all: try match goal with
      | |- context [catchRethrow ?evs ?e ?rec] =>
          let Hthrew := fresh "Hthrew" in
          assert (Hthrew : exists e0, result rec = Threw e0)
            by (destruct Hres as [-> | [-> _]]; eauto);
          destruct Hthrew as (e0 & Hthrew);
          destruct (catchRethrow_threw evs e rec e0 Hthrew) as (-> & ->);
          rewrite Hev
      end.
    all: (split; [reflexivity || exact Hev|]).
    all: first
      [ left; reflexivity
      | right; split; [reflexivity|]; apply Exists_cons_hd;
        unfold projectInvalid; cbn [att_reply]; rewrite_tests; reflexivity
      | destruct Hres as [Hres | [Hres Hex]];
        [left; exact Hres | right; split; [exact Hres | apply Exists_cons_tl; exact Hex]] ].
Qed.


(** The 400 branch for a body with a quota marker: the request is sent
    again with another credential, and with the defaults for the rest. *)
Lemma chat_quota_400_resends text lines rest st a ex rc i first b st1 :
  quotaMarked text = true ->
  reselect st (ex ++ [cookie_id a]) = Picked b st1 ->
  exists more,
    attempts (chat (Response 400 text lines :: rest) st (Some a) ex rc i first)
    = mkAttempt (cookie_id a) rc (endpointUsed totalEndpoints i) first
        (Response 400 text lines)
      :: mkAttempt (cookie_id b) 0 0 None (hd NetworkError rest) :: more.
Proof.
  intros Hq Es. cbn [generateResponse].
  change (ok 400) with false. change (Nat.eqb 400 403) with false.
  change (Nat.eqb 400 400) with true. cbn iota. rewrite Hq.
  fold (reselect st (ex ++ [cookie_id a])). rewrite Es.
  unfold after. cbn [attempts]. rewrite attempts_catchReturn.
  destruct (generateResponse_first_attempt rest st1 b (ex ++ [cookie_id a])
              0 0 None) as (more & ->).
  exists more. reflexivity.
Qed.

Lemma image_quota_400_resends text lines rest st a ex rc i first b st1 :
  quotaMarked text = true ->
  reselect st (ex ++ [cookie_id a]) = Picked b st1 ->
  exists more,
    attempts (image (Response 400 text lines :: rest) st (Some a) ex rc i first)
    = mkAttempt (cookie_id a) rc (endpointUsed totalEndpoints i) first
        (Response 400 text lines)
      :: mkAttempt (cookie_id b) 0 0 None (hd NetworkError rest) :: more.
Proof.
  intros Hq Es. cbn [generateImage].
  change (ok 400) with false. change (Nat.eqb 400 403) with false.
  change (Nat.eqb 400 400) with true. cbn iota. rewrite Hq.
  fold (reselect st (ex ++ [cookie_id a])). rewrite Es.
  unfold after. cbn [attempts]. rewrite attempts_catchRethrow.
  destruct (generateImage_first_attempt rest st1 b (ex ++ [cookie_id a])
              0 0 None) as (more & ->).
  exists more. reflexivity.
Qed.

(** C2 (as amended).  A reply that is not 2xx, neither 403 nor 400, and
    that is HTTP 429 or carries a quota marker is answered below the ceiling
    (5 for [generateResponse], 3 for [generateImage]), when another
    credential can be selected, by one more attempt, made with that
    credential at the first endpoint and with the retry count raised by
    one; along a request every attempt that follows such a reply is of that
    kind.  At the ceiling, or when no other credential can be selected, no
    further attempt is made and the request ends with RESOURCE_EXHAUSTED:
    for chat as the one error event followed by a normal return, whatever
    retries are around the call; for images as a thrown ApiError with
    status 429, in whose place the catch of an earlier retry for an invalid
    project throws RESOURCE_PROJECT_INVALID.  A 400 reply with a quota
    marker does not reach that branch: when another credential can be
    selected the request is sent again with it and with the retry count
    back at 0, whatever the count was. *)
Theorem quota_retries_are_bounded
    (script : list reply) (st : store) (account : option account)
    (excludeCookieIds : list string) (retryCount endpointIndex : nat)
    (firstError403Type : option string) :
  let chatRun := chat script st account excludeCookieIds retryCount
                   endpointIndex firstError403Type in
  let imageRun := image script st account excludeCookieIds retryCount
                    endpointIndex firstError403Type in
  retriesCounted reachesRetryBranch 5 (attempts chatRun)
  /\ retriesCounted reachesRetryBranch 3 (attempts imageRun)
  /\ chatEndsExhausted chatRun
  /\ imageEndsExhausted imageRun
  /\ (forall a rep rest,
       account = Some a ->
       script = rep :: rest ->
       reachesRetryBranch rep = true ->
       let this := mkAttempt (cookie_id a) retryCount
                     (endpointUsed totalEndpoints endpointIndex)
                     firstError403Type rep in
       let newExcludeList := excludeCookieIds ++ [cookie_id a] in
       (5 <= retryCount ->
        chatRun = finish st [EvError "RESOURCE_EXHAUSTED"] Returned this)
       /\ (3 <= retryCount ->
           imageRun
           = finish st [] (Threw (ApiError "RESOURCE_EXHAUSTED" 429)) this)
       /\ (forall e st1,
             reselect st newExcludeList = Failed e st1 ->
             (retryCount < 5 ->
              chatRun = finish st1 [EvError "RESOURCE_EXHAUSTED"] Returned this)
             /\ (retryCount < 3 ->
                 imageRun
                 = finish st1 [] (Threw (ApiError "RESOURCE_EXHAUSTED" 429))
                     this))
       /\ (forall b st1,
             reselect st newExcludeList = Picked b st1 ->
             let next := mkAttempt (cookie_id b) (retryCount + 1) 0 None
                           (hd NetworkError rest) in
             (retryCount < 5 ->
              exists more, attempts chatRun = this :: next :: more)
             /\ (retryCount < 3 ->
                 exists more, attempts imageRun = this :: next :: more)))
  /\ forall a text lines rest,
       account = Some a ->
       script = Response 400 text lines :: rest ->
       quotaMarked text = true ->
       forall b st1,
         reselect st (excludeCookieIds ++ [cookie_id a]) = Picked b st1 ->
         let this := mkAttempt (cookie_id a) retryCount
                       (endpointUsed totalEndpoints endpointIndex)
                       firstError403Type (Response 400 text lines) in
         let next := mkAttempt (cookie_id b) 0 0 None (hd NetworkError rest) in
         (exists more, attempts chatRun = this :: next :: more)
         /\ (exists more, attempts imageRun = this :: next :: more).
Proof.
  intros chatRun imageRun. subst chatRun imageRun.
  split; [|split; [|split; [|split; [|split]]]].
  - destruct account as [a|]; [apply chat_retries_counted_from|].
    rewrite generateResponse_selects.
    destruct (reselect st excludeCookieIds);
      [apply chat_retries_counted_from | exact I].
  - destruct account as [a|]; [apply image_retries_counted_from|].
    rewrite generateImage_selects.
    destruct (reselect st excludeCookieIds);
      [apply image_retries_counted_from | exact I].
  - destruct account as [a|]; [apply chat_ends_exhausted_from|].
    rewrite generateResponse_selects.
    destruct (reselect st excludeCookieIds);
      [apply chat_ends_exhausted_from|].
    intros [|p pre] x Hsplit; discriminate Hsplit.
  - destruct account as [a|]; [apply image_ends_exhausted_from|].
    rewrite generateImage_selects.
    destruct (reselect st excludeCookieIds);
      [apply image_ends_exhausted_from|].
    intros [|p pre] x Hsplit; discriminate Hsplit.
  - intros a rep rest -> -> Hf. cbv zeta.
    destruct (chat_retry_branch_ends rep rest st a excludeCookieIds retryCount
                endpointIndex firstError403Type Hf) as (Hc1 & Hc2 & Hc3).
    destruct (image_retry_branch_ends rep rest st a excludeCookieIds retryCount
                endpointIndex firstError403Type Hf) as (Hi1 & Hi2 & Hi3).
    split; [exact Hc1|]. split; [exact Hi1|]. split.
    + intros e st1 Es. split; intros Hrc; eauto.
    + intros b st1 Es. split; intros Hrc.
      * rewrite (Hc3 Hrc b st1 Es). unfold after. cbn [attempts].
        rewrite attempts_catchReturn.
        destruct (generateResponse_first_attempt rest st1 b (excludeCookieIds ++ [cookie_id a])
                    (retryCount + 1) 0 None) as (more & ->).
        exists more. reflexivity.
      * rewrite (Hi3 Hrc b st1 Es). unfold after. cbn [attempts].
        rewrite attempts_catchRethrow.
        destruct (generateImage_first_attempt rest st1 b (excludeCookieIds ++ [cookie_id a])
                    (retryCount + 1) 0 None) as (more & ->).
        exists more. reflexivity.
  - intros a text lines rest -> -> Hq b st1 Es. cbv zeta. split.
    + exact (chat_quota_400_resends _ _ _ _ _ _ _ _ _ _ _ Hq Es).
    + exact (image_quota_400_resends _ _ _ _ _ _ _ _ _ _ _ Hq Es).
Qed.

End Orchestrator.

(** Alice's credential is rate limited with no retry counted yet: the
    request is sent again with Bob's credential and the retry count 1; at
    the ceiling nothing is sent again. *)
Lemma quota_retries_are_bounded_witness :
  let rep := Response 429 "Too Many Requests" [] in
  let done := Response 200 "" [] in
  let alice := Samples.credential "alice-2" "alice" 0 9000000 in
  let bob := Samples.credential "bob-1" "bob" 1 9000000 in
  (exists more,
     attempts (@generateResponse Samples.host Samples.sampleWorld 3 "alice"
                 "gemini-2.5-pro" 0 [rep; done] Samples.twoCredentials
                 (Some alice) [] 0 0 None)
     = mkAttempt "alice-2" 0 0 None rep :: mkAttempt "bob-1" 1 0 None done
       :: more)
  /\ @generateResponse Samples.host Samples.sampleWorld 3 "alice"
       "gemini-2.5-pro" 0 [rep] Samples.twoCredentials (Some bob) [] 5 0 None
     = finish Samples.twoCredentials [EvError "RESOURCE_EXHAUSTED"] Returned
         (mkAttempt "bob-1" 5 0 None rep)
  /\ @generateImage Samples.host Samples.sampleWorld 3 "alice"
       "gemini-2.5-pro" 0 [rep] Samples.twoCredentials (Some bob) [] 3 0 None
     = finish Samples.twoCredentials [] (Threw (ApiError "RESOURCE_EXHAUSTED" 429))
         (mkAttempt "bob-1" 3 0 None rep).
Proof.
  intros rep done alice bob. split; [|split].
  - destruct (@quota_retries_are_bounded Samples.host Samples.sampleWorld 3
                "alice" "gemini-2.5-pro" 0 [rep; done] Samples.twoCredentials
                (Some alice) [] 0 0 None) as (_ & _ & _ & _ & Hcall & _).
    destruct (Hcall alice rep [done] eq_refl eq_refl eq_refl)
      as (_ & _ & _ & Hretry).
    apply (Hretry bob (Selector.mkStore (accounts Samples.twoCredentials) 1)).
    + vm_compute. reflexivity.
    + lia.
  - destruct (@quota_retries_are_bounded Samples.host Samples.sampleWorld 3
                "alice" "gemini-2.5-pro" 0 [rep] Samples.twoCredentials
                (Some bob) [] 5 0 None) as (_ & _ & _ & _ & Hcall & _).
    destruct (Hcall bob rep [] eq_refl eq_refl eq_refl) as (Hchat & _).
    apply Hchat. apply le_n.
  - destruct (@quota_retries_are_bounded Samples.host Samples.sampleWorld 3
                "alice" "gemini-2.5-pro" 0 [rep] Samples.twoCredentials
                (Some bob) [] 3 0 None) as (_ & _ & _ & _ & Hcall & _).
    destruct (Hcall bob rep [] eq_refl eq_refl eq_refl) as (_ & Himage & _).
    apply Himage. apply le_n.
Defined.

(** C2, as stated, fails on the sample request [Samples.quotaThenSuccess]:
    the first reply carries a quota marker with status 400, and the
    request is sent again with the retry count still at zero. *)
Lemma every_quota_failure_counted_fails :
  ~ retriesCounted quotaFailure 5 (attempts Samples.quotaThenSuccessRun).
Proof.
  intros [Hstep _]. destruct (Hstep eq_refl) as (_ & Hcount & _). discriminate.
Qed.

(** In the sample request [Samples.refusedTwice] the replacement credential
    is refused on each of the three endpoints: these three attempts end the
    request, the credential is disabled because the first of its 403 texts
    is no permission denial, and the catch of the quota retry turns the
    error into RESOURCE_EXHAUSTED. *)
Lemma all_endpoints_forbidden_witness :
  let r := Samples.refusedTwiceRun in
  let x := mkAttempt "bob-1" 1 2 (Some "403") (Response 403 "Forbidden" []) in
  endpointsRotate 3 (attempts r)
  /\ isDisabled (final r) "bob-1" = true
  /\ (exists caught,
        events r = EvError "ALL_ENDPOINTS_403" :: caught
        /\ caughtOutcome (result r) caught)
  /\ (exists before rot,
        attempts r = before ++ rot
        /\ rotation 3 "bob-1" rot
        /\ isDisabled (final r) "bob-1"
           = negb (permissionDenied (replyText (att_reply (hd x rot))))).
Proof.
  intros r x.
  destruct (@all_endpoints_forbidden Samples.host Samples.sampleWorld 3 "alice"
              "gemini-2.5-pro" 0 Samples.refusedTwice Samples.twoCredentials [])
    as (_ & Hrot & Hend & Hrule).
  split; [exact Hrot|].
  destruct (Hend (firstn 4 (attempts r)) x [] eq_refl eq_refl)
    as (_ & Hdis & Hcaught & _).
  split; [exact Hdis|]. split; [exact Hcaught|].
  exact (Hrule (firstn 4 (attempts r)) x [] eq_refl eq_refl).
Defined.

(** C1, as stated, fails on the sample request [Samples.refusedTwice]: the
    first 403 text of the request is a permission denial, all endpoints
    are reported forbidden, and the credential last used is disabled all
    the same, because the record of the first 403 starts anew with each
    credential. *)
Lemma disabling_rule_over_request_fails :
  ~ disablingRuleOverRequest Samples.refusedTwiceRun.
Proof.
  intros Hrule.
  assert (Hev : In (EvError "ALL_ENDPOINTS_403") (events Samples.refusedTwiceRun))
    by (left; reflexivity).
  specialize (Hrule Hev "bob-1" Samples.denied eq_refl eq_refl).
  destruct Hrule as [Hrule _]. specialize (Hrule eq_refl). discriminate.
Qed.

End ClientFacts.

(* ====================================================================== *)
(** * Facts: the binary length-prefixed stream *)
(* ====================================================================== *)

Module KiroFacts.
Import JS Kiro.

Lemma readUInt32BE_app buf rest offset v :
  readUInt32BE buf offset = Some v -> readUInt32BE (buf ++ rest) offset = Some v.
Proof.
  unfold readUInt32BE. rewrite skipn_app.
  destruct (skipn offset buf) as [|b0 [|b1 [|b2 [|b3 more]]]]; try discriminate.
  intros E. exact E.
Qed.

Lemma completeFrame_length frame :
  completeFrame frame -> 16 <= List.length frame.
Proof. intros (t & _ & -> & Hr & _). lia. Qed.

(** The round that meets a complete frame takes exactly that frame. *)
Lemma nextRound_frame frame rest :
  completeFrame frame -> nextRound (frame ++ rest) = Frame frame rest.
Proof.
  intros (t & Hread & Ht & Hlo & Hhi). unfold nextRound.
  assert (Hlen : 16 <= List.length frame) by lia.
  rewrite length_app.
  destruct (Nat.ltb_spec (List.length frame + List.length rest) 16); [lia|].
  rewrite (readUInt32BE_app _ _ _ _ Hread).
  destruct (N.ltb_spec t 16); [lia|].
  destruct (N.ltb_spec (16 * 1024 * 1024) t); [lia|]. cbn [orb].
  destruct (N.ltb_spec (N.of_nat (List.length frame + List.length rest)) t); [lia|].
  subst t. rewrite Nat2N.id.
  rewrite firstn_app, Nat.sub_diag, firstn_all, firstn_O, app_nil_r.
  rewrite skipn_app, Nat.sub_diag, skipn_all. reflexivity.
Qed.

Lemma nextRound_shrinks buffer :
  match nextRound buffer with
  | Stop => True
  | Resync buffer' => List.length buffer' < List.length buffer
  | Frame _ buffer' => List.length buffer' < List.length buffer
  end.
Proof.
  unfold nextRound.
  destruct (Nat.ltb_spec (List.length buffer) 16); [exact I|].
  destruct (readUInt32BE buffer 0) as [t|]; [|exact I].
  destruct (N.ltb_spec t 16); cbn [orb].
  { rewrite length_skipn. lia. }
  destruct (N.ltb_spec (16 * 1024 * 1024) t).
  { rewrite length_skipn. lia. }
  destruct (N.ltb_spec (N.of_nat (List.length buffer)) t); [exact I|].
  rewrite length_skipn. lia.
Qed.

Section WithHost.
Context {H : Host}.

(** The loop never needs more rounds than the buffer has bytes. *)
Lemma drainFrom_enough fuel1 : forall fuel2 buffer,
  List.length buffer <= fuel1 -> List.length buffer <= fuel2 ->
  drainFrom fuel1 buffer = drainFrom fuel2 buffer.
Proof.
  induction fuel1 as [|fuel1 IH]; intros fuel2 buffer H1 H2.
  - destruct buffer; [|simpl in H1; lia]. destruct fuel2; reflexivity.
  - destruct fuel2 as [|fuel2].
    + destruct buffer; [reflexivity | simpl in H2; lia].
    + cbn [drainFrom]. pose proof (nextRound_shrinks buffer) as Hs.
      destruct (nextRound buffer) as [|buffer'|messageData buffer'].
      * reflexivity.
      * apply IH; lia.
      * rewrite (IH fuel2 buffer'); [reflexivity | lia | lia].
Qed.

Lemma drain_frame frame rest :
  completeFrame frame ->
  drain (frame ++ rest)
  = (delivered frame ++ fst (drain rest), snd (drain rest)).
Proof.
  intros Hc. unfold drain. pose proof (completeFrame_length _ Hc) as Hlen.
  rewrite length_app.
  destruct (List.length frame + List.length rest) as [|n] eqn:En; [lia|].
  cbn [drainFrom]. rewrite (nextRound_frame _ _ Hc).
  rewrite (drainFrom_enough n (List.length rest) rest); [|lia|lia].
  destruct (drainFrom (List.length rest) rest). reflexivity.
Qed.

Lemma parseSingleMessage_inverted frame :
  invertedOffsets frame -> parseSingleMessage frame = Throws.
Proof.
  intros ((t & Hread & Ht & Hlo & Hhi) & h & Hh & Hinv).
  unfold parseSingleMessage.
  destruct (Nat.ltb_spec (List.length frame) 16); [lia|].
  rewrite Hread, Hh. subst t. rewrite N.eqb_refl. cbn [negb].
  destruct (N.ltb_spec (N.of_nat (List.length frame) - 4) (12 + h)); [|lia].
  reflexivity.
Qed.

(** What the loop hands to [parseSingleMessage] is a complete frame, the
    start of the buffer. *)
Lemma nextRound_takes_complete buffer messageData buffer' :
  nextRound buffer = Frame messageData buffer' ->
  completeFrame messageData /\ buffer = messageData ++ buffer'.
Proof.
  unfold nextRound.
  destruct (Nat.ltb_spec (List.length buffer) 16) as [|Hlen]; [discriminate|].
  destruct (readUInt32BE buffer 0) as [t|] eqn:Hread; [|discriminate].
  destruct (N.ltb_spec t 16) as [|Hlo]; [discriminate|].
  destruct (N.ltb_spec (16 * 1024 * 1024) t) as [|Hhi]; [discriminate|].
  cbn [orb].
  destruct (N.ltb_spec (N.of_nat (List.length buffer)) t) as [|Hfit];
    [discriminate|].
  intros E. injection E as <- <-. split.
  - assert (Hl : List.length (firstn (N.to_nat t) buffer) = N.to_nat t)
      by (rewrite length_firstn; lia).
    exists t. split; [|split; [rewrite Hl; lia | lia]].
    unfold readUInt32BE in *. cbn [skipn] in *.
    destruct buffer as [|b0 [|b1 [|b2 [|b3 more]]]]; try discriminate.
    destruct (N.to_nat t) as [|[|[|[|n]]]] eqn:En; try lia.
    cbn [firstn]. exact Hread.
  - symmetry. apply firstn_skipn.
Qed.

(** On a complete frame [parseSingleMessage] throws for inverted payload
    offsets and for nothing else. *)
Lemma parseSingleMessage_throws frame :
  completeFrame frame ->
  parseSingleMessage frame = Throws <-> invertedOffsets frame.
Proof.
  intros Hc. split; [|apply parseSingleMessage_inverted].
  destruct Hc as (t & Hread & Ht & Hlo & Hhi).
  intros Hthrows. split; [exists t; repeat split; assumption|].
  unfold parseSingleMessage in Hthrows.
  destruct (Nat.ltb_spec (List.length frame) 16); [discriminate|].
  rewrite Hread in Hthrows.
  destruct (readUInt32BE frame 4) as [h|] eqn:Hh.
  - exists h. split; [reflexivity|].
    rewrite Ht, N.eqb_refl in Hthrows. cbn [negb] in Hthrows.
    destruct (N.ltb_spec (N.of_nat (List.length frame) - 4) (12 + h)) as [Hinv|];
      [exact Hinv|].
    destruct (N.ltb_spec (N.of_nat (List.length frame))
                         (N.of_nat (List.length frame) - 4)); [lia|].
    cbn [orb] in Hthrows.
    destruct (slice frame _ _); [discriminate|].
    destruct (JSON_parse _); discriminate.
  - exfalso. unfold readUInt32BE in Hh.
    destruct frame as [|a0 [|a1 [|a2 [|a3 [|a4 [|a5 [|a6 [|a7 more]]]]]]]];
      cbn [List.length] in *; try lia.
    cbn [skipn] in Hh. discriminate.
Qed.

(** The loop moves on by one byte exactly for a length out of range. *)
Lemma resumesAtNextByte_iff buffer :
  16 <= List.length buffer ->
  resumesAtNextByte buffer <-> lengthOutOfRange buffer.
Proof.
  intros Hlen. unfold resumesAtNextByte, lengthOutOfRange, nextRound.
  destruct (Nat.ltb_spec (List.length buffer) 16); [lia|].
  destruct (readUInt32BE buffer 0) as [t|] eqn:Hread.
  2:{ exfalso. unfold readUInt32BE in Hread.
      destruct buffer as [|b0 [|b1 [|b2 [|b3 more]]]];
        cbn [List.length] in *; try lia.
      cbn [skipn] in Hread. discriminate. }
  destruct (N.ltb_spec t 16) as [Hlo|Hlo]; cbn [orb].
  { split; [|reflexivity]. intros _. split; [exact Hlen|].
    exists t. split; [reflexivity | left; exact Hlo]. }
  destruct (N.ltb_spec (16 * 1024 * 1024) t) as [Hhi|Hhi].
  { split; [|reflexivity]. intros _. split; [exact Hlen|].
    exists t. split; [reflexivity | right; exact Hhi]. }
  split.
  - intros E. exfalso. apply (f_equal (@List.length byte)) in E.
    destruct (N.ltb_spec (N.of_nat (List.length buffer)) t); cbn [bufferAfter] in E;
      rewrite ?length_skipn in E; lia.
  - intros (_ & t' & E & Hout). injection E as <-. lia.
Qed.

(** C9 (as amended).  The data handler returns for every buffer, within as
    many rounds as the buffer has bytes, an exception of
    [parseSingleMessage] being caught inside the loop.  A frame whose
    payload offsets are inverted (a header length that makes the payload
    start exceed its end) is dropped as a whole: the round takes the
    declared total length off the buffer, delivers nothing, and the frames
    that follow are decoded as if the dropped frame had not been there; in
    particular a following complete frame with a JSON payload is delivered.
    What the loop hands to [parseSingleMessage] has the length that its
    first four bytes give, so the length test of [parseSingleMessage] never
    fires there, and inverted offsets are its one exception.  With 16 bytes
    or more in the buffer the parser moves on by a single byte if and only
    if the first four bytes give a total length below 16 or above
    16 MiB. *)
Theorem malformed_frame_is_dropped_whole (frame rest : list byte) :
  invertedOffsets frame ->
  parseSingleMessage frame = Throws
  /\ nextRound (frame ++ rest) = Frame frame rest
  /\ drain (frame ++ rest) = drain rest
  /\ (forall next tail message,
        rest = next ++ tail ->
        completeFrame next ->
        parseSingleMessage next = Payload message ->
        truthy message = true ->
        drain (frame ++ rest)
        = (message :: fst (drain tail), snd (drain tail)))
  /\ (forall buffer, lengthOutOfRange buffer ->
                     nextRound buffer = Resync (skipn 1 buffer))
  /\ (forall buffer messageData buffer',
        nextRound buffer = Frame messageData buffer' ->
        completeFrame messageData
        /\ buffer = messageData ++ buffer'
        /\ (parseSingleMessage messageData = Throws
            <-> invertedOffsets messageData))
  /\ (forall buffer,
        16 <= List.length buffer ->
        resumesAtNextByte buffer <-> lengthOutOfRange buffer)
  /\ (forall fuel buffer,
        List.length buffer <= fuel -> drainFrom fuel buffer = drain buffer).
Proof.
  intros Hinv. pose proof (parseSingleMessage_inverted _ Hinv) as Hthrows.
  destruct Hinv as [Hc Hh].
  assert (Hdrop : drain (frame ++ rest) = drain rest).
  { rewrite (drain_frame _ _ Hc). unfold delivered. rewrite Hthrows.
    destruct (drain rest); reflexivity. }
  split; [exact Hthrows|]. split; [now apply nextRound_frame|].
  split; [exact Hdrop|]. split; [|split; [|split; [|split]]].
  - intros next tail message -> Hnext Hparse Htruthy.
    rewrite Hdrop, (drain_frame _ _ Hnext). unfold delivered.
    rewrite Hparse, Htruthy. reflexivity.
  - intros buffer (Hlen & t & Hread & Hout). unfold nextRound.
    destruct (Nat.ltb_spec (List.length buffer) 16); [lia|].
    rewrite Hread.
    destruct (N.ltb_spec t 16); [reflexivity|].
    destruct (N.ltb_spec (16 * 1024 * 1024) t); [reflexivity|]. lia.
  - intros buffer messageData buffer' Hround.
    destruct (nextRound_takes_complete _ _ _ Hround) as [Hm Hsplit].
    split; [exact Hm|]. split; [exact Hsplit|].
    now apply parseSingleMessage_throws.
  - apply resumesAtNextByte_iff.
  - intros fuel buffer Hfuel. unfold drain.
    apply drainFrom_enough; [exact Hfuel | apply Nat.le_refl].
Qed.

End WithHost.

Lemma brokenFrame_inverted : invertedOffsets Samples.brokenFrame.
Proof.
  split.
  - exists 20%N. repeat split; try reflexivity; vm_compute; discriminate.
  - exists 200%N. split; reflexivity.
Defined.

Lemma greetingFrame_complete : completeFrame Samples.greetingFrame.
Proof.
  exists 35%N. repeat split; try reflexivity; vm_compute; discriminate.
Defined.

Lemma malformed_frame_is_dropped_whole_witness :
  @drain Samples.host (Samples.brokenFrame ++ Samples.greetingFrame)
  = ([Samples.greeting], [])
  /\ (@parseSingleMessage Samples.host Samples.brokenFrame = Throws
      <-> invertedOffsets Samples.brokenFrame)
  /\ ~ resumesAtNextByte (Samples.brokenFrame ++ Samples.greetingFrame).
Proof.
  destruct (@malformed_frame_is_dropped_whole Samples.host Samples.brokenFrame
              Samples.greetingFrame brokenFrame_inverted)
    as (_ & Hround & _ & Hnext & _ & Htaken & Hbyte & _).
  split; [|split].
  - apply (Hnext Samples.greetingFrame [] Samples.greeting).
    + symmetry. apply app_nil_r.
    + exact greetingFrame_complete.
    + vm_compute; reflexivity.
    + reflexivity.
  - apply (Htaken _ _ _ Hround).
  - intros Hone.
    apply (Hbyte (Samples.brokenFrame ++ Samples.greetingFrame)) in Hone.
    + destruct Hone as (_ & t & Hread & Hout).
      vm_compute in Hread. injection Hread as <-. lia.
    + vm_compute. repeat constructor.
Defined.

(** C9, as stated, fails on both kinds of malformed frame.  On
    [Samples.brokenFrame], whose offsets are inverted, followed by
    [Samples.greetingFrame], parsing does not resume at the next byte but
    twenty bytes on, after the frame; resuming at the next byte would leave
    the following frame undecoded.  On [Samples.truncatedFrame], which
    declares 30 bytes and has 20, followed by the same well-formed frame,
    the loop takes 30 bytes, nothing is thrown and nothing delivered, and
    the well-formed frame is never decoded. *)
Lemma resumes_at_next_byte_fails :
  (invertedOffsets Samples.brokenFrame
   /\ ~ resumesAtNextByte (Samples.brokenFrame ++ Samples.greetingFrame)
   /\ nextRound (skipn 1 (Samples.brokenFrame ++ Samples.greetingFrame)) = Stop)
  /\ (lengthMismatch Samples.truncatedFrame
      /\ completeFrame Samples.greetingFrame
      /\ @delivered Samples.host Samples.greetingFrame = [Samples.greeting]
      /\ fst (@drain Samples.host
                (Samples.truncatedFrame ++ Samples.greetingFrame)) = []
      /\ ~ resumesAtNextByte (Samples.truncatedFrame ++ Samples.greetingFrame)).
Proof.
  split; [split; [exact brokenFrame_inverted|split]|].
  - unfold resumesAtNextByte. vm_compute. discriminate.
  - vm_compute. reflexivity.
  - split; [|split; [exact greetingFrame_complete|split; [|split]]].
    + exists 30%N. split; [reflexivity|]. split; [|vm_compute; discriminate].
      split; vm_compute; discriminate.
    + vm_compute. reflexivity.
    + vm_compute. reflexivity.
    + unfold resumesAtNextByte. vm_compute. discriminate.
Qed.

End KiroFacts.

(* ====================================================================== *)
(** * Facts: the shared quota pool *)
(* ====================================================================== *)

Module PoolFacts.
Import Store Pool.
Local Open Scope Q_scope.













Section Removal.
Variable getQuotasByCookieId : string -> option (list (string * Q)).
Variable removeUserSharedQuota :
  list pool -> string -> string -> Q -> option (list pool).



End Removal.





End PoolFacts.

(* ====================================================================== *)
(** * Facts: values and strings *)
(* ====================================================================== *)

Module ValueFacts.
Import JS.

Lemma strictEq_eq a b : strictEq a b = true -> a = b.
Proof.
  destruct a, b; try discriminate; cbn [strictEq]; intros E;
    try reflexivity.
  - now apply Bool.eqb_prop in E as ->.
  - now apply Z.eqb_eq in E as ->.
  - now apply String.eqb_eq in E as ->.
Qed.

Lemma strictEq_sym a b : strictEq a b = strictEq b a.
Proof.
  destruct a, b; try reflexivity; cbn [strictEq].
  - now destruct b, b0.
  - apply Z.eqb_sym.
  - apply String.eqb_sym.
Qed.

Lemma append_empty_r (s : string) : (s ++ "")%string = s.
Proof. induction s as [|c s IH]; simpl; [reflexivity | now rewrite IH]. Qed.

Lemma append_assoc (a b c : string) :
  ((a ++ b) ++ c)%string = (a ++ (b ++ c))%string.
Proof. induction a as [|x a IH]; simpl; [reflexivity | now rewrite IH]. Qed.

Lemma prefix_append (p s : string) : String.prefix p (p ++ s) = true.
Proof.
  induction p as [|c p IH]; [now destruct s|].
  cbn. destruct (ascii_dec c c); [exact IH | congruence].
Qed.

Lemma substring_all (s : string) : String.substring 0 (String.length s) s = s.
Proof. induction s as [|c s IH]; [reflexivity|]. cbn. now rewrite IH. Qed.

End ValueFacts.

(* ====================================================================== *)
(** * Facts: reassembly of the text-frame stream *)
(* ====================================================================== *)

Module ChunksFacts.
Import JS Client Chunks.
Import ValueFacts.

Lemma concat_cons (c : string) (r : list string) :
  String.concat "" (c :: r) = (c ++ String.concat "" r)%string.
Proof.
  destruct r as [|d r]; simpl; [now rewrite append_empty_r | reflexivity].
Qed.

Lemma concat_app (a b : list string) :
  String.concat "" (a ++ b)
  = (String.concat "" a ++ String.concat "" b)%string.
Proof.
  induction a as [|c a IH]; [reflexivity|].
  rewrite <- app_comm_cons, !concat_cons, IH, append_assoc. reflexivity.
Qed.

Lemma split_cons (c : ascii) (s : string) :
  split (String c s)
  = if Nat.eqb (nat_of_ascii c) 10 then "" :: split s else consHead c (split s).
Proof.
  unfold split. cbn [splitFrom]. destruct (splitFrom s) as [piece pieces].
  destruct (Nat.eqb (nat_of_ascii c) 10); reflexivity.
Qed.

Lemma split_not_nil (s : string) : split s <> [].
Proof. unfold split. destruct (splitFrom s). discriminate. Qed.

Lemma removelast_cons {A} (x : A) (l : list A) :
  l <> [] -> removelast (x :: l) = x :: removelast l.
Proof. destruct l; [congruence | reflexivity]. Qed.

Lemma last_cons {A} (x : A) (l : list A) (d : A) :
  l <> [] -> last (x :: l) d = last l d.
Proof. destruct l; [congruence | reflexivity]. Qed.

Lemma last_app_r {A} (l1 l2 : list A) (d : A) :
  l2 <> [] -> last (l1 ++ l2) d = last l2 d.
Proof.
  intros Hne. induction l1 as [|x l1 IH]; [reflexivity|].
  rewrite <- app_comm_cons, last_cons; [exact IH|].
  destruct l1; [exact Hne | discriminate].
Qed.

(** Splitting a text that goes on: the complete lines stay, and the
    unfinished last piece is split with what follows. *)
Lemma split_app (a b : string) :
  split (a ++ b)
  = removelast (split a) ++ split (last (split a) "" ++ b).
Proof.
  induction a as [|c a IH]; [reflexivity|].
  cbn [append]. rewrite !split_cons.
  destruct (Nat.eqb (nat_of_ascii c) 10) eqn:E.
  - rewrite removelast_cons, last_cons by apply split_not_nil.
    rewrite IH. reflexivity.
  - rewrite IH. pose proof (split_not_nil a) as Hne.
    destruct (split a) as [|p [|q qs]]; [congruence| |].
    + cbn [removelast last consHead app append]. rewrite split_cons, E.
      reflexivity.
    + reflexivity.
Qed.

Lemma hasLineFeed_split (s : string) :
  hasLineFeed s = false -> split s = [s].
Proof.
  induction s as [|c s IH]; [reflexivity|].
  cbn [hasLineFeed]. intros E. apply orb_false_iff in E as [E1 E2].
  rewrite split_cons, E1, (IH E2). reflexivity.
Qed.

(** The piece after the last line feed holds none. *)
Lemma last_piece (s : string) : hasLineFeed (last (split s) "") = false.
Proof.
  induction s as [|c s IH]; [reflexivity|].
  rewrite split_cons. destruct (Nat.eqb (nat_of_ascii c) 10) eqn:E.
  - rewrite last_cons by apply split_not_nil. exact IH.
  - pose proof (split_not_nil s) as Hne.
    destruct (split s) as [|p [|q qs]]; [congruence| |].
    + cbn [consHead last hasLineFeed] in *. now rewrite E, IH.
    + exact IH.
Qed.

Section Stream.
Context {H : Host}.

(** The loop over some chunks, from a state whose buffer holds no line
    feed: the lines handled are the complete lines of the buffer followed
    by the chunks. *)
Lemma fold_readChunk (chunks : list string) : forall st,
  hasLineFeed (buffer st) = false ->
  fold_left readChunk chunks st
  = mkLoop (fold_left handleLine
              (removelast (split (buffer st ++ String.concat "" chunks)))
              (rd st))
           (last (split (buffer st ++ String.concat "" chunks)) "").
Proof.
  induction chunks as [|c chunks IH]; intros [r buf] Hbuf; cbn [buffer rd] in *.
  - cbn [fold_left String.concat]. rewrite append_empty_r.
    rewrite (hasLineFeed_split _ Hbuf). reflexivity.
  - cbn [fold_left]. rewrite IH by apply last_piece.
    unfold readChunk. cbn [buffer rd].
    rewrite concat_cons, <- append_assoc, (split_app (buf ++ c)).
    rewrite removelast_app by apply split_not_nil.
    rewrite fold_left_app, last_app_r by apply split_not_nil.
    reflexivity.
Qed.

Lemma responseEvents_lines (chunks : list string) :
  responseEvents chunks
  = streamEvents (removelast (split (String.concat "" chunks))).
Proof.
  unfold responseEvents, streamEvents.
  rewrite fold_readChunk by reflexivity. reflexivity.
Qed.

(** X1.  The events of a response depend on the text of its body only, not
    on the way the body is cut into chunks: they are the events of the
    lines that end with a line feed, in order. *)
Theorem chunking_does_not_matter (chunks : list string) :
  responseEvents chunks
  = streamEvents (removelast (split (String.concat "" chunks)))
  /\ forall chunks',
       String.concat "" chunks' = String.concat "" chunks ->
       responseEvents chunks' = responseEvents chunks.
Proof.
  split; [apply responseEvents_lines|].
  intros chunks' E. rewrite !responseEvents_lines, E. reflexivity.
Qed.

(** X2.  What follows the last line feed of the body is never handled: a
    last record that does not end with a line feed gives no event. *)
Theorem unterminated_last_line_is_dropped (chunks : list string) (tail : string) :
  hasLineFeed tail = false ->
  responseEvents (chunks ++ [tail]) = responseEvents chunks.
Proof.
  intros Htail. rewrite !responseEvents_lines, concat_app.
  cbn [String.concat]. rewrite split_app.
  assert (Hlast : hasLineFeed (last (split (String.concat "" chunks)) "" ++ tail)
                  = false).
  { pose proof (last_piece (String.concat "" chunks)) as Hl.
    induction (last (split (String.concat "" chunks)) "") as [|c s IH];
      [exact Htail|].
    cbn [append hasLineFeed] in *. apply orb_false_iff in Hl as [H1 H2].
    now rewrite H1, IH. }
  rewrite (hasLineFeed_split _ Hlast).
  rewrite removelast_app by discriminate. cbn [removelast].
  rewrite app_nil_r. reflexivity.
Qed.

(** ** What the reader sends *)

Lemma handlePart_carries rd0 part rd1 :
  Forall carriesContent (sent rd0) ->
  handlePart rd0 part = Some rd1 ->
  Forall carriesContent (sent rd1).
Proof.
  intros Hinv. unfold handlePart.
  destruct (prop "thought" part) as [thought|]; [|discriminate].
  cbn [bind].
  destruct (strictEq thought (VBool true)).
  { intros [= <-]. cbn [sent]. apply Forall_app. split; [exact Hinv|].
    constructor; [exact I | constructor]. }
  destruct (optprop "text" part) as [| | | |s| |]; try discriminate.
  - destruct (truthy (optprop "inlineData" part)).
    { intros [= <-]. cbn [sent]. apply Forall_app. split; [exact Hinv|].
      constructor; [exact I | constructor]. }
    destruct (truthy (optprop "functionCall" part));
      intros [= <-]; exact Hinv.
  - destruct (String.eqb (trim s) "") eqn:E; intros [= <-]; [exact Hinv|].
    cbn [sent]. apply Forall_app. split; [exact Hinv|].
    constructor; [|constructor]. cbn. now apply String.eqb_neq.
Qed.

Lemma handleParts_carries ps : forall rd0,
  Forall carriesContent (sent rd0) ->
  Forall carriesContent (sent (fst (handleParts rd0 ps))).
Proof.
  induction ps as [|part ps IH]; intros rd0 Hinv; [exact Hinv|].
  cbn [handleParts]. destruct (handlePart rd0 part) as [rd1|] eqn:E.
  - apply IH. exact (handlePart_carries _ _ _ Hinv E).
  - exact Hinv.
Qed.

Lemma flush_carries rd0 :
  Forall carriesContent (sent rd0) -> Forall carriesContent (sent (flush rd0)).
Proof.
  intros Hinv. unfold flush. destruct (toolCalls rd0) as [|tc tcs] eqn:E;
    [exact Hinv|].
  cbn [sent]. apply Forall_app. split; [exact Hinv|].
  constructor; [|constructor]. cbn. discriminate.
Qed.

Lemma handleLine_carries rd0 line :
  Forall carriesContent (sent rd0) ->
  Forall carriesContent (sent (handleLine rd0 line)).
Proof.
  intros Hinv. unfold handleLine.
  destruct (negb (startsWith line "data: ")); [exact Hinv|].
  destruct (String.eqb _ ""); [exact Hinv|].
  destruct (JSON_parse _) as [data|]; [|exact Hinv].
  unfold handleData. destruct (candidate0 data) as [cand|]; [|exact Hinv].
  set (ps := optprop "parts" (optprop "content" cand)).
  assert (Hparts :
    Forall carriesContent
      (sent (fst (if truthy ps
                  then match ps with
                       | VArr l => handleParts rd0 l
                       | VStr _ => (rd0, true)
                       | _ => (rd0, false)
                       end
                  else (rd0, true))))).
  { destruct (truthy ps); [|exact Hinv].
    destruct ps; try exact Hinv. now apply handleParts_carries. }
  destruct (if truthy ps then _ else _) as [rd1 completed].
  cbn [fst] in Hparts.
  destruct (completed && truthy (optprop "finishReason" cand));
    [now apply flush_carries | exact Hparts].
Qed.

Lemma handleLines_carries lines : forall rd0,
  Forall carriesContent (sent rd0) ->
  Forall carriesContent (sent (fold_left handleLine lines rd0)).
Proof.
  induction lines as [|line lines IH]; intros rd0 Hinv; [exact Hinv|].
  cbn [fold_left]. apply IH. now apply handleLine_carries.
Qed.

(** X3.  Whatever the upstream sends, the reader never hands on a text event
    made of white space only, nor a tool-call batch without a call. *)
Theorem reader_sends_no_empty_event (chunks : list string) :
  Forall carriesContent (responseEvents chunks).
Proof.
  unfold responseEvents.
  assert (Hfold : forall cs st,
             Forall carriesContent (sent (rd st)) ->
             Forall carriesContent (sent (rd (fold_left readChunk cs st)))).
  { induction cs as [|c cs IH]; intros st Hinv; [exact Hinv|].
    cbn [fold_left]. apply IH. unfold readChunk. cbn [rd].
    now apply handleLines_carries. }
  apply Hfold. constructor.
Qed.

End Stream.

(** The line of the greeting cut after its seventh character. *)
Lemma chunking_does_not_matter_witness :
  @responseEvents Samples.host
    [substring 0 7 Examples.helloLine;
     substring 7 (String.length Examples.helloLine - 7) Examples.helloLine]
  = [EvText "Hello"].
Proof.
  rewrite (proj2 (@chunking_does_not_matter Samples.host [Examples.helloLine])
             [substring 0 7 Examples.helloLine;
              substring 7 (String.length Examples.helloLine - 7)
                Examples.helloLine]).
  - vm_compute. reflexivity.
  - vm_compute. reflexivity.
Defined.

(** The second record of the body has no line feed after it and is not
    handled. *)
Lemma unterminated_last_line_is_dropped_witness :
  @responseEvents Samples.host ([Examples.helloLine] ++ [Examples.helloRecord])
  = [EvText "Hello"].
Proof.
  rewrite (@unterminated_last_line_is_dropped Samples.host
             [Examples.helloLine] Examples.helloRecord).
  - vm_compute. reflexivity.
  - vm_compute. reflexivity.
Defined.

End ChunksFacts.

(* ====================================================================== *)
(** * Facts: the messages of the binary stream *)
(* ====================================================================== *)

Module KiroStreamFacts.
Import JS Kiro KiroStream.
Import ValueFacts.

(** A round that goes on reads only the front of the buffer. *)
Lemma nextRound_app buffer more :
  match nextRound buffer with
  | Stop => True
  | Resync buffer' => nextRound (buffer ++ more) = Resync (buffer' ++ more)
  | Frame messageData buffer' =>
      nextRound (buffer ++ more) = Frame messageData (buffer' ++ more)
  end.
Proof.
  unfold nextRound. rewrite length_app.
  destruct (Nat.ltb_spec (List.length buffer) 16); [exact I|].
  destruct (Nat.ltb_spec (List.length buffer + List.length more) 16); [lia|].
  destruct (readUInt32BE buffer 0) as [t|] eqn:Hread; [|exact I].
  rewrite (KiroFacts.readUInt32BE_app _ _ _ _ Hread).
  destruct (N.ltb t 16 || N.ltb (16 * 1024 * 1024) t).
  { rewrite skipn_app.
    replace (1 - List.length buffer) with 0 by lia. reflexivity. }
  destruct (N.ltb_spec (N.of_nat (List.length buffer)) t); [exact I|].
  destruct (N.ltb_spec (N.of_nat (List.length buffer + List.length more)) t);
    [lia|].
  rewrite firstn_app, skipn_app.
  replace (N.to_nat t - List.length buffer) with 0 by lia.
  rewrite firstn_O, app_nil_r. reflexivity.
Qed.

Section WithHost.
Context {H : Host}.

Lemma drainFrom_app fuel : forall buffer more,
  List.length buffer <= fuel ->
  drainFrom (fuel + List.length more) (buffer ++ more)
  = let (ms1, rest1) := drainFrom fuel buffer in
    let (ms2, rest2) := drain (rest1 ++ more) in
    (ms1 ++ ms2, rest2).
Proof.
  induction fuel as [|fuel IH]; intros buffer more Hlen.
  - destruct buffer; [|simpl in Hlen; lia]. cbn [drainFrom app Nat.add].
    unfold drain. destruct (drainFrom _ more). reflexivity.
  - cbn [drainFrom Nat.add].
    pose proof (nextRound_app buffer more) as Happ.
    pose proof (KiroFacts.nextRound_shrinks buffer) as Hs.
    destruct (nextRound buffer) as [|buffer'|messageData buffer'].
    + unfold drain.
      rewrite <- (KiroFacts.drainFrom_enough
                    (S (fuel + List.length more))
                    (List.length (buffer ++ more)) (buffer ++ more));
        [|rewrite length_app; lia | lia].
      cbn [drainFrom].
      destruct (nextRound (buffer ++ more)) as [|b'|m b']; [reflexivity| |].
      * destruct (drainFrom (fuel + List.length more) b'). reflexivity.
      * destruct (drainFrom (fuel + List.length more) b'). reflexivity.
    + rewrite Happ. apply IH. lia.
    + rewrite Happ, IH by lia.
      destruct (drainFrom fuel buffer') as [ms1 rest1].
      destruct (drain (rest1 ++ more)) as [ms2 rest2].
      now rewrite app_assoc.
Qed.

(** Draining a buffer that goes on: first what is there, then what is
    left with what follows. *)
Lemma drain_app buffer more :
  drain (buffer ++ more)
  = let (ms1, rest1) := drain buffer in
    let (ms2, rest2) := drain (rest1 ++ more) in
    (ms1 ++ ms2, rest2).
Proof.
  unfold drain at 1 2. rewrite length_app. apply drainFrom_app. lia.
Qed.

(** What the loop leaves in the buffer cannot be parsed any further. *)
Lemma drainFrom_stops fuel : forall buffer,
  List.length buffer <= fuel ->
  nextRound (snd (drainFrom fuel buffer)) = Stop.
Proof.
  induction fuel as [|fuel IH]; intros buffer Hlen.
  - destruct buffer; [reflexivity | simpl in Hlen; lia].
  - cbn [drainFrom]. pose proof (KiroFacts.nextRound_shrinks buffer) as Hs.
    destruct (nextRound buffer) as [|buffer'|messageData buffer'] eqn:E.
    + exact E.
    + apply IH. lia.
    + specialize (IH buffer'). destruct (drainFrom fuel buffer').
      apply IH. lia.
Qed.

Lemma drain_stopped buffer :
  nextRound buffer = Stop -> drain buffer = ([], buffer).
Proof.
  intros E. unfold drain. destruct (List.length buffer); [reflexivity|].
  cbn [drainFrom]. now rewrite E.
Qed.

Lemma drain_rest buffer :
  drain (snd (drain buffer)) = ([], snd (drain buffer)).
Proof. apply drain_stopped, drainFrom_stops. lia. Qed.

Variable randomUUID : nat -> string.
Variable contextInfo : value.

Local Abbreviation processMessages := (processMessages randomUUID contextInfo).
Local Abbreviation onChunk := (onChunk randomUUID contextInfo).

Lemma processMessages_app ms1 : forall st ms2,
  processMessages st (ms1 ++ ms2)
  = let (st1, evs1) := processMessages st ms1 in
    let (st2, evs2) := processMessages st1 ms2 in
    (st2, evs1 ++ evs2).
Proof.
  induction ms1 as [|m ms1 IH]; intros st ms2.
  - cbn [app KiroStream.processMessages].
    destruct (processMessages st ms2). reflexivity.
  - cbn [app KiroStream.processMessages].
    destruct (processMessage randomUUID contextInfo st m) as [[st1 evs]|].
    + rewrite IH. destruct (processMessages st1 ms1) as [st2 evs1].
      destruct (processMessages st2 ms2) as [st3 evs2].
      now rewrite app_assoc.
    + apply IH.
Qed.

(** Two chunks in a row are one chunk. *)
Lemma onChunk_twice s c1 c2 :
  onChunk (onChunk s c1) c2 = onChunk s (c1 ++ c2).
Proof.
  unfold KiroStream.onChunk, onData.
  rewrite (app_assoc (pending s) c1 c2), (drain_app (pending s ++ c1) c2).
  destruct (drain (pending s ++ c1)) as [ms1 rest1].
  destruct (processMessages (indices s) ms1) as [st1 evs1] eqn:E1.
  cbn [pending indices emitted].
  destruct (drain (rest1 ++ c2)) as [ms2 rest2].
  rewrite processMessages_app, E1.
  destruct (processMessages st1 ms2) as [st2 evs2].
  now rewrite app_assoc.
Qed.

Lemma fold_onChunk chunks : forall s,
  drain (pending s) = ([], pending s) ->
  fold_left onChunk chunks s = onChunk s (List.concat chunks).
Proof.
  induction chunks as [|c chunks IH]; intros s Hs.
  - cbn [fold_left List.concat]. unfold KiroStream.onChunk, onData.
    rewrite app_nil_r, Hs. cbn [KiroStream.processMessages].
    rewrite app_nil_r. destruct s; reflexivity.
  - cbn [fold_left List.concat]. rewrite IH, onChunk_twice; [reflexivity|].
    unfold KiroStream.onChunk, onData.
    pose proof (drain_rest (pending s ++ c)) as Hrest.
    destruct (drain (pending s ++ c)) as [ms rest].
    destruct (processMessages (indices s) ms). exact Hrest.
Qed.

(** X4.  The messages handed on, the tool-call numbering and the bytes kept
    for later depend on the bytes received only, not on the way they are
    cut into chunks. *)
Theorem binary_chunking_does_not_matter (chunks chunks' : list (list byte)) :
  List.concat chunks' = List.concat chunks ->
  handleStreamResponse randomUUID contextInfo chunks'
  = handleStreamResponse randomUUID contextInfo chunks.
Proof.
  intros E. unfold handleStreamResponse.
  rewrite !fold_onChunk by reflexivity. now rewrite E.
Qed.

(** ** Frames on the wire *)

Lemma to_N_byteOf (n : N) : Byte.to_N (byteOf n) = (n mod 256)%N.
Proof.
  unfold byteOf. destruct (Byte.of_N (n mod 256)) as [b|] eqn:E.
  - exact (Byte.to_of_N _ E).
  - apply Byte.of_N_None_iff in E.
    pose proof (N.mod_upper_bound n 256). lia.
Qed.

Lemma readUInt32BE_uint32BE (n : N) (before rest : list byte) :
  (n < 4294967296)%N ->
  readUInt32BE (before ++ uint32BE n ++ rest) (List.length before) = Some n.
Proof.
  intros Hn. unfold readUInt32BE.
  rewrite skipn_app, Nat.sub_diag, skipn_all. cbn [app skipn uint32BE].
  rewrite !to_N_byteOf. f_equal.
  rewrite (N.mod_small (n / 16777216) 256)
    by (apply N.Div0.div_lt_upper_bound; lia).
  pose proof (N.div_mod n 16777216 ltac:(lia)).
  pose proof (N.div_mod n 65536 ltac:(lia)).
  pose proof (N.div_mod n 256 ltac:(lia)).
  pose proof (N.div_mod (n / 65536) 256 ltac:(lia)).
  pose proof (N.div_mod (n / 256) 256 ltac:(lia)).
  pose proof (N.mod_upper_bound n 256 ltac:(lia)).
  pose proof (N.mod_upper_bound (n / 256) 256 ltac:(lia)).
  pose proof (N.mod_upper_bound (n / 65536) 256 ltac:(lia)).
  replace (n / 65536 / 256)%N with (n / 16777216)%N in *
    by (rewrite N.Div0.div_div; reflexivity).
  replace (n / 256 / 256)%N with (n / 65536)%N in *
    by (rewrite N.Div0.div_div; reflexivity).
  lia.
Qed.

Lemma length_uint32BE n : List.length (uint32BE n) = 4.
Proof. reflexivity. Qed.

Lemma length_encode f :
  List.length (preludeCrc f) = 4 -> List.length (messageCrc f) = 4 ->
  List.length (encode f)
  = 16 + List.length (headers f) + List.length (payload f).
Proof.
  intros H1 H2. unfold encode. rewrite !length_app, !length_uint32BE. lia.
Qed.

Lemma encode_complete f message :
  carries f message -> completeFrame (encode f).
Proof.
  intros (H1 & H2 & Hmax & _).
  exists (N.of_nat (16 + List.length (headers f) + List.length (payload f))).
  split; [|split; [|lia]].
  - apply (readUInt32BE_uint32BE _ []). lia.
  - now rewrite length_encode.
Qed.

Lemma encode_delivered f message :
  carries f message -> delivered (encode f) = [message].
Proof.
  intros Hc. pose proof Hc as (H1 & H2 & Hmax & Hparse & Hne & Htruthy).
  unfold delivered, parseSingleMessage.
  rewrite length_encode by assumption.
  destruct (Nat.ltb_spec (16 + List.length (headers f) + List.length (payload f)) 16);
    [lia|].
  assert (Ht : readUInt32BE (encode f) 0
               = Some (N.of_nat (16 + List.length (headers f)
                                 + List.length (payload f)))).
  { apply (readUInt32BE_uint32BE _ []). lia. }
  assert (Hh : readUInt32BE (encode f) 4
               = Some (N.of_nat (List.length (headers f)))).
  { unfold encode. rewrite app_assoc.
    apply (readUInt32BE_uint32BE _ (uint32BE _)). lia. }
  rewrite Ht, Hh, N.eqb_refl. cbn [negb].
  destruct (N.ltb_spec
              (N.of_nat (16 + List.length (headers f) + List.length (payload f)) - 4)
              (12 + N.of_nat (List.length (headers f)))); [lia|].
  destruct (N.ltb_spec
              (N.of_nat (16 + List.length (headers f) + List.length (payload f)))
              (N.of_nat (16 + List.length (headers f) + List.length (payload f)) - 4));
    [lia|].
  cbn [orb].
  assert (Hslice :
    slice (encode f)
      (N.to_nat (12 + N.of_nat (List.length (headers f))))
      (N.to_nat (N.of_nat (16 + List.length (headers f) + List.length (payload f)) - 4))
    = payload f).
  { unfold slice, encode.
    replace (N.to_nat (12 + N.of_nat (List.length (headers f))))
      with (List.length (uint32BE (N.of_nat (16 + List.length (headers f)
                                             + List.length (payload f)))
                         ++ uint32BE (N.of_nat (List.length (headers f)))
                         ++ preludeCrc f ++ headers f))
      by (rewrite !length_app, !length_uint32BE; lia).
    rewrite !length_app, !length_uint32BE.
    replace (N.to_nat (N.of_nat (16 + List.length (headers f)
                                 + List.length (payload f)) - 4)
             - (4 + (4 + (List.length (preludeCrc f) + List.length (headers f)))))
      with (List.length (payload f)) by lia.
    replace (uint32BE (N.of_nat (16 + List.length (headers f) + List.length (payload f)))
             ++ uint32BE (N.of_nat (List.length (headers f)))
             ++ preludeCrc f ++ headers f ++ payload f ++ messageCrc f)
      with ((uint32BE (N.of_nat (16 + List.length (headers f) + List.length (payload f)))
             ++ uint32BE (N.of_nat (List.length (headers f)))
             ++ preludeCrc f ++ headers f) ++ payload f ++ messageCrc f)
      by (now rewrite <- !app_assoc).
    rewrite skipn_app.
    replace (4 + (4 + (List.length (preludeCrc f) + List.length (headers f))))
      with (List.length (uint32BE (N.of_nat (16 + List.length (headers f)
                                             + List.length (payload f)))
                         ++ uint32BE (N.of_nat (List.length (headers f)))
                         ++ preludeCrc f ++ headers f))
      by (rewrite !length_app, !length_uint32BE; lia).
    rewrite skipn_all, Nat.sub_diag. cbn [app skipn].
    rewrite firstn_app, Nat.sub_diag, firstn_all, firstn_O, app_nil_r.
    reflexivity. }
  rewrite Hslice. destruct (payload f) as [|b bs] eqn:Ep; [congruence|].
  rewrite Hparse, Htruthy. reflexivity.
Qed.

(** X5.  A run of frames whose lengths fit is decoded frame by frame, each
    payload handed on as the value it is the JSON text of, whatever the
    two checksum fields and the headers hold. *)
Theorem frames_are_decoded_in_order (frames : list (frame * value))
    (rest : list byte) :
  Forall (fun fm => carries (fst fm) (snd fm)) frames ->
  drain (List.concat (map (fun fm => encode (fst fm)) frames) ++ rest)
  = (map snd frames ++ fst (drain rest), snd (drain rest)).
Proof.
  induction 1 as [|[f message] frames Hf _ IH].
  - cbn [map List.concat app]. destruct (drain rest). reflexivity.
  - cbn [map List.concat fst snd] in *. rewrite <- app_assoc.
    rewrite (KiroFacts.drain_frame _ _ (encode_complete _ _ Hf)), IH.
    cbn [fst snd]. rewrite (encode_delivered _ _ Hf). reflexivity.
Qed.

(** ** The numbering of tool calls *)

Lemma getIndex_Some m id i :
  getIndex m id = Some i -> In (id, i) m.
Proof.
  unfold getIndex. destruct (find _ m) as [[k j]|] eqn:E; [|discriminate].
  intros [= <-]. apply find_some in E as [Hin Heq]. cbn [fst] in Heq.
  apply strictEq_eq in Heq as ->. exact Hin.
Qed.

Lemma getIndex_indexed m id found :
  getIndex m id = Some found ->
  forall i a, Some (found, id) = Some (i, a) -> In (a, i) m.
Proof. intros Eget i a [= <- <-]. now apply getIndex_Some. Qed.

Lemma getIndex_None m id :
  getIndex m id = None -> forall k i, In (k, i) m -> strictEq k id = false.
Proof.
  unfold getIndex. destruct (find _ m) as [kv|] eqn:E; [discriminate|].
  intros _ k i Hin. exact (find_none _ _ E (k, i) Hin).
Qed.

(** What one message does to the numbering: either the map stays and
    every index sent is one of the map, or one entry is added, with the
    counter as its index, and the indices sent are that one. *)
Lemma processMessage_numbering st message st' evs :
  processMessage randomUUID contextInfo st message = Some (st', evs) ->
  (toolCallIndexMap st' = toolCallIndexMap st
   /\ indexCounter st' = indexCounter st
   /\ Forall (fun ev => forall i a, indexed ev = Some (i, a) ->
                                    In (a, i) (toolCallIndexMap st)) evs)
  \/ (exists id,
        getIndex (toolCallIndexMap st) id = None
        /\ toolCallIndexMap st' = toolCallIndexMap st ++ [(id, indexCounter st)]
        /\ indexCounter st' = S (indexCounter st)
        /\ Forall (fun ev => forall i a, indexed ev = Some (i, a) ->
                                         i = indexCounter st /\ a = id) evs
        /\ exists ev, In ev evs /\ indexed ev = Some (indexCounter st, id)).
Proof.
  unfold processMessage.
  destruct (prop "content" message) as [content|]; [|discriminate].
  cbn [bind].
  set (text := if truthy content then [KText content] else []).
  assert (Htext : forall P : nat -> value -> Prop,
             Forall (fun ev => forall i a, indexed ev = Some (i, a) -> P i a)
                    text).
  { intros P. unfold text. destruct (truthy content);
      repeat constructor; discriminate. }
  set (usage := match optprop "usage" message with
                | VNum n => if negb (Z.eqb n 0) && truthy contextInfo
                            then [KUsage n] else []
                | _ => []
                end).
  assert (Husage : forall P : nat -> value -> Prop,
             Forall (fun ev => forall i a, indexed ev = Some (i, a) -> P i a)
                    usage).
  { intros P. unfold usage. destruct (optprop "usage" message);
      try constructor.
    destruct (negb (Z.eqb n 0) && truthy contextInfo);
      repeat constructor; discriminate. }
  clearbody text usage.
  set (id := optprop "toolUseId" message).
  set (name := optprop "name" message).
  set (input := optprop "input" message).
  set (codeQuery := optprop "codeQuery" message).
  assert (Hquery : forall (P : nat -> value -> Prop) st1 st2 query,
             (if truthy codeQuery then
                if truthy (optprop "codeQueryId" codeQuery)
                then (st1,
                      [KToolCalls (optprop "codeQueryId" codeQuery)
                         (if truthy (optprop "languageName"
                                       (optprop "programmingLanguage" codeQuery))
                          then optprop "languageName"
                                 (optprop "programmingLanguage" codeQuery)
                          else VStr "unknown")
                         (JSON_stringify codeQuery)])
                else (mkIndexState (toolCallIndexMap st1) (indexCounter st1)
                                   (S (drawn st1)),
                      [KToolCalls (VStr (randomUUID (drawn st1)))
                         (if truthy (optprop "languageName"
                                       (optprop "programmingLanguage" codeQuery))
                          then optprop "languageName"
                                 (optprop "programmingLanguage" codeQuery)
                          else VStr "unknown")
                         (JSON_stringify codeQuery)])
              else (st1, [])) = (st2, query) ->
             toolCallIndexMap st2 = toolCallIndexMap st1
             /\ indexCounter st2 = indexCounter st1
             /\ Forall (fun ev => forall i a, indexed ev = Some (i, a) -> P i a)
                       query).
  { intros P st1 st2 query.
    destruct (truthy codeQuery);
      [destruct (truthy (optprop "codeQueryId" codeQuery))|];
      intros [= <- <-]; repeat split; repeat constructor; discriminate. }
  assert (Hnew : forall i a, Some (indexCounter st, id) = Some (i, a) ->
                             i = indexCounter st /\ a = id).
  { now intros i a [= <- <-]. }
  destruct (truthy name && truthy id) eqn:Ecall.
  - destruct (getIndex (toolCallIndexMap st) id) as [found|] eqn:Eget.
    + (* announced before *)
      destruct (truthy input && truthy id) eqn:Ein; cbn [andb];
        match goal with |- context [if truthy codeQuery then _ else _] =>
          destruct (if truthy codeQuery then _ else _) as [st2 query] eqn:Eq
        end;
        apply (Hquery (fun i a => In (a, i) (toolCallIndexMap st))) in Eq
          as (Hm & Hc & Hq);
        intros [= <- <-]; left; repeat split; try assumption;
        repeat first [ apply Htext | apply Husage | exact Hq
                     | apply Forall_nil
                     | apply Forall_cons; [exact (getIndex_indexed _ _ _ Eget)|]
                     | apply Forall_app; split ].
    + (* a new tool call *)
      destruct (truthy input && truthy id) eqn:Ein; cbn [andb];
        match goal with |- context [if truthy codeQuery then _ else _] =>
          destruct (if truthy codeQuery then _ else _) as [st2 query] eqn:Eq
        end;
        apply (Hquery (fun i a => i = indexCounter st /\ a = id)) in Eq
          as (Hm & Hc & Hq); cbn [toolCallIndexMap indexCounter] in Hm, Hc;
        intros [= <- <-]; right; exists id; repeat split; try assumption;
        try (repeat first [ apply Htext | apply Husage | exact Hq
                          | apply Forall_nil
                          | apply Forall_cons; [exact Hnew|]
                          | apply Forall_app; split ]);
        (exists (KToolCallStart (indexCounter st) id name);
         split; [|reflexivity]; apply in_or_app; right; now left).
  - (* no announcement in this message *)
    destruct (truthy input && truthy id) eqn:Ein.
    + destruct (getIndex (toolCallIndexMap st) id) as [found|] eqn:Eget;
        cbn [andb].
      * match goal with |- context [if truthy codeQuery then _ else _] =>
          destruct (if truthy codeQuery then _ else _) as [st2 query] eqn:Eq
        end.
        apply (Hquery (fun i a => In (a, i) (toolCallIndexMap st))) in Eq
          as (Hm & Hc & Hq).
        intros [= <- <-]. left. repeat split; try assumption.
        repeat first [ apply Htext | apply Husage | exact Hq
                     | apply Forall_nil
                     | apply Forall_cons; [exact (getIndex_indexed _ _ _ Eget)|]
                     | apply Forall_app; split ].
      * intros [= <- <-]. left. repeat split.
        repeat first [ apply Htext | apply Forall_nil
                     | apply Forall_app; split ].
    + cbn [andb].
      match goal with |- context [if truthy codeQuery then _ else _] =>
        destruct (if truthy codeQuery then _ else _) as [st2 query] eqn:Eq
      end.
      apply (Hquery (fun i a => In (a, i) (toolCallIndexMap st))) in Eq
        as (Hm & Hc & Hq).
      intros [= <- <-]. left. repeat split; try assumption.
      repeat first [ apply Htext | apply Husage | exact Hq
                   | apply Forall_nil
                   | apply Forall_app; split ].
Qed.

Lemma processMessage_numbered st message st' evs0 evs :
  numbered st evs0 ->
  processMessage randomUUID contextInfo st message = Some (st', evs) ->
  numbered st' (evs0 ++ evs).
Proof.
  intros (I1 & I2 & I3 & I4) Hstep.
  apply processMessage_numbering in Hstep
    as [(Hm & Hc & Hevs) | (id & Hnone & Hm & Hc & Hevs & ev & Hev & Hidx)];
    unfold numbered; rewrite Hm, Hc.
  - rewrite Forall_forall in Hevs. repeat split; try assumption.
    + intros ev i a Hin Hidx. apply in_app_or in Hin as [Hin|Hin];
        [exact (I3 _ _ _ Hin Hidx) | exact (Hevs _ Hin _ _ Hidx)].
    + intros a i Hin. destruct (I4 _ _ Hin) as (ev & Hev & Hidx).
      exists ev. split; [apply in_or_app; now left | exact Hidx].
  - rewrite Forall_forall in Hevs. repeat split.
    + rewrite map_app, I1, seq_S. reflexivity.
    + intros k1 i1 k2 i2 H1 H2 Heq.
      apply in_app_or in H1 as [H1|[[= <- <-]|[]]];
        apply in_app_or in H2 as [H2|[[= <- <-]|[]]].
      * exact (I2 _ _ _ _ H1 H2 Heq).
      * rewrite (getIndex_None _ _ Hnone _ _ H1) in Heq. discriminate.
      * rewrite strictEq_sym, (getIndex_None _ _ Hnone _ _ H2) in Heq.
        discriminate.
      * reflexivity.
    + intros ev' i a Hin Hidx'. apply in_or_app.
      apply in_app_or in Hin as [Hin|Hin].
      * left. exact (I3 _ _ _ Hin Hidx').
      * right. destruct (Hevs _ Hin _ _ Hidx') as [-> ->]. now left.
    + intros a i Hin. apply in_app_or in Hin as [Hin|[[= <- <-]|[]]].
      * destruct (I4 _ _ Hin) as (ev' & Hev' & Hidx').
        exists ev'. split; [apply in_or_app; now left | exact Hidx'].
      * exists ev. split; [apply in_or_app; now right | exact Hidx].
Qed.

Lemma processMessages_numbered messages : forall st evs0,
  numbered st evs0 ->
  numbered (fst (processMessages st messages))
           (evs0 ++ snd (processMessages st messages)).
Proof.
  induction messages as [|message messages IH]; intros st evs0 Hn.
  - cbn. now rewrite app_nil_r.
  - cbn [KiroStream.processMessages].
    destruct (processMessage randomUUID contextInfo st message)
      as [[st1 evs]|] eqn:E.
    + specialize (IH st1 (evs0 ++ evs) (processMessage_numbered _ _ _ _ _ Hn E)).
      destruct (processMessages st1 messages) as [st2 more].
      cbn [fst snd] in *. now rewrite app_assoc.
    + now apply IH.
Qed.

Lemma unique_index {A} (m : list (A * nat)) a b i :
  NoDup (map snd m) -> In (a, i) m -> In (b, i) m -> a = b.
Proof.
  induction m as [|[k j] m IH]; [intros _ []|].
  cbn [map snd]. intros Hnd Ha Hb. inversion Hnd as [|? ? Hnot Hnd']; subst.
  destruct Ha as [Ea|Ha]; destruct Hb as [Eb|Hb].
  - congruence.
  - exfalso. apply Hnot. injection Ea as _ ->. exact (in_map snd _ _ Hb).
  - exfalso. apply Hnot. injection Eb as _ ->. exact (in_map snd _ _ Ha).
  - exact (IH Hnd' Ha Hb).
Qed.

(** Every index below the counter has been sent. *)
Lemma numbered_below st evs0 k :
  numbered st evs0 -> k < indexCounter st ->
  exists ev c, In ev evs0 /\ indexed ev = Some (k, c).
Proof.
  intros (I1 & _ & _ & I4) Hk.
  assert (Hin : In k (map snd (toolCallIndexMap st))).
  { rewrite I1. apply in_seq. lia. }
  apply in_map_iff in Hin as ([c k'] & Hk' & Hin). cbn [snd] in Hk'. subst k'.
  destruct (I4 _ _ Hin) as (ev & Hev & Hidx). now exists ev, c.
Qed.

Lemma numbered_index_below st evs0 a i :
  numbered st evs0 -> In (a, i) (toolCallIndexMap st) -> i < indexCounter st.
Proof.
  intros (I1 & _) Hin.
  assert (Hi : In i (seq 0 (indexCounter st))).
  { rewrite <- I1. exact (in_map snd _ _ Hin). }
  apply in_seq in Hi. lia.
Qed.

(** Events whose indices are at most the counter keep the order. *)
Lemma inOrder_app st evs0 evs :
  numbered st evs0 -> inOrder evs0 ->
  Forall (fun ev => forall i a, indexed ev = Some (i, a) -> i <= indexCounter st)
         evs ->
  inOrder (evs0 ++ evs).
Proof.
  intros Hn Ho Hevs pre ev post j b Hsplit Hidx k Hk.
  apply app_eq_app in Hsplit as (l & [[E0 El] | [Ep El]]).
  - destruct l as [|x l].
    + cbn [app] in El. rewrite app_nil_r in E0. subst pre.
      rewrite Forall_forall in Hevs.
      assert (Hj : j <= indexCounter st).
      { apply (Hevs ev) with (a := b); [rewrite <- El; now left | exact Hidx]. }
      apply (numbered_below st evs0 k Hn). lia.
    + cbn [app] in El. injection El as <- El.
      exact (Ho pre ev l j b E0 Hidx k Hk).
  - rewrite Forall_forall in Hevs.
    assert (Hj : j <= indexCounter st).
    { apply (Hevs ev) with (a := b); [|exact Hidx].
      rewrite El. apply in_or_app. right. now left. }
    destruct (numbered_below st evs0 k Hn) as (ev' & c & Hin & Hc); [lia|].
    exists ev', c. split; [|exact Hc]. rewrite Ep. apply in_or_app. now left.
Qed.

Lemma processMessage_inOrder st message st' evs0 evs :
  numbered st evs0 -> inOrder evs0 ->
  processMessage randomUUID contextInfo st message = Some (st', evs) ->
  inOrder (evs0 ++ evs).
Proof.
  intros Hn Ho Hstep. apply (inOrder_app st); [exact Hn | exact Ho |].
  apply processMessage_numbering in Hstep
    as [(_ & _ & Hevs) | (id & _ & _ & _ & Hevs & _)];
    (eapply Forall_impl; [|exact Hevs]); cbv beta; intros ev Hev i a Hidx.
  - apply Nat.lt_le_incl.
    exact (numbered_index_below st evs0 a i Hn (Hev i a Hidx)).
  - destruct (Hev i a Hidx) as [-> _]. apply Nat.le_refl.
Qed.

Lemma processMessages_inOrder messages : forall st evs0,
  numbered st evs0 -> inOrder evs0 ->
  inOrder (evs0 ++ snd (processMessages st messages)).
Proof.
  induction messages as [|message messages IH]; intros st evs0 Hn Ho.
  - cbn. now rewrite app_nil_r.
  - cbn [KiroStream.processMessages].
    destruct (processMessage randomUUID contextInfo st message)
      as [[st1 evs]|] eqn:E.
    + specialize (IH st1 (evs0 ++ evs) (processMessage_numbered _ _ _ _ _ Hn E)
                     (processMessage_inOrder _ _ _ _ _ Hn Ho E)).
      destruct (processMessages st1 messages)
        as [st2 more].
      cbn [fst snd] in *. now rewrite app_assoc.
    + now apply IH.
Qed.

(** X6.  Along one response tool calls are numbered 0, 1, 2, ... in the
    order in which their ids first appear: before an announcement or an
    argument fragment that carries an index, every smaller index has been
    sent.  Every announcement and every argument fragment carries the
    number of its id: two events have the same index exactly when they
    carry the same id. *)
Theorem tool_calls_are_numbered (messages : list value)
    (pre post : list kiroEvent) (ev : kiroEvent) (j : nat) (b : value) :
  eventsOf randomUUID contextInfo messages = pre ++ ev :: post ->
  indexed ev = Some (j, b) ->
  (forall k, k < j ->
     exists ev' c, In ev' pre /\ indexed ev' = Some (k, c))
  /\ (forall ev2 i a,
        In ev2 (eventsOf randomUUID contextInfo messages) ->
        indexed ev2 = Some (i, a) ->
        (i = j -> a = b) /\ (strictEq a b = true -> i = j)).
Proof.
  intros Hsplit E2. unfold eventsOf in *.
  assert (Hstart : numbered (mkIndexState [] 0 0) []).
  { repeat split; try (now intros); intros ? ? []. }
  assert (Hnone : inOrder []).
  { intros [|x p] e q j0 b0 Hs; discriminate. }
  pose proof (processMessages_inOrder messages _ _ Hstart Hnone) as Ho.
  pose proof (processMessages_numbered messages _ _ Hstart)
    as (I1 & I2 & I3 & I4).
  cbn [app] in *.
  set (final := fst (processMessages
                       (mkIndexState [] 0 0) messages)) in *.
  split.
  - exact (Ho pre ev post j b Hsplit E2).
  - intros ev2 i a H1 E1.
    assert (H2 : In ev (snd (processMessages
                               (mkIndexState [] 0 0) messages))).
    { rewrite Hsplit. apply in_or_app. right. now left. }
    pose proof (I3 _ _ _ H1 E1) as Ha. pose proof (I3 _ _ _ H2 E2) as Hb.
    split.
    + intros <-. apply (unique_index (toolCallIndexMap final) a b i);
        [rewrite I1; apply seq_NoDup | exact Ha | exact Hb].
    + exact (I2 _ _ _ _ Ha Hb).
Qed.

End WithHost.

(** The two frames cut after ten bytes and in the middle of the second
    frame give what they give in one piece. *)
Lemma binary_chunking_does_not_matter_witness :
  emitted (@handleStreamResponse Samples.host Examples.uuid VNull
             [firstn 10 Examples.twoFramesBytes;
              firstn 50 (skipn 10 Examples.twoFramesBytes);
              skipn 60 Examples.twoFramesBytes])
  = [KText (VStr "Hello");
     KToolCallStart 0 (VStr "tool-a") (VStr "search")].
Proof.
  rewrite (@binary_chunking_does_not_matter Samples.host Examples.uuid VNull
             [Examples.twoFramesBytes]
             [firstn 10 Examples.twoFramesBytes;
              firstn 50 (skipn 10 Examples.twoFramesBytes);
              skipn 60 Examples.twoFramesBytes]).
  - vm_compute. reflexivity.
  - vm_compute. reflexivity.
Defined.

Lemma frames_are_decoded_in_order_witness :
  @drain Samples.host
    (List.concat (map (fun fm => encode (fst fm)) Examples.twoFrames) ++ [])
  = ([Samples.greeting; Examples.searchAnnounced], []).
Proof.
  rewrite (@frames_are_decoded_in_order Samples.host Examples.twoFrames []).
  - reflexivity.
  - repeat (apply Forall_cons || apply Forall_nil);
      (cbn [fst snd]; unfold carries;
       split; [reflexivity|];
       split; [reflexivity|];
       split; [apply (Nat.le_trans _ 1000);
               [apply Nat.leb_le; vm_compute; reflexivity | lia]|];
       split; [vm_compute; reflexivity|];
       split; [vm_compute; discriminate | reflexivity]).
Defined.

(** The fragments of the two tool calls come interleaved.  The second
    call is announced by the third event: the index 0 has been sent before
    it, and the events that carry the index 1 are those of its id. *)
Lemma tool_calls_are_numbered_witness :
  (forall k, k < 1 ->
     exists ev' c,
       In ev' [KToolCallStart 0 (VStr "tool-a") (VStr "search");
               KToolCallDelta 0 (VStr "tool-a") (VStr "{")]
       /\ indexed ev' = Some (k, c))
  /\ (forall ev2 i a,
        In ev2 (@eventsOf Samples.host Examples.uuid VNull Examples.toolMessages) ->
        indexed ev2 = Some (i, a) ->
        (i = 1 -> a = VStr "tool-b")
        /\ (strictEq a (VStr "tool-b") = true -> i = 1)).
Proof.
  apply (@tool_calls_are_numbered Samples.host Examples.uuid VNull
           Examples.toolMessages
           [KToolCallStart 0 (VStr "tool-a") (VStr "search");
            KToolCallDelta 0 (VStr "tool-a") (VStr "{")]
           [KToolCallDelta 0 (VStr "tool-a") (VStr "}");
            KToolCallDelta 1 (VStr "tool-b") (VStr "{}")]
           (KToolCallStart 1 (VStr "tool-b") (VStr "read"))
           1 (VStr "tool-b")).
  - vm_compute. reflexivity.
  - reflexivity.
Defined.

End KiroStreamFacts.

(* ====================================================================== *)
(** * Facts: the contents sent upstream *)
(* ====================================================================== *)

Module ContentsFacts.
Import JS Adapter Contents.
Import AdapterFacts ValueFacts.

Lemma filterM_app {A : Type} (f : A -> option bool) (xs ys : list A) :
  filterM f (xs ++ ys)
  = bind (filterM f xs) (fun kept =>
      bind (filterM f ys) (fun more => Some (kept ++ more))).
Proof.
  induction xs as [|x xs IH]; cbn [app filterM bind].
  - destruct (filterM f ys); reflexivity.
  - destruct (f x) as [b|]; cbn [bind]; [|reflexivity].
    rewrite IH. destruct (filterM f xs) as [kept|]; cbn [bind]; [|reflexivity].
    destruct (filterM f ys) as [more|]; cbn [bind]; [|reflexivity].
    destruct b; reflexivity.
Qed.

Lemma Forall_pushToLast (P : turn -> Prop) (ps : list value) (ms : list turn) :
  (forall t, P t -> P (mkTurn (role t) (parts t ++ ps))) ->
  Forall P ms -> Forall P (pushToLast ps ms).
Proof.
  intros Hp Hms. unfold pushToLast. destruct (rev ms) as [|l b] eqn:E.
  - constructor.
  - apply rev_cons_inv in E. subst ms.
    apply Forall_app in Hms as [Hb Hl]. apply Forall_app. split; [exact Hb|].
    inversion Hl; subst. constructor; [now apply Hp | constructor].
Qed.

Lemma wellFormed_push (ps : list value) (t : turn) :
  wellFormedTurn t -> wellFormedTurn (mkTurn (role t) (parts t ++ ps)).
Proof.
  intros [Hr Hp]. split; [exact Hr|]. cbn [parts].
  destruct (parts t); [congruence | discriminate].
Qed.

Lemma nonempty_or_default (ps : list value) (d : value) :
  match ps with [] => [d] | _ => ps end <> [].
Proof. destruct ps; discriminate. Qed.

Section WithHost.
Context {H : Host}.

(** ** Messages that are left out *)

Lemma left_out message :
  isInvalidAssistantMessage message = Some true
  \/ optprop "role" message = VStr "system" ->
  keepMessage message = Some false.
Proof.
  unfold keepMessage. intros [E|E].
  - now rewrite E.
  - destruct message; try discriminate. cbn [optprop] in E.
    unfold isInvalidAssistantMessage. cbn [prop bind]. rewrite E.
    reflexivity.
Qed.

(** X7.  An assistant message that is found invalid and a system message
    leave no trace in the contents: the conversation converts as it does
    without them. *)
Theorem left_out_message_changes_nothing
    (before after : list value) (message : value) (modelName : string) :
  isInvalidAssistantMessage message = Some true
  \/ optprop "role" message = VStr "system" ->
  openaiMessageToAntigravity (before ++ message :: after) false modelName
  = openaiMessageToAntigravity (before ++ after) false modelName.
Proof.
  intros Hout. apply left_out in Hout. unfold openaiMessageToAntigravity.
  rewrite !filterM_app. cbn [filterM]. rewrite Hout. cbn [bind].
  destruct (filterM keepMessage before) as [kept|]; cbn [bind]; [|reflexivity].
  destruct (filterM keepMessage after) as [more|]; reflexivity.
Qed.

(** ** The shape of the turns *)

Lemma handleAssistantMessage_wellFormed message ms img ms' :
  handleAssistantMessage message ms img = Some ms' ->
  Forall wellFormedTurn ms -> Forall wellFormedTurn ms'.
Proof.
  unfold handleAssistantMessage. intros E Hms. unbind E.
  destruct (lastIsModel ms && hasToolCalls message && negb (hasContent message)).
  - injection E as <-. apply Forall_pushToLast; [|exact Hms].
    intros t. apply wellFormed_push.
  - unbind E. injection E as <-. apply Forall_app. split; [exact Hms|].
    constructor; [|constructor]. split; [now right|].
    apply nonempty_or_default.
Qed.

Lemma convertMessage_wellFormed img ms message ms' :
  convertMessage img ms message = Some ms' ->
  Forall wellFormedTurn ms -> Forall wellFormedTurn ms'.
Proof.
  unfold convertMessage. intros E Hms.
  destruct (isStr (optprop "role" message) "user").
  { unbind E. injection E as <-. unfold handleUserMessage.
    destruct x as [text images]. apply Forall_app. split; [exact Hms|].
    constructor; [|constructor]. split; [now left|].
    apply nonempty_or_default. }
  destruct (isStr (optprop "role" message) "assistant").
  { eapply handleAssistantMessage_wellFormed; eauto. }
  destruct (isStr (optprop "role" message) "tool").
  { injection E as <-. unfold handleToolCall.
    destruct (lastIsUserWithResponse ms).
    - apply Forall_pushToLast; [|exact Hms]. intros t. apply wellFormed_push.
    - apply Forall_app. split; [exact Hms|].
      constructor; [|constructor]. split; [now left | discriminate]. }
  injection E as <-. exact Hms.
Qed.

Lemma convertMessages_wellFormed img messages : forall ms ms',
  convertMessages img ms messages = Some ms' ->
  Forall wellFormedTurn ms -> Forall wellFormedTurn ms'.
Proof.
  induction messages as [|m r IH]; cbn [convertMessages]; intros ms ms' E Hms.
  - injection E as <-. exact Hms.
  - unbind E. eapply IH; eauto. eapply convertMessage_wellFormed; eauto.
Qed.

(** X8.  Every turn of the contents comes from the user or from the model
    and has at least one part, whatever the messages were. *)
Theorem contents_turns_are_well_formed
    (openaiMessages : list value) (modelName : string) (contents : list turn) :
  openaiMessageToAntigravity openaiMessages false modelName = Some contents ->
  Forall wellFormedTurn contents.
Proof.
  unfold openaiMessageToAntigravity. intros E. unbind E. unbind E.
  injection E as <-.
  apply convertMessages_wellFormed in E1; [|constructor].
  rewrite Forall_forall in *. intros t Ht.
  unfold dropEmptyUserTurns in Ht. apply filter_In in Ht as [Ht Hkeep].
  unfold pruneOrphans in Ht. apply in_map_iff in Ht as (t0 & <- & Ht0).
  destruct (E1 _ Ht0) as [Hrole Hparts].
  destruct (String.eqb (role t0) "user") eqn:Hu.
  - cbn [role parts] in *. rewrite Hu in Hkeep. split; [exact Hrole|].
    destruct (filter _ (parts t0)); [discriminate Hkeep | discriminate].
  - split; assumption.
Qed.

(** ** Tool results without a call *)

Lemma functionCallIds_In id ms :
  In id (functionCallIds ms) ->
  exists t c, In t ms /\ role t = "model" /\ In c (parts t)
              /\ truthy (optprop "functionCall" c) = true
              /\ optprop "id" (optprop "functionCall" c) = id.
Proof.
  unfold functionCallIds. intros Hin.
  apply in_flat_map in Hin as (t & Ht & Hin).
  destruct (String.eqb (role t) "model") eqn:Hr; [|contradiction].
  apply String.eqb_eq in Hr.
  apply in_flat_map in Hin as (c & Hc & Hin).
  destruct (truthy (optprop "functionCall" c)
            && truthy (optprop "id" (optprop "functionCall" c))) eqn:Hb;
    [|contradiction].
  destruct Hin as [<-|[]]. apply andb_prop in Hb as [Hb _].
  now exists t, c.
Qed.

(** X9.  No tool result is sent without the call it answers: a
    [functionResponse] part with an id in a user turn of the contents has
    the id of a [functionCall] part in a model turn of the contents. *)
Theorem no_tool_result_without_its_call
    (openaiMessages : list value) (modelName : string) (contents : list turn)
    (t : turn) (part : value) :
  openaiMessageToAntigravity openaiMessages false modelName = Some contents ->
  In t contents -> role t = "user" -> In part (parts t) ->
  returnsResult part = true ->
  exists m call,
    In m contents /\ role m = "model" /\ In call (parts m)
    /\ answers (optprop "id" (optprop "functionResponse" part)) call = true.
Proof.
  unfold openaiMessageToAntigravity. intros E Ht Hrole Hpart Hres.
  unbind E. unbind E. injection E as <-. rename x0 into ms.
  unfold dropEmptyUserTurns in Ht. apply filter_In in Ht as [Ht _].
  unfold pruneOrphans in Ht. apply in_map_iff in Ht as (t0 & <- & Ht0).
  destruct (String.eqb (role t0) "user") eqn:Hu.
  2:{ apply String.eqb_neq in Hu. contradiction. }
  cbn [parts] in Hpart. apply filter_In in Hpart as [_ Hkeep].
  unfold keepPart in Hkeep. unfold returnsResult in Hres.
  rewrite Hres in Hkeep. apply existsb_exists in Hkeep as (id & Hid & Heq).
  apply functionCallIds_In in Hid as (m & call & Hm & Hmr & Hcall & Hfc & <-).
  exists m, call. repeat split; try assumption.
  - unfold dropEmptyUserTurns. apply filter_In. split.
    + unfold pruneOrphans. apply in_map_iff. exists m.
      split; [now rewrite Hmr | exact Hm].
    + now rewrite Hmr.
  - unfold answers. now rewrite Hfc, strictEq_sym.
Qed.

(** ** The name given to a tool result *)

Lemma nameInParts_Some id ps v :
  nameInParts id ps = Some v ->
  exists c, In c ps /\ answers id c = true
            /\ v = optprop "name" (optprop "functionCall" c).
Proof.
  unfold nameInParts.
  destruct (find _ ps) as [c|] eqn:E; [|discriminate].
  intros [= <-]. apply find_some in E as [Hin Hc]. now exists c.
Qed.

Lemma nameInParts_None id ps :
  nameInParts id ps = None -> forall c, In c ps -> answers id c = false.
Proof.
  unfold nameInParts.
  destruct (find _ ps) as [c|] eqn:E; [discriminate|].
  intros _ c Hc. exact (find_none _ _ E c Hc).
Qed.

Lemma findFunctionName_found id n backwards : forall functionName,
  truthy functionName = false ->
  truthy n = true ->
  (forall t c, In t backwards -> role t = "model" -> In c (parts t) ->
               answers id c = true ->
               optprop "name" (optprop "functionCall" c) = n) ->
  (exists t c, In t backwards /\ role t = "model" /\ In c (parts t)
               /\ answers id c = true) ->
  findFunctionName id backwards functionName = n.
Proof.
  induction backwards as [|t earlier IH];
    intros functionName Hfalsy Hn Hall (t0 & c0 & Ht0 & Hr0 & Hc0 & Ha0).
  - contradiction.
  - cbn [findFunctionName].
    destruct (String.eqb (role t) "model") eqn:Hr.
    + apply String.eqb_eq in Hr.
      destruct (nameInParts id (parts t)) as [v|] eqn:En.
      * apply nameInParts_Some in En as (c & Hc & Ha & ->).
        rewrite (Hall t c (or_introl eq_refl) Hr Hc Ha), Hn. reflexivity.
      * rewrite Hfalsy. apply IH; try assumption.
        { intros t1 c1 Ht1. apply Hall. now right. }
        destruct Ht0 as [<-|Ht0].
        { rewrite (nameInParts_None _ _ En _ Hc0) in Ha0. discriminate. }
        now exists t0, c0.
    + apply IH; try assumption.
      { intros t1 c1 Ht1. apply Hall. now right. }
      destruct Ht0 as [<-|Ht0].
      { rewrite Hr0 in Hr. discriminate. }
      now exists t0, c0.
Qed.

(** X10.  A tool message is turned into a [functionResponse] part that bears
    the name of the call with its [tool_call_id]; the part joins the last
    turn when that is a user turn that already returns a result, and makes
    a user turn of its own otherwise. *)
Theorem tool_result_bears_the_name_of_its_call
    (message : value) (antigravityMessages : list turn) (n : value) :
  truthy n = true ->
  (exists t c, In t antigravityMessages /\ role t = "model" /\ In c (parts t)
               /\ answers (optprop "tool_call_id" message) c = true) ->
  (forall t c, In t antigravityMessages -> role t = "model" ->
               In c (parts t) ->
               answers (optprop "tool_call_id" message) c = true ->
               optprop "name" (optprop "functionCall" c) = n) ->
  (lastIsUserWithResponse antigravityMessages = true ->
   exists before t0,
     antigravityMessages = before ++ [t0]
     /\ handleToolCall message antigravityMessages
        = before ++ [mkTurn "user" (parts t0 ++ [functionResponseOf message n])])
  /\ (lastIsUserWithResponse antigravityMessages = false ->
      handleToolCall message antigravityMessages
      = antigravityMessages ++ [mkTurn "user" [functionResponseOf message n]]).
Proof.
  intros Hn (t & c & Ht & Hr & Hc & Ha) Hall.
  assert (Hname : findFunctionName (optprop "tool_call_id" message)
                    (rev antigravityMessages) (VStr "") = n).
  { apply findFunctionName_found; [reflexivity | exact Hn | |].
    - intros t1 c1 Ht1. apply Hall. now apply in_rev.
    - exists t, c. repeat split; try assumption. now apply -> in_rev. }
  unfold handleToolCall. rewrite Hname. fold (functionResponseOf message n).
  split; intros Hlast; rewrite Hlast; [|reflexivity].
  unfold lastIsUserWithResponse, lastTurn in Hlast. unfold pushToLast.
  destruct (rev antigravityMessages) as [|t0 b] eqn:E; [discriminate|].
  apply rev_cons_inv in E. apply andb_prop in Hlast as [Hu _].
  apply String.eqb_eq in Hu. exists (rev b), t0. rewrite Hu. now split.
Qed.

End WithHost.

(** ** Images in user content *)

Lemma dropString_append (p s : string) :
  dropString (String.length p) (p ++ s) = s.
Proof.
  unfold dropString. induction p as [|c p IH].
  - cbn [String.length append]. rewrite Nat.sub_0_r. apply substring_all.
  - cbn [String.length append String.substring Nat.sub]. exact IH.
Qed.

Lemma takeWord_word (format rest : string) :
  wordChars format = true ->
  takeWord (format ++ String ";" rest) = (format, String ";" rest).
Proof.
  induction format as [|c f IH]; [reflexivity|].
  cbn [wordChars append takeWord]. intros Hw.
  apply andb_prop in Hw as [Hc Hf]. now rewrite Hc, (IH Hf).
Qed.

Lemma matchDataUrl_dataUrl (format data : string) :
  format <> "" -> wordChars format = true ->
  data <> "" -> noLineBreak data = true ->
  matchDataUrl (dataUrl format data) = Some (format, data).
Proof.
  intros Hf Hw Hd Hl. unfold matchDataUrl, dataUrl.
  rewrite prefix_append.
  rewrite (dropString_append "data:image/").
  change (";base64," ++ data)%string with (String ";" ("base64," ++ data)).
  rewrite (takeWord_word _ _ Hw).
  apply String.eqb_neq in Hf, Hd. rewrite Hf. cbn [negb andb].
  change (String ";" ("base64," ++ data)) with (";base64," ++ data)%string.
  rewrite prefix_append, (dropString_append ";base64,").
  now rewrite Hd, Hl.
Qed.

(** X11.  An [image_url] item whose URL is a base64 data URL of an image,
    with a format of word characters and data that hold none of the line
    terminators U+000A, U+000D, U+2028 and U+2029, becomes an [inlineData]
    part with the media type and the data of the URL; an item whose URL
    does not start with [data:image/] is passed over without an error. *)
Theorem data_url_becomes_inline_data
    (text : string) (images : list value) (item : value)
    (format data : string) :
  prop "type" item = Some (VStr "image_url") ->
  format <> "" -> wordChars format = true ->
  data <> "" -> noLineBreak data = true ->
  (optprop "url" (optprop "image_url" item) = VStr (dataUrl format data) ->
   extractItem (text, images) item
   = Some (text, images ++ [inlineData format data]))
  /\ (forall url,
        optprop "url" (optprop "image_url" item) = VStr url ->
        String.prefix "data:image/" url = false ->
        extractItem (text, images) item = Some (text, images)).
Proof.
  intros Hty Hf Hw Hd Hl. unfold extractItem. rewrite Hty. cbn [bind isStr].
  change (String.eqb "image_url" "text") with false.
  change (String.eqb "image_url" "image_url") with true. cbn iota.
  split.
  - intros ->. cbn [truthy]. unfold dataUrl at 1. cbn [append String.eqb].
    cbn [negb]. fold (dataUrl format data).
    rewrite (matchDataUrl_dataUrl _ _ Hf Hw Hd Hl). reflexivity.
  - intros url -> Hp.
    assert (Hm : matchDataUrl url = None) by (unfold matchDataUrl; now rewrite Hp).
    destruct (truthy (VStr url)); [now rewrite Hm | reflexivity].
Qed.

(** ** Thinking tags *)

(** A piece without the character that starts the replacement is copied
    from the input, not produced. *)
Lemma prefix_copied (pat rep' : string) (c0 : ascii) (w : string) :
  hasChar c0 w = false ->
  forall s,
    String.prefix w (replaceAllFrom pat (String c0 rep') 0 s) = true ->
    String.prefix w s = true.
Proof.
  induction w as [|c w IH]; intros Hw s Hp.
  - now destruct s.
  - cbn [hasChar] in Hw. apply orb_false_iff in Hw as [Hc Hw].
    apply Ascii.eqb_neq in Hc.
    destruct s as [|x s]; [discriminate Hp|].
    cbn [replaceAllFrom] in Hp.
    destruct (String.prefix pat (String x s)).
    + cbn [append String.prefix] in Hp.
      destruct (ascii_dec c c0); [contradiction | discriminate].
    + cbn [String.prefix] in *.
      destruct (ascii_dec c x); [|discriminate]. now apply IH.
Qed.

Lemma includes_cons (x : ascii) (hay needle : string) :
  includes (String x hay) needle
  = if String.prefix needle (String x hay) then true else includes hay needle.
Proof. reflexivity. Qed.

(** Replacing every occurrence of a pattern leaves none, when what is put
    in its place cannot take part in an occurrence. *)
Lemma replaceAll_removes (c0 : ascii) (w rep' : string) :
  hasChar c0 w = false ->
  (forall X, includes (String c0 rep' ++ X) (String c0 w)
             = includes X (String c0 w)) ->
  forall s skip,
    includes (replaceAllFrom (String c0 w) (String c0 rep') skip s)
             (String c0 w) = false.
Proof.
  intros Hw Hrep. induction s as [|x s IH]; intros skip; [reflexivity|].
  cbn [replaceAllFrom]. destruct skip as [|k]; [|apply IH].
  destruct (String.prefix (String c0 w) (String x s)) eqn:Hm.
  - rewrite Hrep. apply IH.
  - rewrite includes_cons, IH.
    destruct (String.prefix (String c0 w)
                (String x (replaceAllFrom (String c0 w) (String c0 rep') 0 s)))
      eqn:Hp; [|reflexivity].
    cbn [String.prefix] in Hp, Hm.
    destruct (ascii_dec c0 x); [|discriminate].
    apply (prefix_copied _ _ _ _ Hw) in Hp. congruence.
Qed.

(** Replacing another pattern does not bring in an occurrence of a text
    that the input is free of. *)
Lemma replaceAll_brings_none (pat : string) (c0 : ascii) (w rep' : string) :
  hasChar c0 w = false ->
  (forall X, includes (String c0 rep' ++ X) (String c0 w)
             = includes X (String c0 w)) ->
  forall s skip,
    includes s (String c0 w) = false ->
    includes (replaceAllFrom pat (String c0 rep') skip s) (String c0 w) = false.
Proof.
  intros Hw Hrep. induction s as [|x s IH]; intros skip Hs; [reflexivity|].
  rewrite includes_cons in Hs.
  destruct (String.prefix (String c0 w) (String x s)) eqn:Hm; [discriminate|].
  cbn [replaceAllFrom]. destruct skip as [|k]; [|now apply IH].
  destruct (String.prefix pat (String x s)).
  - rewrite Hrep. now apply IH.
  - rewrite includes_cons, (IH 0 Hs).
    destruct (String.prefix (String c0 w)
                (String x (replaceAllFrom pat (String c0 rep') 0 s)))
      eqn:Hp; [|reflexivity].
    cbn [String.prefix] in Hp, Hm.
    destruct (ascii_dec c0 x); [|discriminate].
    apply (prefix_copied _ _ _ _ Hw) in Hp. congruence.
Qed.

(** X12.  The text that leaves [convertThinkToThoughtTags] holds neither an
    opening nor a closing [think] tag, whatever the text was. *)
Theorem no_think_tag_is_left (text : string) :
  includes (convertThinkToThoughtTags text) "<think>" = false
  /\ includes (convertThinkToThoughtTags text) "</think>" = false.
Proof.
  unfold convertThinkToThoughtTags, replaceAll.
  destruct (String.eqb text "") eqn:E.
  - apply String.eqb_eq in E. subst text. split; reflexivity.
  - split.
    + apply (replaceAll_brings_none "</think>" "<" "think>" "/THOUGHT>");
        [reflexivity | intros X; reflexivity |].
      apply (replaceAll_removes "<" "think>" "THOUGHT>");
        [reflexivity | intros X; reflexivity].
    + apply (replaceAll_removes "<" "/think>" "/THOUGHT>");
        [reflexivity | intros X; reflexivity].
Qed.

(** A lone brace from the assistant after the question: the contents are
    those of the question alone. *)
Lemma left_out_message_changes_nothing_witness :
  @openaiMessageToAntigravity Samples.host
    ([Examples.question] ++ Examples.loneBrace :: []) false "gemini-2.5-pro"
  = Some [mkTurn "user" [textPart "Weather in Paris?"]].
Proof.
  rewrite (@left_out_message_changes_nothing Samples.host
             [Examples.question] [] Examples.loneBrace "gemini-2.5-pro").
  - vm_compute. reflexivity.
  - left. vm_compute. reflexivity.
Defined.

Lemma contents_turns_are_well_formed_witness :
  Forall wellFormedTurn Samples.conversationContents.
Proof.
  apply (@contents_turns_are_well_formed Samples.host Samples.conversation
           "gemini-2.5-pro").
  vm_compute. reflexivity.
Defined.

(** The tool result of the sample conversation answers the call of the
    model turn before it. *)
Lemma no_tool_result_without_its_call_witness :
  exists m call,
    In m Samples.conversationContents /\ role m = "model"
    /\ In call (parts m)
    /\ answers (VStr "call_1") call = true.
Proof.
  apply (@no_tool_result_without_its_call Samples.host Samples.conversation
           "gemini-2.5-pro" Samples.conversationContents
           Examples.toolTurn Examples.toolPart).
  - vm_compute. reflexivity.
  - vm_compute. tauto.
  - reflexivity.
  - vm_compute. tauto.
  - reflexivity.
Defined.

Lemma tool_result_bears_the_name_of_its_call_witness :
  handleToolCall Examples.toolMessage Examples.beforeToolMessage
  = Examples.beforeToolMessage
    ++ [mkTurn "user"
          [functionResponseOf Examples.toolMessage (VStr "get_weather")]].
Proof.
  apply (tool_result_bears_the_name_of_its_call Examples.toolMessage
           Examples.beforeToolMessage (VStr "get_weather")).
  - reflexivity.
  - exists (nth 1 Examples.beforeToolMessage (mkTurn "" [])).
    exists (hd VNull (parts (nth 1 Examples.beforeToolMessage (mkTurn "" [])))).
    vm_compute. tauto.
  - intros t c Ht Hr Hc Ha. vm_compute in Ht.
    destruct Ht as [<-|[<-|[]]]; [discriminate Hr|].
    vm_compute in Hc. destruct Hc as [<-|[]]. reflexivity.
  - vm_compute. reflexivity.
Defined.

Lemma data_url_becomes_inline_data_witness :
  extractItem ("", []) Examples.pictureItem
  = Some ("", [inlineData "png" "iVBORw0KGgo="]).
Proof.
  apply (data_url_becomes_inline_data "" [] Examples.pictureItem
           "png" "iVBORw0KGgo=");
    try reflexivity; discriminate.
Defined.

End ContentsFacts.

(* ====================================================================== *)
(** * Facts: the request bodies *)
(* ====================================================================== *)

Module RequestFacts.
Import JS Adapter Request.
Import AdapterFacts ValueFacts.

Lemma andThen_Done {A B : Type} (m : result A) (k : A -> result B) (b : B) :
  andThen m k = Done b -> exists a, m = Done a /\ k a = Done b.
Proof. destruct m as [a|e]; cbn; [eauto | discriminate]. Qed.

Section WithNumbers.
Context {N : Numeric}.

(** ** [generateGenerationConfig] *)

(** X13.  A thinking request never leaves with less than 2048 output tokens:
    the number asked for, or the default of the configuration, is raised to
    2048 when it is lower; without thinking it is passed on as it is. *)
Theorem thinking_gets_2048_tokens_at_least
    (config parameters : value) (enableThinking : bool)
    (actualModelName : string) (isNonChatModel : bool)
    (generationConfig : value) (n : Z) :
  requestedMaxTokens config parameters = Done (VNum n) ->
  generateGenerationConfig config parameters enableThinking actualModelName
    isNonChatModel = Done generationConfig ->
  optprop "maxOutputTokens" generationConfig
  = VNum (if enableThinking then Z.max n 2048 else n).
Proof.
  intros Hreq E. unfold generateGenerationConfig in E. rewrite Hreq in E.
  cbn [andThen] in E. unfold lessThan, toNumber in E.
  assert (Hmax : (if enableThinking && Z.ltb n 2048 then VNum 2048 else VNum n)
                 = VNum (if enableThinking then Z.max n 2048 else n)).
  { destruct enableThinking; cbn [andb]; [|reflexivity].
    destruct (Z.ltb_spec n 2048); f_equal; lia. }
  rewrite Hmax in E. clear Hmax.
  apply andThen_Done in E as (t & _ & E).
  destruct isNonChatModel; [now injection E as <-|].
  apply andThen_Done in E as (p & _ & E).
  apply andThen_Done in E as (k & _ & E).
  destruct (endsWith actualModelName "-image"
            && truthy (optprop "image_config" parameters));
    [destruct (truthy (optprop "image_size"
                         (optprop "image_config" parameters)));
     [destruct (String.eqb actualModelName "gemini-2.5-pro-image");
      [discriminate|]|]|];
    now injection E as <-.
Qed.

Lemma nullish_default (config : value) (d : list (string * value))
    (v : value) (key : string) :
  prop "defaults" config = Some (VObj d) ->
  exists x, nullish v (configDefault config key) = Done x.
Proof.
  intros Hd. unfold nullish, configDefault. rewrite Hd. cbn [bind prop orTypeError].
  destruct v; eauto.
Qed.

(** X14.  With a parameters object and the defaults of the configuration at
    hand, [generateGenerationConfig] fails in one case only, with status
    400: an image size asked of [gemini-2.5-pro-image] while
    [isNonChatModel] is false, that is in the full configuration of the
    chat models; with [isNonChatModel] true it returns before it looks at
    the image size. *)
Theorem only_image_size_of_pro_image_is_refused
    (config : value) (d ps : list (string * value)) (enableThinking : bool)
    (actualModelName : string) (isNonChatModel : bool) :
  prop "defaults" config = Some (VObj d) ->
  if asksImageSizeOfProImage (VObj ps) actualModelName isNonChatModel
  then generateGenerationConfig config (VObj ps) enableThinking
         actualModelName isNonChatModel
       = Fails (BadRequest "gemini-2.5-pro-image 不支持 imageSize 参数")
  else exists fields,
         generateGenerationConfig config (VObj ps) enableThinking
           actualModelName isNonChatModel
         = Done (VObj fields).
Proof.
  intros Hd. unfold asksImageSizeOfProImage, generateGenerationConfig,
               requestedMaxTokens.
  cbn [prop orTypeError andThen].
  destruct (nullish_default config d (lookup "max_tokens" ps) "max_tokens" Hd)
    as (m & ->).
  destruct (nullish_default config d (optprop "temperature" (VObj ps))
              "temperature" Hd) as (t & ->).
  cbn [andThen].
  destruct isNonChatModel; cbn [negb andb]; [eauto|].
  destruct (nullish_default config d (optprop "top_p" (VObj ps)) "top_p" Hd)
    as (p & ->).
  destruct (nullish_default config d (optprop "top_k" (VObj ps)) "top_k" Hd)
    as (k & ->).
  cbn [andThen].
  destruct (String.eqb actualModelName "gemini-2.5-pro-image") eqn:Epro.
  - apply String.eqb_eq in Epro. subst actualModelName.
    change (endsWith "gemini-2.5-pro-image" "-image") with true.
    cbn [andb].
    destruct (truthy (optprop "image_config" (VObj ps))); cbn [andb]; [|eauto].
    destruct (truthy (optprop "image_size" _)); [reflexivity | eauto].
  - cbn [andb].
    destruct (endsWith actualModelName "-image"
              && truthy (optprop "image_config" (VObj ps))); [|eauto].
    destruct (truthy (optprop "image_size" _)); eauto.
Qed.

(** What [generateGenerationConfig] says about thinking, for a chat
    model. *)
Lemma thinkingConfig_of (config parameters : value) (enableThinking : bool)
    (actualModelName : string) (generationConfig : value) :
  generateGenerationConfig config parameters enableThinking actualModelName
    false = Done generationConfig ->
  exists fields,
    generationConfig = VObj fields
    /\ lookup "thinkingConfig" fields
       = if String.eqb actualModelName "gemini-2.5-flash-image"
         then VUndefined
         else VObj [("includeThoughts", VBool enableThinking);
                    ("thinkingBudget",
                     VNum (if enableThinking then 1024 else 0))].
Proof.
  unfold generateGenerationConfig. intros E.
  apply andThen_Done in E as (m & _ & E).
  apply andThen_Done in E as (t & _ & E).
  apply andThen_Done in E as (p & _ & E).
  apply andThen_Done in E as (k & _ & E).
  destruct (enableThinking && includes actualModelName "claude");
    destruct (String.eqb actualModelName "gemini-2.5-flash-image");
    cbn [negb app] in E;
    (destruct (endsWith actualModelName "-image"
               && truthy (optprop "image_config" parameters));
     [destruct (truthy (optprop "image_size"
                          (optprop "image_config" parameters)));
      [destruct (String.eqb actualModelName "gemini-2.5-pro-image");
       [discriminate|]|]|]);
    injection E as <-; eexists; (split; [reflexivity|]); reflexivity.
Qed.

Lemma lookup_deleteThinkingBudget (fields : list (string * value)) :
  deleteThinkingBudget (VObj fields)
  = VObj (map (fun kv =>
                 if String.eqb (fst kv) "thinkingConfig" then
                   match snd kv with
                   | VObj inner =>
                       (fst kv,
                        VObj (filter
                                (fun e => negb (String.eqb (fst e)
                                                  "thinkingBudget"))
                                inner))
                   | _ => kv
                   end
                 else kv) fields)
  /\ lookup "thinkingConfig"
       (map (fun kv =>
               if String.eqb (fst kv) "thinkingConfig" then
                 match snd kv with
                 | VObj inner =>
                     (fst kv,
                      VObj (filter
                              (fun e => negb (String.eqb (fst e)
                                                "thinkingBudget"))
                              inner))
                 | _ => kv
                 end
               else kv) fields)
     = match lookup "thinkingConfig" fields with
       | VObj inner =>
           VObj (filter (fun e => negb (String.eqb (fst e) "thinkingBudget"))
                        inner)
       | v => v
       end.
Proof.
  split; [reflexivity|].
  induction fields as [|[k v] fields IH]; [reflexivity|].
  cbn [map fst snd]. rewrite (String.eqb_sym k "thinkingConfig").
  destruct (String.eqb "thinkingConfig" k) eqn:Ek.
  - destruct v; cbn [lookup fst]; rewrite Ek; reflexivity.
  - cbn [lookup]. rewrite Ek. exact IH.
Qed.

Context {H : Host}.

(** X15.  When the last message is a tool result, the request leaves with
    thinking switched off and without a thinking budget, whatever the model
    is; for [gemini-2.5-flash-image] there is no thinking configuration at
    all. *)
Theorem tool_result_switches_thinking_off
    (config : value) (ids : generated) (openaiMessages : list value)
    (modelName : string) (parameters openaiTools account body : value) :
  isLastMessageTool openaiMessages = true ->
  generateRequestBody config ids openaiMessages modelName parameters
    openaiTools account = Done body ->
  optprop "thinkingConfig" (generationConfigOf body)
  = if String.eqb
         (baseModelNameOf
            (if String.eqb modelName "gemini-2.5-flash-thinking"
             then "gemini-2.5-flash" else modelName))
         "gemini-2.5-flash-image"
    then VUndefined
    else VObj [("includeThoughts", VBool false)].
Proof.
  intros Hlast E. unfold generateRequestBody in E. rewrite Hlast in E.
  set (base := baseModelNameOf _) in *.
  destruct (startsWith base "chat_"); [discriminate|].
  apply andThen_Done in E as (gc0 & Egc & E).
  apply thinkingConfig_of in Egc as (fields & -> & Htc).
  apply andThen_Done in E as (contents & _ & E).
  apply andThen_Done in E as (text & _ & E).
  apply andThen_Done in E as (tools & _ & E).
  injection E as <-.
  unfold generationConfigOf. cbn [optprop lookup String.eqb Ascii.eqb Bool.eqb app andb].
  cbn [optprop] in *. rewrite Htc.
  destruct (String.eqb base "gemini-2.5-flash-image").
  - cbn [truthy]. exact Htc.
  - cbn [truthy].
    destruct (lookup_deleteThinkingBudget fields) as [_ Hl].
    cbn [optprop]. rewrite Hl, Htc. reflexivity.
Qed.

(** ** The system instruction *)

Lemma system_texts (openaiMessages : list value) : forall systemMessages,
  filterM (fun msg => let* r := prop "role" msg in Some (isStr r "system"))
          openaiMessages = Some systemMessages ->
  plainSystemMessages openaiMessages ->
  mapM systemText systemMessages = Some (systemContents openaiMessages).
Proof.
  induction openaiMessages as [|msg r IH]; intros sys E Hplain.
  - injection E as <-. reflexivity.
  - cbn [filterM] in E.
    apply bind_Some in E as (b & Eb & E).
    apply bind_Some in E as (ys & Eys & E).
    apply bind_Some in Eb as (rv & Erv & Eb).
    injection Eb as <-. injection E as <-.
    apply prop_optprop in Erv.
    assert (Hr : plainSystemMessages r).
    { intros m Hm. apply Hplain. now right. }
    specialize (IH _ Eys Hr).
    unfold systemContents. cbn [flat_map]. fold (systemContents r).
    rewrite Erv. destruct (isStr rv "system") eqn:Hs; [|exact IH].
    specialize (Hplain msg (or_introl eq_refl)). rewrite Erv in Hplain.
    specialize (Hplain Hs).
    cbn [mapM]. unfold systemText at 1.
    destruct (optprop "content" msg); try discriminate.
    cbn [bind app]. now rewrite IH.
Qed.

(** X16.  The system messages of a conversation, when their contents are
    strings, are merged in their order into the system instruction,
    separated by an empty line; without a system message the instruction of
    the configuration is sent, or the empty string. *)
Theorem system_messages_are_merged
    (config : value) (ids : generated) (openaiMessages : list value)
    (modelName : string) (parameters openaiTools account body : value) :
  plainSystemMessages openaiMessages ->
  generateRequestBody config ids openaiMessages modelName parameters
    openaiTools account = Done body ->
  systemInstructionOf body
  = match systemContents openaiMessages with
    | [] => if truthy (optprop "systemInstruction" config)
            then optprop "systemInstruction" config else VStr ""
    | texts => VStr (String.concat (lineFeed ++ lineFeed) texts)
    end.
Proof.
  intros Hplain E. unfold generateRequestBody in E.
  destruct (startsWith _ "chat_"); [discriminate|].
  apply andThen_Done in E as (gc0 & _ & E).
  apply andThen_Done in E as (contents & _ & E).
  apply andThen_Done in E as (text & Etext & E).
  apply andThen_Done in E as (tools & _ & E).
  injection E as <-.
  unfold systemInstructionOf.
  cbn [optprop lookup String.eqb Ascii.eqb Bool.eqb app andb Client.first].
  unfold orTypeError in Etext.
  destruct (systemInstructionText config openaiMessages) as [t|] eqn:Et;
    [|discriminate].
  injection Etext as ->. unfold systemInstructionText in Et.
  apply bind_Some in Et as (sys & Esys & Et).
  pose proof (system_texts _ _ Esys Hplain) as Htexts.
  destruct sys as [|m sys].
  - cbn [mapM] in Htexts. injection Htexts as <-.
    apply bind_Some in Et as (si & Esi & Et).
    injection Et as <-. apply prop_optprop in Esi. now rewrite Esi.
  - rewrite Htexts in Et. cbn [bind] in Et. injection Et as <-.
    apply mapM_length in Htexts.
    destruct (systemContents openaiMessages); [discriminate Htexts | reflexivity].
Qed.

(** ** [generateImageRequestBody] *)

Lemma listed_In (v : value) (l : list string) :
  listed v l = true -> exists s, v = VStr s /\ In s l.
Proof.
  destruct v; try discriminate. cbn [listed]. intros E.
  apply existsb_exists in E as (x & Hx & Ex).
  apply String.eqb_eq in Ex. subst x. eauto.
Qed.

(** X17.  An image request that is built asks only for what the upstream
    takes: an aspect ratio and an image size are passed on only when they
    are among the values listed, no size is passed on for
    [gemini-2.5-flash-image], and the user turn has at least one part. *)
Theorem image_request_is_valid
    (ids : generated) (prompt : value) (modelName : string)
    (imageConfig account images body : value) :
  generateImageRequestBody ids prompt modelName imageConfig account images
  = Done body ->
  absentOrListed
    (optprop "aspectRatio" (optprop "imageConfig" (generationConfigOf body)))
    validAspectRatios
  /\ absentOrListed
       (optprop "imageSize" (optprop "imageConfig" (generationConfigOf body)))
       validImageSizes
  /\ (modelName = "gemini-2.5-flash-image" ->
      optprop "imageSize" (optprop "imageConfig" (generationConfigOf body))
      = VUndefined)
  /\ exists part more, firstParts body = VArr (part :: more).
Proof.
  unfold generateImageRequestBody. intros E.
  apply andThen_Done in E as (pictures & _ & E).
  apply andThen_Done in E as (gc & Egc & E).
  injection E as <-. unfold generationConfigOf, firstParts.
  cbn [optprop lookup String.eqb Ascii.eqb Bool.eqb app andb Client.first].
  split; [|split; [|split]].
  4:{ destruct ((if truthy prompt then _ else _) ++ pictures) as [|p ps]; eauto. }
  all: destruct (hasKeys _); [|injection Egc as <-; cbn; auto; now left].
  all: apply andThen_Done in Egc as (aspectRatio & Ea & Egc);
       apply andThen_Done in Egc as (imageSize & Es & Egc);
       injection Egc as <-.
  all: cbn [optprop lookup String.eqb Ascii.eqb Bool.eqb andb].
  all: set (aspect := optprop "aspect_ratio" _) in *;
       set (size := optprop "image_size" _) in *.
  all: destruct (truthy aspect);
         [destruct (listed aspect validAspectRatios) eqn:La;
          [|discriminate]|];
         injection Ea as <-.
  all: destruct (truthy size);
         [destruct (listed size validImageSizes) eqn:Ls; [|discriminate];
          destruct (String.eqb modelName "gemini-2.5-flash-image") eqn:Em;
          [discriminate|]|];
         injection Es as <-.
  all: cbn [app lookup String.eqb Ascii.eqb Bool.eqb andb negb].
  all: try (now left).
  all: try (right; now apply listed_In).
  all: try reflexivity.
  all: intros ->; discriminate.
Qed.

End WithNumbers.

(** A hundred tokens are asked for, with thinking on. *)
Lemma thinking_gets_2048_tokens_at_least_witness :
  optprop "maxOutputTokens"
    (match @generateGenerationConfig Examples.numbers Examples.configuration
             Examples.fewTokens true "gemini-2.5-pro" false with
     | Done generationConfig => generationConfig
     | Fails _ => VNull
     end)
  = VNum 2048.
Proof.
  apply (@thinking_gets_2048_tokens_at_least Examples.numbers
           Examples.configuration Examples.fewTokens true "gemini-2.5-pro"
           false _ 100).
  - vm_compute. reflexivity.
  - vm_compute. reflexivity.
Defined.

Lemma only_image_size_of_pro_image_is_refused_witness :
  @generateGenerationConfig Examples.numbers Examples.configuration
    (VObj Examples.largePicture) false "gemini-2.5-pro-image" false
  = Fails (BadRequest "gemini-2.5-pro-image 不支持 imageSize 参数").
Proof.
  apply (@only_image_size_of_pro_image_is_refused Examples.numbers
           Examples.configuration
           [("temperature", VNum 1); ("top_p", VNum 1);
            ("top_k", VNum 50); ("max_tokens", VNum 8096)]
           Examples.largePicture false "gemini-2.5-pro-image" false).
  reflexivity.
Defined.

(** The sample conversation ends with a tool result. *)
Lemma tool_result_switches_thinking_off_witness :
  optprop "thinkingConfig" (generationConfigOf Examples.afterToolBody)
  = VObj [("includeThoughts", VBool false)].
Proof.
  apply (@tool_result_switches_thinking_off Examples.numbers Samples.host
           Examples.configuration Examples.ids Samples.conversation
           "gemini-2.5-pro" Examples.fewTokens VUndefined VNull
           Examples.afterToolBody).
  - reflexivity.
  - vm_compute. reflexivity.
Defined.

Lemma system_messages_are_merged_witness :
  systemInstructionOf Examples.twoInstructionsBody
  = VStr ("Be brief." ++ lineFeed ++ lineFeed ++ "Be kind.").
Proof.
  apply (@system_messages_are_merged Examples.numbers Samples.host
           Examples.configuration Examples.ids Examples.twoInstructions
           "gemini-2.5-pro" Examples.fewTokens VUndefined VNull
           Examples.twoInstructionsBody).
  - intros msg Hin _. vm_compute in Hin.
    destruct Hin as [<-|[<-|[<-|[]]]]; reflexivity.
  - vm_compute. reflexivity.
Defined.

Lemma image_request_is_valid_witness :
  absentOrListed (VStr "16:9") validAspectRatios
  /\ absentOrListed (VStr "2K") validImageSizes
  /\ ("gemini-3-pro-image" = "gemini-2.5-flash-image" ->
      VStr "2K" = VUndefined)
  /\ exists part more,
       firstParts Examples.wideImageBody = VArr (part :: more).
Proof.
  apply (@image_request_is_valid Examples.numbers Examples.ids
           (VStr "a lighthouse") "gemini-3-pro-image"
           Examples.wideImageConfig VNull VUndefined Examples.wideImageBody).
  vm_compute. reflexivity.
Defined.

End RequestFacts.

(* ====================================================================== *)
(** * Facts: what selection serves and when it fails *)
(* ====================================================================== *)

Module UsageFacts.
Import JS Store Selector Client Usage.
Import SelectorFacts.

Lemma hasRow_In db a : In a db -> hasRow db (cookie_id a) = true.
Proof.
  intros Hin. unfold hasRow. apply existsb_exists. exists a.
  split; [exact Hin | apply String.eqb_refl].
Qed.

Lemma updateRow_cookies f db cookie db' :
  (forall a, cookie_id (f a) = cookie_id a) ->
  updateRow f db cookie = Some db' ->
  map cookie_id db' = map cookie_id db.
Proof.
  unfold updateRow. intros Hf. destruct (hasRow db cookie); [|discriminate].
  intros [= <-]. rewrite map_map. apply map_ext. intros a.
  destruct (String.eqb (cookie_id a) cookie); [apply Hf | reflexivity].
Qed.

Lemma store_updates_keep_cookies db cookie db' :
  (updateAccountStatus db cookie 0 = Some db'
   \/ markAccountNeedRefresh db cookie = Some db'
   \/ exists token expires, updateAccountToken db cookie token expires = Some db') ->
  map cookie_id db' = map cookie_id db.
Proof.
  intros [E | [E | (token & expires & E)]];
    (eapply updateRow_cookies; [|exact E]); intros a; destruct a; reflexivity.
Qed.

Section WithWorld.
Variable w : world.

Lemma candidates_mayUse db uid preferShared a :
  In a (candidates db uid preferShared) -> mayUse uid a.
Proof.
  unfold candidates, getAvailableAccounts, mayUse. intros Hin.
  destruct (Nat.eqb preferShared 1); apply in_app_iff in Hin;
    destruct Hin as [Hin | Hin]; apply filter_In in Hin;
    destruct Hin as [_ Hc]; apply andb_prop in Hc; destruct Hc as [Hc Hu];
    apply andb_prop in Hc; destruct Hc as [_ Hs];
    apply Nat.eqb_eq in Hs; try (now left);
    right; (split; [exact Hs | now apply String.eqb_eq]).
Qed.

Lemma candidates_complete db uid preferShared a :
  In a db -> enabled a = true -> mayUse uid a ->
  In a (candidates db uid preferShared).
Proof.
  intros Hin Hen [Hs | [Hs Hu]].
  - assert (Hd : In a (getAvailableAccounts db None (Some 1))).
    { unfold getAvailableAccounts. apply filter_In. split; [assumption|].
      rewrite Hen, Hs. reflexivity. }
    unfold candidates. destruct (Nat.eqb preferShared 1); apply in_app_iff; auto.
  - now apply candidates_dedicated.
Qed.

Lemma roundPick_mayUse st uid model_name preferShared ex account :
  roundPick w st uid model_name preferShared ex account -> mayUse uid account.
Proof.
  unfold roundPick. intros Hin. apply selectedPool_incl in Hin.
  unfold availableAccounts in Hin. apply filter_In in Hin as [Hin _].
  apply excludeTried_spec in Hin as [Hin _].
  now apply candidates_mayUse in Hin.
Qed.

Lemma picked_is_usable fuel :
  forall st uid model_name preferShared ex a st',
    getAvailableAccountFrom w fuel st uid model_name preferShared ex = Picked a st' ->
    ~ In (cookie_id a) ex
    /\ mayUse uid a
    /\ enabled a = true
    /\ isModelAvailable w (cookie_id a) model_name = true
    /\ In (cookie_id a) (map cookie_id (accounts st))
    /\ map cookie_id (accounts st') = map cookie_id (accounts st).
Proof.
  induction fuel as [|fuel IH]; intros st uid model_name preferShared ex a st' E;
    [discriminate|].
  destruct (getAvailableAccountFrom_cases _ _ _ _ _ _ _ _ _ E)
    as (account & Hpick & [[-> Hdb] | [(token & expires & -> & Hu) | (db' & Hup & Hrec)]]).
  - pose proof (roundPick_mayUse _ _ _ _ _ _ Hpick) as Hm.
    apply roundPick_facts in Hpick as (Hin & Hen & Hno & Hel).
    unfold eligible in Hel. apply andb_prop in Hel as [Hav _].
    rewrite Hdb. repeat split; auto. now apply in_map.
  - pose proof (roundPick_mayUse _ _ _ _ _ _ Hpick) as Hm.
    apply roundPick_facts in Hpick as (Hin & Hen & Hno & Hel).
    unfold eligible in Hel. apply andb_prop in Hel as [Hav _].
    destruct (withToken_flags account token expires) as (Hc & Hus & Hs & He).
    rewrite Hc, He. repeat split; auto.
    + now apply in_map.
    + apply (store_updates_keep_cookies _ (cookie_id account)).
      right; right. eauto.
  - destruct (IH _ _ _ _ _ _ _ Hrec) as (Hno & Hm & Hen & Hav & Hin & Hck).
    cbn [accounts] in Hin, Hck.
    assert (Hsame : map cookie_id db' = map cookie_id (accounts st)).
    { apply (store_updates_keep_cookies _ (cookie_id account)).
      destruct Hup as [Hup | Hup]; [left | right; left]; exact Hup. }
    repeat split; auto.
    + intros Hex. apply Hno, in_app_iff. now left.
    + now rewrite <- Hsame.
    + now rewrite Hck.
Qed.

(** X18.  The credential that selection serves is one the user may use, a
    shared one or a dedicated one of the user's own, never a dedicated
    credential of somebody else; it is enabled, available for the model and
    not on the exclusion list. *)
Theorem selection_serves_a_usable_credential
    (st : store) (uid model_name : string) (preferShared : nat)
    (excludeCookieIds : list string) (a : account) (st' : store) :
  getAvailableAccount w st uid model_name preferShared excludeCookieIds
  = Picked a st' ->
  mayUse uid a
  /\ enabled a = true
  /\ isModelAvailable w (cookie_id a) model_name = true
  /\ ~ In (cookie_id a) excludeCookieIds.
Proof.
  unfold getAvailableAccount. intros E.
  destruct (picked_is_usable _ _ _ _ _ _ _ _ E) as (Hno & Hm & Hen & Hav & _).
  auto.
Qed.

(** ** The token of the credential served *)

Lemma getAvailableAccountFrom_token fuel st uid model_name preferShared ex a st' :
  getAvailableAccountFrom w (S fuel) st uid model_name preferShared ex
  = Picked a st' ->
  (exists account,
     In account (accounts st)
     /\ (isTokenExpired (now w) account = false
         /\ a = account /\ accounts st' = accounts st
         \/ exists token expires_in,
              refreshAccessToken w (refresh_token account)
              = TokenData token expires_in
              /\ a = withToken account token (now w + expires_in * 1000)
              /\ updateAccountToken (accounts st) (cookie_id account) token
                   (now w + expires_in * 1000) = Some (accounts st')))
  \/ exists st1 ex1,
       getAvailableAccountFrom w fuel st1 uid model_name preferShared ex1
       = Picked a st'.
Proof.
  cbn [getAvailableAccountFrom].
  destruct (excludeTried ex (candidates (accounts st) uid preferShared))
    as [|c0 cs] eqn:Ec; [discriminate|].
  destruct (availableAccounts w uid model_name (c0 :: cs)) as [|a0 av] eqn:Ea;
    [discriminate|].
  set (pool := selectedPool preferShared (a0 :: av)).
  destruct (nth_error pool (random w (draws st) mod List.length pool))
    as [account|] eqn:En; [|discriminate].
  assert (Hpick : roundPick w st uid model_name preferShared ex account).
  { unfold roundPick. rewrite Ec, Ea. exact (nth_error_In _ _ En). }
  apply roundPick_facts in Hpick as (Hin & _).
  destruct (isTokenExpired (now w) account) eqn:Hexp.
  - destruct (refreshAccessToken w (refresh_token account))
      as [token expires_in| |] eqn:Er; cbn [accounts draws].
    + destruct (updateAccountToken (accounts st) (cookie_id account) token
                  (now w + expires_in * 1000)) as [db'|] eqn:Eu.
      * intros [= <- <-]. left. exists account. split; [exact Hin|].
        right. exists token, expires_in. auto.
      * destruct (markAccountNeedRefresh (accounts st) (cookie_id account));
          [|discriminate].
        intros E. right. eauto.
    + destruct (updateAccountStatus (accounts st) (cookie_id account) 0);
        [|discriminate].
      intros E. right. eauto.
    + destruct (markAccountNeedRefresh (accounts st) (cookie_id account));
        [|discriminate].
      intros E. right. eauto.
  - intros [= <- <-]. left. exists account. split; [exact Hin|]. left. auto.
Qed.

(** X19.  The credential served is a row of the table that selection leaves
    (in the columns of [account]; [updated_at] is not one of them), with the
    token it is served with: a token that is not about to expire, or the
    token that the refresh has just returned, stored with its new expiry. *)
Theorem served_token_is_current
    (st : store) (uid model_name : string) (preferShared : nat)
    (excludeCookieIds : list string) (a : account) (st' : store) :
  getAvailableAccount w st uid model_name preferShared excludeCookieIds
  = Picked a st' ->
  In a (accounts st')
  /\ (isTokenExpired (now w) a = false
      \/ exists token expires_in,
           refreshAccessToken w (refresh_token a) = TokenData token expires_in
           /\ access_token a = token
           /\ expires_at a = (now w + expires_in * 1000)%Z).
Proof.
  unfold getAvailableAccount.
  generalize (S (List.length (accounts st))). intros fuel.
  revert st excludeCookieIds.
  induction fuel as [|fuel IH]; intros st ex E; [discriminate|].
  apply getAvailableAccountFrom_token in E
    as [(account & Hin & [(Hexp & -> & Hdb)
                         | (token & expires_in & Er & -> & Eu)])
       | (st1 & ex1 & Hrec)].
  - rewrite Hdb. auto.
  - split.
    + unfold updateAccountToken, updateRow in Eu.
      destruct (hasRow (accounts st) (cookie_id account)); [|discriminate].
      injection Eu as <-. apply in_map_iff. exists account.
      now rewrite String.eqb_refl.
    + right. exists token, expires_in. destruct account; auto.
  - exact (IH _ _ Hrec).
Qed.

(** X20.  With the preference shared-first ([prefer_shared = 1]), whenever
    selection returns a credential while the store it leaves holds a shared
    credential that is enabled, not excluded, available for the model and
    covered by the user's pool, the credential returned is a shared one. *)
Theorem shared_first_never_returns_dedicated
    (st : store) (uid model_name : string)
    (excludeCookieIds : list string) (a : account) (st' : store) :
  getAvailableAccount w st uid model_name 1 excludeCookieIds = Picked a st' ->
  (exists d, sharedEligible w (accounts st') uid model_name excludeCookieIds d) ->
  is_shared a = 1.
Proof.
  unfold getAvailableAccount.
  generalize (S (List.length (accounts st))). intros fuel.
  revert st excludeCookieIds.
  induction fuel as [|fuel IH]; intros st ex E (d & Hd); [discriminate|].
  destruct Hd as (Hin & Hen & Hsh & Hno & Hav & Hq).
  assert (Hround : forall d0 account,
             In d0 (accounts st) -> enabled d0 = true -> is_shared d0 = 1 ->
             cookie_id d0 = cookie_id d ->
             roundPick w st uid model_name 1 ex account ->
             is_shared account = 1).
  { intros d0 account Hin0 Hen0 Hsh0 Hck0 Hpick. unfold roundPick in Hpick.
    set (available := availableAccounts w uid model_name
                        (excludeTried ex (candidates (accounts st) uid 1))) in *.
    assert (Hd0 : In d0 (filter (fun acc => Nat.eqb (is_shared acc) 1) available)).
    { apply filter_In. split; [|rewrite Hsh0; reflexivity].
      unfold available, availableAccounts. apply filter_In. split.
      - apply excludeTried_keeps; [|rewrite Hck0; assumption].
        apply candidates_complete; [assumption | assumption | now left].
      - unfold eligible. rewrite Hck0, Hav, Hsh0, Hq. reflexivity. }
    unfold selectedPool in Hpick. cbn [Nat.eqb] in Hpick.
    assert (Hlen : Nat.ltb 0 (List.length
                      (filter (fun acc => Nat.eqb (is_shared acc) 1) available)) = true).
    { destruct (filter (fun acc => Nat.eqb (is_shared acc) 1) available);
        [contradiction | reflexivity]. }
    rewrite Hlen in Hpick. apply filter_In in Hpick.
    destruct Hpick as [_ Hz]. now apply Nat.eqb_eq in Hz. }
  destruct (getAvailableAccountFrom_cases _ _ _ _ _ _ _ _ _ E)
    as (account & Hpick & [[-> Hdb] | [(token & expires & -> & Hu') | (db' & Hup & Hrec)]]).
  - rewrite Hdb in Hin. eapply Hround; eauto.
  - destruct (withToken_flags account token expires) as (_ & _ & -> & _).
    destruct (updateRow_In _ _ _ _ _ Hu' Hin) as (d0 & Hin0 & [[-> _] | [-> _]]).
    + eapply Hround; eauto.
    + destruct (withToken_flags d0 token expires) as (Hc & Hus & Hs & He).
      rewrite Hc in *. rewrite Hs in Hsh. rewrite He in Hen.
      eapply (Hround d0); eauto.
  - apply (IH _ _ Hrec). exists d. repeat split; auto.
    intros Hc. apply in_app_iff in Hc. destruct Hc as [Hc | [Hc | []]];
      [contradiction|].
    assert (Hoff : disabledIn (cookie_id account) (accounts st')).
    { apply (getAvailableAccountFrom_keeps_disabled _ _ _ _ _ _ _ _ _ _ Hrec).
      cbn [accounts]. eapply disabling_disables. exact Hup. }
    specialize (Hoff d Hin (eq_sym Hc)). congruence.
Qed.

(** ** When selection fails *)

Lemma selectedPool_nonempty preferShared available :
  available <> [] ->
  (forall a, In a available -> is_shared a = 0 \/ is_shared a = 1) ->
  selectedPool preferShared available <> [].
Proof.
  intros Hne Hflags. unfold selectedPool.
  destruct available as [|x r]; [congruence|].
  assert (Hx : In x (filter (fun acc => Nat.eqb (is_shared acc) 0) (x :: r))
               \/ In x (filter (fun acc => Nat.eqb (is_shared acc) 1) (x :: r))).
  { destruct (Hflags x (or_introl eq_refl)) as [E|E]; [left | right];
      apply filter_In; (split; [now left | now rewrite E]). }
  destruct (Nat.eqb preferShared 1).
  - destruct (filter (fun acc => Nat.eqb (is_shared acc) 1) (x :: r)) eqn:E1;
      [|discriminate].
    cbn [List.length Nat.ltb Nat.leb].
    destruct Hx as [Hx|[]]. intros E0. now rewrite E0 in Hx.
  - destruct (filter (fun acc => Nat.eqb (is_shared acc) 0) (x :: r)) eqn:E0;
      [|discriminate].
    cbn [List.length Nat.ltb Nat.leb].
    destruct Hx as [[]|Hx]. intros E1. now rewrite E1 in Hx.
Qed.

(** How [getAvailableAccountFrom] can fail or go on to fail. *)
Lemma getAvailableAccountFrom_fails fuel st uid model_name preferShared ex e st' :
  getAvailableAccountFrom w (S fuel) st uid model_name preferShared ex
  = Failed e st' ->
  (e = NoAccounts /\ st' = st
   /\ excludeTried ex (candidates (accounts st) uid preferShared) = [])
  \/ (e = QuotaExhausted /\ st' = st
      /\ availableAccounts w uid model_name
           (excludeTried ex (candidates (accounts st) uid preferShared)) = [])
  \/ (exists account db',
        roundPick w st uid model_name preferShared ex account
        /\ (updateAccountStatus (accounts st) (cookie_id account) 0 = Some db'
            \/ markAccountNeedRefresh (accounts st) (cookie_id account) = Some db')
        /\ getAvailableAccountFrom w fuel (mkStore db' (S (draws st)))
             uid model_name preferShared (ex ++ [cookie_id account])
           = Failed e st').
Proof.
  cbn [getAvailableAccountFrom].
  destruct (excludeTried ex (candidates (accounts st) uid preferShared))
    as [|c0 cs] eqn:Ec.
  { intros [= <- <-]. left. auto. }
  destruct (availableAccounts w uid model_name (c0 :: cs)) as [|a0 av] eqn:Ea.
  { intros [= <- <-]. right; left. auto. }
  set (pool := selectedPool preferShared (a0 :: av)).
  assert (Hpool : pool <> []).
  { apply selectedPool_nonempty; [discriminate|].
    intros a Ha. rewrite <- Ea in Ha. unfold availableAccounts in Ha.
    apply filter_In in Ha as [Ha _]. rewrite <- Ec in Ha.
    apply excludeTried_spec in Ha as [Ha _].
    apply candidates_mayUse in Ha as [Hs | [Hs _]]; auto. }
  destruct (nth_error pool (random w (draws st) mod List.length pool))
    as [account|] eqn:En.
  2:{ exfalso. apply nth_error_None in En.
      assert (0 < List.length pool) by (destruct pool; [congruence | cbn; lia]).
      pose proof (Nat.mod_upper_bound (random w (draws st)) (List.length pool)).
      lia. }
  assert (Hpick : roundPick w st uid model_name preferShared ex account).
  { unfold roundPick. rewrite Ec, Ea. exact (nth_error_In _ _ En). }
  pose proof (roundPick_facts _ _ _ _ _ _ _ Hpick) as (Hin & _).
  pose proof (hasRow_In _ _ Hin) as Hrow.
  assert (Hstatus : exists db',
             updateAccountStatus (accounts st) (cookie_id account) 0 = Some db').
  { unfold updateAccountStatus, updateRow. rewrite Hrow. eauto. }
  assert (Hmark : exists db',
             markAccountNeedRefresh (accounts st) (cookie_id account) = Some db').
  { unfold markAccountNeedRefresh, updateRow. rewrite Hrow. eauto. }
  destruct (isTokenExpired (now w) account); [|discriminate].
  cbn [accounts draws].
  destruct (refreshAccessToken w (refresh_token account)) as [token expires_in| |].
  - destruct (updateAccountToken (accounts st) (cookie_id account) token _);
      [discriminate|].
    destruct Hmark as (db' & Em). rewrite Em. intros E.
    right; right. exists account, db'. auto.
  - destruct Hstatus as (db' & Em). rewrite Em. intros E.
    right; right. exists account, db'. auto.
  - destruct Hmark as (db' & Em). rewrite Em. intros E.
    right; right. exists account, db'. auto.
Qed.

Lemma failing_keeps_disabled c fuel :
  forall st uid model_name preferShared ex e st',
    getAvailableAccountFrom w fuel st uid model_name preferShared ex = Failed e st' ->
    disabledIn c (accounts st) -> disabledIn c (accounts st').
Proof.
  induction fuel as [|fuel IH]; intros st uid model_name preferShared ex e st' E Hd.
  - cbn in E. now injection E as _ <-.
  - destruct (getAvailableAccountFrom_fails _ _ _ _ _ _ _ _ E)
      as [(_ & -> & _) | [(_ & -> & _) | (account & db' & _ & Hup & Hrec)]];
      try assumption.
    apply (IH _ _ _ _ _ _ _ Hrec). cbn [accounts].
    eapply store_updates_keep_disabled; [|exact Hd].
    destruct Hup as [Hup | Hup]; [left | right; left]; exact Hup.
Qed.

Lemma failure_is_for_want fuel :
  forall st uid model_name preferShared ex e st',
    enabledCount (accounts st) < fuel ->
    getAvailableAccountFrom w fuel st uid model_name preferShared ex = Failed e st' ->
    (e = NoAccounts
     /\ forall row, In row (accounts st') -> enabled row = true ->
                    mayUse uid row -> In (cookie_id row) ex)
    \/ (e = QuotaExhausted
        /\ forall row, In row (accounts st') -> enabled row = true ->
                       mayUse uid row -> ~ In (cookie_id row) ex ->
                       eligible w uid model_name row = false).
Proof.
  induction fuel as [|fuel IH];
    intros st uid model_name preferShared ex e st' Hlt E; [lia|].
  destruct (getAvailableAccountFrom_fails _ _ _ _ _ _ _ _ E)
    as [(-> & -> & Hnone) | [(-> & -> & Hnone) | (account & db' & Hpick & Hup & Hrec)]].
  - left. split; [reflexivity|]. intros row Hin Hen Hm.
    destruct (in_dec string_dec (cookie_id row) ex) as [Hex|Hex]; [exact Hex|].
    exfalso.
    assert (Hc : In row (excludeTried ex (candidates (accounts st) uid preferShared))).
    { apply excludeTried_keeps; [|exact Hex]. now apply candidates_complete. }
    now rewrite Hnone in Hc.
  - right. split; [reflexivity|]. intros row Hin Hen Hm Hex.
    destruct (eligible w uid model_name row) eqn:Hel; [|reflexivity].
    exfalso.
    assert (Hc : In row (availableAccounts w uid model_name
                           (excludeTried ex
                              (candidates (accounts st) uid preferShared)))).
    { unfold availableAccounts. apply filter_In. split; [|exact Hel].
      apply excludeTried_keeps; [|exact Hex]. now apply candidates_complete. }
    now rewrite Hnone in Hc.
  - assert (Hoff : disabledIn (cookie_id account) (accounts st')).
    { apply (failing_keeps_disabled _ _ _ _ _ _ _ _ _ Hrec).
      cbn [accounts]. eapply disabling_disables. exact Hup. }
    assert (Hless : enabledCount db' < fuel).
    { apply roundPick_facts in Hpick as (Hin & Hen & _).
      destruct Hup as [Eu | Eu];
        (eapply Nat.lt_le_trans; [|apply Nat.lt_succ_r; exact Hlt]);
        (eapply updateRow_count;
         [exact Eu | intros x; destruct x; reflexivity | eauto]). }
    destruct (IH (mkStore db' (S (draws st))) _ _ _ _ _ _ Hless Hrec)
      as [[-> Hall] | [-> Hall]].
    + left. split; [reflexivity|]. intros row Hin Hen Hm.
      specialize (Hall row Hin Hen Hm). apply in_app_iff in Hall.
      destruct Hall as [Hall | [Hall | []]]; [exact Hall|].
      specialize (Hoff row Hin (eq_sym Hall)). congruence.
    + right. split; [reflexivity|]. intros row Hin Hen Hm Hex.
      apply (Hall row Hin Hen Hm). intros Hc. apply in_app_iff in Hc.
      destruct Hc as [Hc | [Hc | []]]; [contradiction|].
      specialize (Hoff row Hin (eq_sym Hc)). congruence.
Qed.

(** X21.  Selection fails in two ways only, and only for want of a
    credential: with the error on missing accounts when every enabled
    credential that the user may use is on the exclusion list, and with the
    error on exhausted quota when none of those left is available for the
    model and covered by the user's pool. *)
Theorem selection_fails_for_want_of_a_credential
    (st : store) (uid model_name : string) (preferShared : nat)
    (excludeCookieIds : list string) (e : failure) (st' : store) :
  getAvailableAccount w st uid model_name preferShared excludeCookieIds
  = Failed e st' ->
  (e = NoAccounts
   /\ forall row, In row (accounts st') -> enabled row = true ->
                  mayUse uid row -> In (cookie_id row) excludeCookieIds)
  \/ (e = QuotaExhausted
      /\ forall row, In row (accounts st') -> enabled row = true ->
                     mayUse uid row -> ~ In (cookie_id row) excludeCookieIds ->
                     eligible w uid model_name row = false).
Proof.
  unfold getAvailableAccount. apply failure_is_for_want.
  unfold enabledCount. apply Nat.lt_succ_r, filter_length_le.
Qed.

End WithWorld.

Lemma selection_serves_a_usable_credential_witness :
  mayUse "alice" (Samples.pickedOf Samples.dedicatedFirstSelection)
  /\ enabled (Samples.pickedOf Samples.dedicatedFirstSelection) = true
  /\ isModelAvailable Samples.sampleWorld
       (cookie_id (Samples.pickedOf Samples.dedicatedFirstSelection))
       "gemini-2.5-pro" = true
  /\ ~ In (cookie_id (Samples.pickedOf Samples.dedicatedFirstSelection)) [].
Proof.
  apply (selection_serves_a_usable_credential Samples.sampleWorld
           Samples.initialStore "alice" "gemini-2.5-pro" 0 []
           (Samples.pickedOf Samples.dedicatedFirstSelection)
           (Samples.storeOf Samples.dedicatedFirstSelection)).
  vm_compute. reflexivity.
Defined.

(** The token of the first credential is out of date and is refreshed. *)
Lemma served_token_is_current_witness :
  In (Samples.pickedOf Examples.refreshedSelection)
     (accounts (Samples.storeOf Examples.refreshedSelection))
  /\ (isTokenExpired (now Examples.refreshingWorld)
        (Samples.pickedOf Examples.refreshedSelection) = false
      \/ exists token expires_in,
           refreshAccessToken Examples.refreshingWorld
             (refresh_token (Samples.pickedOf Examples.refreshedSelection))
           = TokenData token expires_in
           /\ access_token (Samples.pickedOf Examples.refreshedSelection) = token
           /\ expires_at (Samples.pickedOf Examples.refreshedSelection)
              = (now Examples.refreshingWorld + expires_in * 1000)%Z).
Proof.
  apply (served_token_is_current Examples.refreshingWorld
           Samples.initialStore "alice" "gemini-2.5-pro" 0 []
           (Samples.pickedOf Examples.refreshedSelection)
           (Samples.storeOf Examples.refreshedSelection)).
  vm_compute. reflexivity.
Defined.

(** Alice prefers shared credentials; the one of Bob is there. *)
Lemma shared_first_never_returns_dedicated_witness :
  cookie_id (Samples.pickedOf Samples.sharedFirstSelection) = "bob-1"
  /\ is_shared (Samples.pickedOf Samples.sharedFirstSelection) = 1.
Proof.
  split; [reflexivity|].
  apply (shared_first_never_returns_dedicated Samples.sampleWorld
           Samples.initialStore "alice" "gemini-2.5-pro" []
           (Samples.pickedOf Samples.sharedFirstSelection)
           (Samples.storeOf Samples.sharedFirstSelection)).
  - vm_compute. reflexivity.
  - exists (Samples.credential "bob-1" "bob" 1 9000000).
    unfold sharedEligible. repeat split; try reflexivity.
    + vm_compute. tauto.
    + intros [].
Defined.

(** With every credential of the table on the exclusion list, the error is
    the one on missing accounts. *)
Lemma selection_fails_for_want_of_a_credential_witness :
  (NoAccounts = NoAccounts
   /\ forall row, In row (accounts (Samples.storeOf Examples.nothingLeft)) ->
                  enabled row = true -> mayUse "alice" row ->
                  In (cookie_id row) Examples.allTried)
  \/ (NoAccounts = QuotaExhausted
      /\ forall row, In row (accounts (Samples.storeOf Examples.nothingLeft)) ->
                     enabled row = true -> mayUse "alice" row ->
                     ~ In (cookie_id row) Examples.allTried ->
                     eligible Samples.sampleWorld "alice" "gemini-2.5-pro" row
                     = false).
Proof.
  apply (selection_fails_for_want_of_a_credential Samples.sampleWorld
           Samples.initialStore "alice" "gemini-2.5-pro" 0 Examples.allTried
           NoAccounts (Samples.storeOf Examples.nothingLeft)).
  vm_compute. reflexivity.
Defined.

End UsageFacts.

(* ====================================================================== *)
(** * Facts: the attempts of a logical request *)
(* ====================================================================== *)

Module AttemptsFacts.
Import JS Store Selector Client Usage.
Import SelectorFacts ClientFacts UsageFacts.

Lemma untried_same_cookies ex db : forall db',
  map cookie_id db' = map cookie_id db -> untried ex db' = untried ex db.
Proof.
  unfold untried. induction db as [|a db IH]; intros [|a' db'] E;
    try discriminate; [reflexivity|].
  cbn [map] in E. injection E as Ea E. cbn [filter]. rewrite Ea.
  destruct (negb (existsb (String.eqb (cookie_id a)) ex)); cbn [List.length];
    rewrite (IH _ E); reflexivity.
Qed.

Lemma untried_le ex db : untried ex db <= List.length db.
Proof. apply filter_length_le. Qed.

Lemma existsb_eqb_In c ex : existsb (String.eqb c) ex = true <-> In c ex.
Proof.
  rewrite existsb_exists. split.
  - intros (x & Hx & E). apply String.eqb_eq in E. now subst.
  - intros Hin. exists c. split; [exact Hin | apply String.eqb_refl].
Qed.

(** Excluding one more credential of the table leaves fewer rows. *)
Lemma untried_shrinks ex db c :
  In c (map cookie_id db) -> ~ In c ex ->
  untried (ex ++ [c]) db < untried ex db.
Proof.
  unfold untried. intros Hin Hno.
  assert (Hle : forall l,
             List.length (filter (fun row => negb (existsb (String.eqb (cookie_id row))
                                                     (ex ++ [c]))) l)
             <= List.length (filter (fun row => negb (existsb (String.eqb (cookie_id row))
                                                        ex)) l)).
  { induction l as [|y l IHl]; cbn [filter]; [lia|].
    rewrite existsb_app.
    destruct (existsb (String.eqb (cookie_id y)) ex); cbn [orb negb]; [exact IHl|].
    destruct (negb _); cbn [List.length]; lia. }
  induction db as [|a db IH]; [contradiction|].
  cbn [map] in Hin. cbn [filter]. rewrite existsb_app.
  destruct Hin as [Ha | Hin].
  - subst c.
    destruct (existsb (String.eqb (cookie_id a)) ex) eqn:Eex.
    { apply existsb_eqb_In in Eex. contradiction. }
    cbn [existsb orb negb]. rewrite String.eqb_refl. cbn [orb negb List.length].
    specialize (Hle db). lia.
  - specialize (IH Hin).
    destruct (existsb (String.eqb (cookie_id a)) ex); cbn [orb negb]; [exact IH|].
    destruct (negb _); cbn [List.length]; lia.
Qed.

Lemma disable_cookies st cookie st1 :
  disable st cookie = Some st1 ->
  map cookie_id (accounts st1) = map cookie_id (accounts st).
Proof.
  unfold disable.
  destruct (updateAccountStatus (accounts st) cookie 0) as [db|] eqn:E;
    [|discriminate].
  intros [= <-]. cbn [accounts].
  apply (store_updates_keep_cookies _ cookie). now left.
Qed.

Section Orchestrator.
Context {H : Host}.
Variable w : world.
Variable totalEndpoints : nat.
Variables (uid model_name : string) (preferShared : nat).

Local Abbreviation chat :=
  (generateResponse w totalEndpoints uid model_name preferShared).
Local Abbreviation image :=
  (generateImage w totalEndpoints uid model_name preferShared).
Local Abbreviation reselect := (select w uid model_name preferShared).

Lemma reselect_usable st ex a st1 :
  reselect st ex = Picked a st1 ->
  ~ In (cookie_id a) ex
  /\ In (cookie_id a) (map cookie_id (accounts st))
  /\ map cookie_id (accounts st1) = map cookie_id (accounts st).
Proof.
  unfold select, getAvailableAccount. intros E.
  destruct (picked_is_usable _ _ _ _ _ _ _ _ _ E)
    as (Hno & _ & _ & _ & Hin & Hck).
  auto.
Qed.

(** Case analysis along the branches of the two state machines. *)
Ltac cases :=
  repeat match goal with
         | |- context [match ?x with _ => _ end] =>
             lazymatch x with
             | context [match _ with _ => _ end] => fail
             | _ => destruct x eqn:?
             end
         end.

(** ** Credentials that were left *)

(** The credentials of the attempts: the one in hand, or one that is not on
    the exclusion list extended with the one in hand. *)
Lemma chat_cookies script : forall st a ex rc i first att,
  In att (attempts (chat script st (Some a) ex rc i first)) ->
  att_cookie att = cookie_id a
  \/ ~ In (att_cookie att) (ex ++ [cookie_id a]).
Proof.
  induction script as [|rep rest IH]; intros st a ex rc i first att.
  - cbn. intros [<-|[]]. now left.
  - cbn [generateResponse]. cases; unfold finish, after; cbn [attempts];
      rewrite ?attempts_catchReturn, ?attempts_catchRethrow;
      (intros [<-|Hin]; [now left|]); try contradiction;
      first
        [ (* the next endpoint, same credential *)
          exact (IH _ _ _ _ _ _ _ Hin)
        | (* another credential *)
          right;
          match goal with
          | Hs : select _ _ _ _ _ _ = Picked ?b _ |- _ =>
              apply reselect_usable in Hs as (Hno & _)
          end;
          destruct (IH _ _ _ _ _ _ _ Hin) as [-> | Hout]; [exact Hno|];
          intros Hc; apply Hout, in_app_iff; now left ].
Qed.

Lemma image_cookies script : forall st a ex rc i first att,
  In att (attempts (image script st (Some a) ex rc i first)) ->
  att_cookie att = cookie_id a
  \/ ~ In (att_cookie att) (ex ++ [cookie_id a]).
Proof.
  induction script as [|rep rest IH]; intros st a ex rc i first att.
  - cbn. intros [<-|[]]. now left.
  - cbn [generateImage]. cases; unfold finish, after; cbn [attempts];
      rewrite ?attempts_catchReturn, ?attempts_catchRethrow;
      (intros [<-|Hin]; [now left|]); try contradiction;
      first
        [ (* the next endpoint, same credential *)
          exact (IH _ _ _ _ _ _ _ Hin)
        | (* another credential *)
          right;
          match goal with
          | Hs : select _ _ _ _ _ _ = Picked ?b _ |- _ =>
              apply reselect_usable in Hs as (Hno & _)
          end;
          destruct (IH _ _ _ _ _ _ _ Hin) as [-> | Hout]; [exact Hno|];
          intros Hc; apply Hout, in_app_iff; now left ].
Qed.

Lemma leftForGood_cons this rest :
  (att_cookie (hd this rest) <> att_cookie this ->
   forall c, In c rest -> att_cookie c <> att_cookie this) ->
  leftForGood rest -> leftForGood (this :: rest).
Proof. destruct rest as [|b more]; [intros; exact I | now split]. Qed.

Lemma chat_leftForGood script : forall st a ex rc i first,
  leftForGood (attempts (chat script st (Some a) ex rc i first)).
Proof.
  induction script as [|rep rest IH]; intros st a ex rc i first; [exact I|].
  cbn [generateResponse]. cases; unfold finish, after; cbn [attempts];
    rewrite ?attempts_catchReturn, ?attempts_catchRethrow;
    try exact I;
    (apply leftForGood_cons; [|apply IH]); cbn [att_cookie].
  all: match goal with
       | |- context [attempts (chat ?sc ?st0 (Some ?b) ?ex0 ?rc0 ?i0 ?f0)] =>
           destruct (generateResponse_first_attempt w totalEndpoints uid
                       model_name preferShared sc st0 b ex0 rc0 i0 f0)
             as (more & Hm);
           pose proof (chat_cookies sc st0 b ex0 rc0 i0 f0) as Hck;
           rewrite Hm in *; cbn [hd att_cookie]
       end.
  all: first
         [ (* the same credential goes on *)
           intros Hne; now contradiction Hne
         | (* another credential *)
           intros _ c Hc Heq;
           match goal with
           | Hs : select _ _ _ _ _ _ = Picked ?b _ |- _ =>
               apply reselect_usable in Hs as (Hno & _)
           end;
           destruct (Hck c Hc) as [Hb | Hout];
           [ apply Hno, in_app_iff; right; left; congruence
           | apply Hout, in_app_iff; left; apply in_app_iff; right; left;
             congruence ] ].
Qed.

Lemma image_leftForGood script : forall st a ex rc i first,
  leftForGood (attempts (image script st (Some a) ex rc i first)).
Proof.
  induction script as [|rep rest IH]; intros st a ex rc i first; [exact I|].
  cbn [generateImage]. cases; unfold finish, after; cbn [attempts];
    rewrite ?attempts_catchReturn, ?attempts_catchRethrow;
    try exact I;
    (apply leftForGood_cons; [|apply IH]); cbn [att_cookie].
  all: match goal with
       | |- context [attempts (image ?sc ?st0 (Some ?b) ?ex0 ?rc0 ?i0 ?f0)] =>
           destruct (generateImage_first_attempt w totalEndpoints uid
                       model_name preferShared sc st0 b ex0 rc0 i0 f0)
             as (more & Hm);
           pose proof (image_cookies sc st0 b ex0 rc0 i0 f0) as Hck;
           rewrite Hm in *; cbn [hd att_cookie]
       end.
  all: first
         [ (* the same credential goes on *)
           intros Hne; now contradiction Hne
         | (* another credential *)
           intros _ c Hc Heq;
           match goal with
           | Hs : select _ _ _ _ _ _ = Picked ?b _ |- _ =>
               apply reselect_usable in Hs as (Hno & _)
           end;
           destruct (Hck c Hc) as [Hb | Hout];
           [ apply Hno, in_app_iff; right; left; congruence
           | apply Hout, in_app_iff; left; apply in_app_iff; right; left;
             congruence ] ].
Qed.

Lemma leftForGood_split atts : forall before a b after,
  leftForGood atts ->
  atts = before ++ a :: b :: after ->
  att_cookie b <> att_cookie a ->
  forall c, In c (b :: after) -> att_cookie c <> att_cookie a.
Proof.
  induction atts as [|x atts IH]; intros before a b after Hl E Hne.
  - destruct before; discriminate.
  - destruct before as [|y before]; cbn [app] in E.
    + injection E as -> ->. destruct Hl as [Hl _]. now apply Hl.
    + injection E as -> ->.
      assert (Hrest : leftForGood (before ++ a :: b :: after)).
      { destruct (before ++ a :: b :: after) eqn:Eb;
          [destruct before; discriminate | apply Hl]. }
      exact (IH _ _ _ _ Hrest eq_refl Hne).
Qed.

(** X22.  Within one logical request, for a chat or for an image, a
    credential that has been left for another one is not tried again:
    whenever two attempts in a row use different credentials, no later
    attempt uses the first of the two. *)
Theorem request_never_returns_to_a_credential
    (script : list reply) (st : store) (account : option account)
    (excludeCookieIds : list string) (retryCount endpointIndex : nat)
    (firstError403Type : option string)
    (before : list attempt) (a b : attempt) (after : list attempt) :
  attempts (chat script st account excludeCookieIds retryCount endpointIndex
              firstError403Type)
  = before ++ a :: b :: after
  \/ attempts (image script st account excludeCookieIds retryCount
                 endpointIndex firstError403Type)
     = before ++ a :: b :: after ->
  att_cookie b <> att_cookie a ->
  forall c, In c (b :: after) -> att_cookie c <> att_cookie a.
Proof.
  intros [E|E]; (eapply leftForGood_split; [|exact E]);
    (destruct account as [acc|];
     [first [apply chat_leftForGood | apply image_leftForGood]|]).
  - rewrite generateResponse_selects.
    destruct (reselect st excludeCookieIds); [apply chat_leftForGood | exact I].
  - rewrite generateImage_selects.
    destruct (reselect st excludeCookieIds); [apply image_leftForGood | exact I].
Qed.

(** ** The number of attempts *)

Lemma one_more (E i u u' : nat) :
  1 <= E -> i < E -> u' < u -> 1 + (E - 0 + E * u') <= E - i + E * u.
Proof. intros. nia. Qed.

Lemma chat_attempts_bound (E : nat) script :
  1 <= E -> totalEndpoints <= E ->
  forall st a ex rc i first,
    i < E ->
    List.length (attempts (chat script st (Some a) ex rc i first))
    <= E - i + E * untried (ex ++ [cookie_id a]) (accounts st).
Proof.
  intros HE1 HE.
  induction script as [|rep rest IH]; intros st a ex rc i first Hi.
  - cbn [generateResponse attempts finish List.length]. lia.
  - cbn [generateResponse]. cases; unfold finish, after; cbn [attempts List.length];
      rewrite ?attempts_catchReturn, ?attempts_catchRethrow;
      try lia.
    all: match goal with
         | |- context [attempts (chat ?sc ?st0 (Some ?b) ?ex0 ?rc0 ?i0 ?f0)] =>
             pose proof (IH st0 b ex0 rc0 i0 f0) as Hrec
         end.
    all: try solve
           [ (* the next endpoint *)
             match goal with
             | Hlt : Nat.ltb (S _) _ = true |- _ =>
                 apply Nat.ltb_lt in Hlt
             end;
             specialize (Hrec ltac:(lia)); lia ].
    all: specialize (Hrec ltac:(lia));
         match goal with
         | Hs : select _ _ _ _ _ _ = Picked ?b ?st1 |- _ =>
             apply reselect_usable in Hs as (Hno & Hin & Hck)
         end;
         repeat match goal with
                | Hd : disable _ _ = Some _ |- _ =>
                    apply disable_cookies in Hd
                end.
    all: match goal with
         | |- context [untried ?ex0 (accounts ?st0)] =>
             match type of Hrec with
             | context [untried ?ex1 (accounts ?st1)] =>
                 assert (Hu : untried ex1 (accounts st1)
                              < untried ex0 (accounts st0))
             end
         end.
    all: try solve
           [ eapply Nat.le_trans;
             [apply le_n_S; exact Hrec | apply one_more; [lia | lia | exact Hu]] ].
    all: try match goal with
             | Hd : map cookie_id (accounts ?s1) = map cookie_id (accounts _),
               Hin : In _ (map cookie_id (accounts ?s1)) |- _ =>
                 rewrite Hd in Hin
             end.
    all: match goal with
         | |- untried _ (accounts ?st1) < untried _ (accounts ?st0) =>
             assert (Hsame : map cookie_id (accounts st1)
                             = map cookie_id (accounts st0)) by congruence;
             rewrite (untried_same_cookies _ _ _ Hsame);
             apply untried_shrinks; [exact Hin | exact Hno]
         end.
Qed.

Lemma image_attempts_bound (E : nat) script :
  1 <= E -> totalEndpoints <= E ->
  forall st a ex rc i first,
    i < E ->
    List.length (attempts (image script st (Some a) ex rc i first))
    <= E - i + E * untried (ex ++ [cookie_id a]) (accounts st).
Proof.
  intros HE1 HE.
  induction script as [|rep rest IH]; intros st a ex rc i first Hi.
  - cbn [generateImage attempts finish List.length]. lia.
  - cbn [generateImage]. cases; unfold finish, after; cbn [attempts List.length];
      rewrite ?attempts_catchReturn, ?attempts_catchRethrow;
      try lia.
    all: match goal with
         | |- context [attempts (image ?sc ?st0 (Some ?b) ?ex0 ?rc0 ?i0 ?f0)] =>
             pose proof (IH st0 b ex0 rc0 i0 f0) as Hrec
         end.
    all: try solve
           [ (* the next endpoint *)
             match goal with
             | Hlt : Nat.ltb (S _) _ = true |- _ =>
                 apply Nat.ltb_lt in Hlt
             end;
             specialize (Hrec ltac:(lia)); lia ].
    all: specialize (Hrec ltac:(lia));
         match goal with
         | Hs : select _ _ _ _ _ _ = Picked ?b ?st1 |- _ =>
             apply reselect_usable in Hs as (Hno & Hin & Hck)
         end;
         repeat match goal with
                | Hd : disable _ _ = Some _ |- _ =>
                    apply disable_cookies in Hd
                end.
    all: match goal with
         | |- context [untried ?ex0 (accounts ?st0)] =>
             match type of Hrec with
             | context [untried ?ex1 (accounts ?st1)] =>
                 assert (Hu : untried ex1 (accounts st1)
                              < untried ex0 (accounts st0))
             end
         end.
    all: try solve
           [ eapply Nat.le_trans;
             [apply le_n_S; exact Hrec | apply one_more; [lia | lia | exact Hu]] ].
    all: try match goal with
             | Hd : map cookie_id (accounts ?s1) = map cookie_id (accounts _),
               Hin : In _ (map cookie_id (accounts ?s1)) |- _ =>
                 rewrite Hd in Hin
             end.
    all: match goal with
         | |- untried _ (accounts ?st1) < untried _ (accounts ?st0) =>
             assert (Hsame : map cookie_id (accounts st1)
                             = map cookie_id (accounts st0)) by congruence;
             rewrite (untried_same_cookies _ _ _ Hsame);
             apply untried_shrinks; [exact Hin | exact Hno]
         end.
Qed.

(** X23.  A logical request, for a chat or for an image, makes at most as
    many calls upstream as there are endpoints times rows in the table of
    credentials, however long the upstream goes on failing. *)
Theorem attempts_are_bounded
    (script : list reply) (st : store) (excludeCookieIds : list string) :
  List.length (attempts (chat script st None excludeCookieIds 0 0 None))
  <= Nat.max 1 totalEndpoints * List.length (accounts st)
  /\ List.length (attempts (image script st None excludeCookieIds 0 0 None))
     <= Nat.max 1 totalEndpoints * List.length (accounts st).
Proof.
  rewrite generateResponse_selects, generateImage_selects.
  destruct (reselect st excludeCookieIds) as [a st0|e st0] eqn:Es;
    [|cbn; lia].
  apply reselect_usable in Es as (Hno & Hin & Hck).
  pose proof (chat_attempts_bound (Nat.max 1 totalEndpoints) script
                ltac:(lia) ltac:(lia) st0 a excludeCookieIds 0 0 None
                ltac:(lia)) as Hb.
  pose proof (image_attempts_bound (Nat.max 1 totalEndpoints) script
                ltac:(lia) ltac:(lia) st0 a excludeCookieIds 0 0 None
                ltac:(lia)) as Hi.
  assert (Hu : untried (excludeCookieIds ++ [cookie_id a]) (accounts st0)
               < untried excludeCookieIds (accounts st)).
  { rewrite (untried_same_cookies _ _ _ Hck). now apply untried_shrinks. }
  pose proof (untried_le excludeCookieIds (accounts st)).
  split; nia.
Qed.

End Orchestrator.

(** After the rate limit on the first credential, the three attempts that
    follow use its replacement. *)
Lemma request_never_returns_to_a_credential_witness :
  Forall (fun c => att_cookie c <> "alice-2")
         (skipn 2 Examples.refusedTwiceAttempts).
Proof.
  apply Forall_forall.
  apply (@request_never_returns_to_a_credential Samples.host
           Samples.sampleWorld 3 "alice" "gemini-2.5-pro" 0
           Samples.refusedTwice Samples.twoCredentials None [] 0 0 None
           (firstn 1 Examples.refusedTwiceAttempts)
           (nth 1 Examples.refusedTwiceAttempts
              (mkAttempt "" 0 0 None NetworkError))
           (nth 2 Examples.refusedTwiceAttempts
              (mkAttempt "" 0 0 None NetworkError))
           (skipn 3 Examples.refusedTwiceAttempts)).
  - left. vm_compute. reflexivity.
  - vm_compute. discriminate.
Defined.

End AttemptsFacts.
